(** * Skin-classifier backend: the [/predict] request handler

    A shallow embedding of [index.py].  The handler is one Flask view that
    sequences three pre-trained models; the models, the OpenCV decoder and
    resizer, the file system and matplotlib are collaborators of the
    handler and are taken as fields of a [Runtime] record.  What the handler
    itself computes is modelled concretely: NumPy's float32 arithmetic
    (through the IEEE-754 specification of the Standard Library),
    [np.argmax], the mask threshold and broadcast, Python's [float()] and
    [str()] on the metadata prediction, the ['.4f'] / ['.2f'] formatting,
    [os.path.join], and the two [try]/[except] boundaries. *)

From Stdlib Require Import ZArith List String Ascii Bool Lia.
From Stdlib Require Import Strings.Byte.
From Stdlib Require Import Floats.SpecFloat.
From Stdlib Require Import DecimalString.
From Stdlib Require DecimalFacts DecimalN.
Import ListNotations.

Local Open Scope list_scope.
Local Open Scope string_scope.

(* ------------------------------------------------------------------ *)
(** ** IEEE-754 binary32 and binary64 *)

(** NumPy [float32]: the dtype of every array the handler computes with
    (Keras outputs, [astype(np.float32)]).  A [spec_float] is a float32
    when [valid_binary prec emax] holds of it; the operations below return
    such values on such values.  Most results of this file hold of every
    [spec_float]; the results on rounding take validity as a hypothesis. *)
Module F32.
Definition prec : Z := 24.
Definition emax : Z := 128.
Definition t := spec_float.

Definition add : t -> t -> t := SFadd prec emax.
Definition mul : t -> t -> t := SFmul prec emax.
Definition div : t -> t -> t := SFdiv prec emax.
Definition of_Z (z : Z) : t := binary_normalize prec emax z 0 false.

Definition leb : t -> t -> bool := SFleb.
Definition ltb : t -> t -> bool := SFltb.
(** [x > y] *)
Definition gtb (x y : t) : bool := SFltb y x.

Definition is_nan (x : t) : bool :=
  match x with S754_nan => true | _ => false end.

Definition is_finite (x : t) : bool :=
  match x with S754_zero _ | S754_finite _ _ _ => true | _ => false end.

Definition zero : t := S754_zero false.
Definition one : t := of_Z 1.
Definition two : t := of_Z 2.
Definition half : t := div one two.
Definition c255 : t := of_Z 255.
End F32.

(** Python [float] / [numpy.float64]. *)
Module F64.
Definition prec : Z := 53.
Definition emax : Z := 1024.
Definition t := spec_float.

Definition of_Z (z : Z) : t := binary_normalize prec emax z 0 false.

(** Conversion of a Python float operand to the array's dtype: the
    Python scalar is weakly typed, so [float32_array + python_float] is
    computed in float32 after rounding the scalar to nearest-even. *)
Definition to_f32 (x : t) : F32.t :=
  match x with
  | S754_finite s m e =>
      binary_normalize F32.prec F32.emax (if s then Z.neg m else Z.pos m) e s
  | _ => x
  end.
End F64.

(* ------------------------------------------------------------------ *)
(** ** Exceptions and the result type *)

Inductive ExcKind :=
| ValueError | TypeError | IndexError | OverflowError | OtherError.

(** An exception with the text [str(e)] gives. *)
Record Exc := mkExc { exc_kind : ExcKind; exc_str : string }.

Definition Result (A : Type) : Type := (Exc + A)%type.

Definition ok {A} (a : A) : Result A := inr a.
Definition raise {A} (k : ExcKind) (msg : string) : Result A :=
  inl (mkExc k msg).

Definition rbind {A B} (r : Result A) (f : A -> Result B) : Result B :=
  match r with
  | inl e => inl e
  | inr a => f a
  end.

(* ------------------------------------------------------------------ *)
(** ** [np.argmax] on a one-dimensional float32 array *)

(** The scan of NumPy's float argmax: [mp] is the running maximum (never
    NaN inside the loop), [max_ind] its index, [i] the index of the head of
    [ip].  A later element replaces the maximum when [not (x <= mp)], and
    the scan stops at the first NaN, which counts as maximal. *)
Fixpoint argmax_scan (mp : F32.t) (max_ind i : nat) (ip : list F32.t) : nat :=
  match ip with
  | [] => max_ind
  | x :: rest =>
      if negb (F32.leb x mp)
      then if F32.is_nan x then i else argmax_scan x i (S i) rest
      else argmax_scan mp max_ind (S i) rest
  end.

Definition np_argmax (a : list F32.t) : Result nat :=
  match a with
  | [] => raise ValueError "attempt to get argmax of an empty sequence"
  | mp :: rest =>
      if F32.is_nan mp then ok 0%nat else ok (argmax_scan mp 0 1 rest)
  end.

(** [CLASS_LABELS] *)
Definition CLASS_LABELS : list string :=
  ["bkl"; "nv"; "df"; "mel"; "vasc"; "bcc"; "akiec"].

(** Python list indexing with a non-negative index. *)
Definition list_getitem {A} (l : list A) (i : nat) : Result A :=
  match nth_error l i with
  | Some a => ok a
  | None => raise IndexError "list index out of range"
  end.

(* ------------------------------------------------------------------ *)
(** ** Strings: decimal printing, fixed-point formatting, [os.path.join] *)

(** Decimal numeral of a non-negative integer, as [str(n)] prints it. *)
Definition dec (n : Z) : string :=
  NilZero.string_of_uint (N.to_uint (Z.to_N n)).

Definition digit_char (n : Z) : ascii :=
  ascii_of_N (48 + Z.to_N (n mod 10)).

(** The [d] low decimal digits of [n], most significant first. *)
Fixpoint frac_digits (d : nat) (n : Z) : string :=
  match d with
  | O => ""
  | S d' => frac_digits d' (n / 10) ++ String (digit_char n) ""
  end.

(** [m * 2^e * 10^d] rounded to the nearest integer, ties to even: the
    digits Python's correctly rounded ['.<d>f'] prints for the finite
    value [m * 2^e]. *)
Definition scaled_round (d : nat) (m : positive) (e : Z) : Z :=
  let n := (Z.pos m * 10 ^ Z.of_nat d)%Z in
  match e with
  | Z0 => n
  | Zpos _ => (n * 2 ^ e)%Z
  | Zneg p =>
      let den := (2 ^ Z.pos p)%Z in
      let q := (n / den)%Z in
      let r := (n mod den)%Z in
      match (2 * r ?= den)%Z with
      | Lt => q
      | Gt => (q + 1)%Z
      | Eq => if Z.even q then q else (q + 1)%Z
      end
  end.

Definition sign_str (s : bool) : string := if s then "-" else "".

(** [format(x, '.<d>f')] for a float ([numpy.float32.__format__] converts
    to a Python float first, which is exact). *)
Definition format_f (d : nat) (x : spec_float) : string :=
  match x with
  | S754_nan => "nan"
  | S754_infinity s => sign_str s ++ "inf"
  | _ =>
      let '(s, n) :=
        match x with
        | S754_finite s m e => (s, scaled_round d m e)
        | S754_zero s => (s, 0%Z)
        | _ => (false, 0%Z)
        end in
      let p := (10 ^ Z.of_nat d)%Z in
      sign_str s ++ dec (n / p)
        ++ match d with
           | O => ""
           | _ => "." ++ frac_digits d (n mod p)
           end
  end.

Definition starts_with_sep (s : string) : bool :=
  match s with
  | String "/" _ => true
  | _ => false
  end.

Fixpoint ends_with_sep (s : string) : bool :=
  match s with
  | "" => false
  | String c "" => Ascii.eqb c "/"
  | String _ rest => ends_with_sep rest
  end.

(** [os.path.join(a, b)] (POSIX). *)
Definition os_path_join (a b : string) : string :=
  if starts_with_sep b then b
  else if (String.length a =? 0)%nat || ends_with_sep a then a ++ b
  else a ++ "/" ++ b.

Definition UPLOAD_FOLDER : string := "uploads".

(* ------------------------------------------------------------------ *)
(** ** The metadata prediction as a Python value *)

(** The first element of the array [nlp_model.predict] returns: whatever
    the dtype of that array holds.  An object of another type is carried
    by the text [str()] gives for it and by what [float()] does on it:
    a [TypeError] for an object without [__float__] ([None], an array of
    several elements), otherwise what its [__float__] returns or raises. *)
Inductive PyVal :=
| PyStr (s : string)       (** [str] / [numpy.str_]: a categorical label *)
| PyFloat (x : F64.t)      (** [float] / [numpy.float64] *)
| PyInt (n : Z)            (** [int] of any size, or a NumPy integer *)
| PyBool (b : bool)        (** [bool] / [numpy.bool_] *)
| PyObj (repr : string) (as_float : Result F64.t).

Section PythonValues.
(** [float(s)] for a string: [None] when Python raises [ValueError]. *)
Variable float_of_str : string -> option F64.t.
(** [str(x)] for a float (shortest round-trip numeral). *)
Variable float_repr : F64.t -> string.

Definition py_float (v : PyVal) : Result F64.t :=
  match v with
  | PyStr s =>
      match float_of_str s with
      | Some x => ok x
      | None =>
    raise ValueError ("could not convert string to float: '" ++ s ++ "'")
      end
  | PyFloat x => ok x
  | PyInt n =>
      (* rounded to nearest-even; Python raises when the rounded value is
         beyond the largest float *)
      match F64.of_Z n with
      | S754_infinity _ =>
          raise OverflowError "int too large to convert to float"
      | x => ok x
      end
  | PyBool b => ok (F64.of_Z (if b then 1 else 0))
  | PyObj _ as_float => as_float
  end.

Definition py_str (v : PyVal) : string :=
  match v with
  | PyStr s => s
  | PyFloat x => float_repr x
  | PyInt n => if (n <? 0)%Z then "-" ++ dec (- n) else dec n
  | PyBool b => if b then "True" else "False"
  | PyObj r _ => r
  end.

(** [(cnn_probs + nlp_pred_numeric) / 2.0] *)
Definition combine (cnn_probs : list F32.t) (nlp_pred_numeric : F64.t)
  : list F32.t :=
  map (fun p => F32.div (F32.add p (F64.to_f32 nlp_pred_numeric)) F32.two)
      cnn_probs.

(** The body of the inner [try]: lines 103-106. *)
Definition fusion_try (cnn_probs : list F32.t) (nlp_pred : PyVal)
  : Result string :=
  rbind (py_float nlp_pred) (fun nlp_pred_numeric =>
  let combined_pred := combine cnn_probs nlp_pred_numeric in
  rbind (np_argmax combined_pred) (fun final_idx =>
  list_getitem CLASS_LABELS final_idx)).

(** Step 9: [try: ... except (ValueError, TypeError): final_label =
    str(nlp_pred)].  Any other exception (an [OverflowError] of [float()],
    the [IndexError] of the label lookup) leaves the inner [try]. *)
Definition fusion (cnn_probs : list F32.t) (nlp_pred : PyVal)
  : Result string :=
  match fusion_try cnn_probs nlp_pred with
  | inr final_label => ok final_label
  | inl e =>
      match exc_kind e with
      | ValueError | TypeError => ok (py_str nlp_pred)
      | _ => inl e
      end
  end.
End PythonValues.

(* ------------------------------------------------------------------ *)
(** ** Arrays: images, tensors and masks *)

Definition Pixel (A : Type) : Type := (A * A * A)%type.

Definition pixel_map {A B} (f : A -> B) (p : Pixel A) : Pixel B :=
  let '(c0, c1, c2) := p in (f c0, f c1, f c2).

(** [uint8] array of shape (H, W, 3). *)
Definition Image : Type := list (list (Pixel byte)).
(** [float32] array of shape (H, W, 3). *)
Definition Tensor : Type := list (list (Pixel F32.t)).
(** [float32] array of shape (H, W): a segmentation output with its
    singleton channel axis dropped. *)
Definition Mask : Type := list (list F32.t).

Definition f32_of_byte (b : byte) : F32.t := F32.of_Z (Z.of_N (Byte.to_N b)).

(** [orig_img.astype(np.float32) / 255.0] *)
Definition normalize (orig_img : Image) : Tensor :=
  map (map (pixel_map (fun b => F32.div (f32_of_byte b) F32.c255))) orig_img.

(** [cv2.cvtColor(orig_img, cv2.COLOR_BGR2RGB)] *)
Definition bgr2rgb (orig_img : Image) : Image :=
  map (map (fun p : Pixel byte => let '(b, g, r) := p in (r, g, b))) orig_img.

(** [(mask_pred > 0.5).astype(np.float32)] *)
Definition binarize (mask_pred : Mask) : Mask :=
  map (map (fun m => if F32.gtb m F32.half then F32.one else F32.zero))
      mask_pred.

(** [np.repeat(mask_bin[:, :, np.newaxis], 3, axis=-1)] *)
Definition repeat3 (mask_bin : Mask) : Tensor :=
  map (map (fun m => (m, m, m))) mask_bin.

Definition mul_pixel (p q : Pixel F32.t) : Pixel F32.t :=
  let '(p0, p1, p2) := p in
  let '(q0, q1, q2) := q in
  (F32.mul p0 q0, F32.mul p1 q1, F32.mul p2 q2).

(** Elementwise combination of two lists of the same length. *)
Fixpoint zip_exact {A B C} (f : A -> B -> option C)
  (la : list A) (lb : list B) : option (list C) :=
  match la, lb with
  | [], [] => Some []
  | a :: la', b :: lb' =>
      match f a b, zip_exact f la' lb' with
      | Some c, Some lc => Some (c :: lc)
      | _, _ => None
      end
  | _, _ => None
  end.

Definition mul_tensor (x y : Tensor) : option Tensor :=
  zip_exact (zip_exact (fun p q => Some (mul_pixel p q))) x y.

Definition height {A} (a : list (list A)) : nat := List.length a.
Definition width {A} (a : list (list A)) : nat :=
  match a with
  | [] => O
  | row :: _ => List.length row
  end.

(** Lines 77-81.  [squeeze()] drops every axis of length one, so a mask
    with a single row or column loses an axis and the two-axis index
    [mask_bin[:, :, np.newaxis]] raises; a mask whose shape differs from
    the image's does not broadcast and the product raises.  The image is
    the resized one (224 x 224 from [cv2.resize]), whose axes are longer
    than one, so NumPy's stretching of an image axis of length one does
    not arise.  The two texts are the leading words of NumPy's messages,
    which go on with the shapes. *)
Definition masked_image (img_norm : Tensor) (mask_pred : Mask)
  : Result Tensor :=
  let mask_bin := binarize mask_pred in
  if (height mask_bin =? 1)%nat || (width mask_bin =? 1)%nat
  then raise IndexError "too many indices for array"
  else
    let mask_3ch := repeat3 mask_bin in
    match mul_tensor img_norm mask_3ch with
    | Some masked_img => ok masked_img
    | None => raise ValueError "operands could not be broadcast together"
    end.

(** [overlay[mask_bin > 0.5] = [255, 0, 0]] on a copy of the RGB image. *)
Definition overlay_row (img_row : list (Pixel byte)) (mask_row : list F32.t)
  : option (list (Pixel byte)) :=
  zip_exact (fun p m =>
               Some (if F32.gtb m F32.half then (xff, x00, x00) else p))
            img_row mask_row.

Definition make_overlay (orig_img_rgb : Image) (mask_bin : Mask)
  : Result Image :=
  match zip_exact overlay_row orig_img_rgb mask_bin with
  | Some overlay => ok overlay
  | None => raise IndexError "boolean index did not match indexed array"
  end.

(* ------------------------------------------------------------------ *)
(** ** Requests and responses *)

Inductive Method := POST | OPTIONS.

(** An uploaded file: a werkzeug [FileStorage]. *)
Record FileStorage := mkFile { filename : string; content : list byte }.

Record Request := mkRequest {
  method : Method;
  files : list (string * FileStorage);
  form : list (string * string)
}.

Fixpoint assoc {A} (k : string) (l : list (string * A)) : option A :=
  match l with
  | [] => None
  | (k', v) :: rest => if String.eqb k k' then Some v else assoc k rest
  end.

(** [request.form.get(k, "")] *)
Definition form_get (req : Request) (k : string) : string :=
  match assoc k (form req) with
  | Some v => v
  | None => ""
  end.

(** A reply as the view function builds it.  [body] is the JSON object
    as the association list of its members: a JSON object is unordered
    (Flask serialises the keys sorted), so the order of the list carries
    no meaning and the properties look keys up or compare key sets.
    [headers] holds what the view function itself sets; the headers a
    client receives also carry what Flask, the decorator and the hook
    add. *)
Record Response := mkResponse {
  status : nat;
  headers : list (string * string);
  body : list (string * string)
}.

Definition jsonify (fields : list (string * string)) (code : nat) : Response :=
  mkResponse code [("Content-Type", "application/json")] fields.

Definition json_get (k : string) (r : Response) : option string :=
  assoc k (body r).

Definition lower_ascii (c : ascii) : ascii :=
  let n := N_of_ascii c in
  if ((65 <=? n) && (n <=? 90))%N then ascii_of_N (n + 32) else c.

(** [s.lower()] on ASCII letters. *)
Fixpoint lower (s : string) : string :=
  match s with
  | "" => ""
  | String c rest => String (lower_ascii c) (lower rest)
  end.

(** Header names compare without regard to case. *)
Definition same_header (k1 k2 : string) : bool :=
  String.eqb (lower k1) (lower k2).

(** [response.headers[k] = v]: the first header of that name is replaced
    in place and later ones are dropped; a new name is appended. *)
Fixpoint replace_header (k v : string) (hs : list (string * string))
  : option (list (string * string)) :=
  match hs with
  | [] => None
  | (k', v') :: rest =>
      if same_header k' k
      then Some ((k, v) :: filter (fun kv => negb (same_header (fst kv) k)) rest)
      else match replace_header k v rest with
           | Some rest' => Some ((k', v') :: rest')
           | None => None
           end
  end.

Definition set_header (k v : string) (r : Response) : Response :=
  mkResponse (status r)
    (match replace_header k v (headers r) with
     | Some hs => hs
     | None => (headers r ++ [(k, v)])%list
     end)
    (body r).

Definition allowed_origin : string :=
  "https://skin-lesion-classifier.vercel.app".

(** The four form fields, as the single row of [input_df]. *)
Record Metadata := mkMetadata {
  dx_type : string;
  age : string;
  sex : string;
  localization : string
}.

(* ------------------------------------------------------------------ *)
(** ** The collaborators of the handler *)

(** Everything the handler calls and does not define: the werkzeug file
    store and the OpenCV reader over a file system of some type [FS], the
    OpenCV resizer, the three models loaded at start-up, Python's float
    parser and printer, matplotlib, and Flask's default reply to a
    pre-flight request.  Each is a fixed function: the models are
    deterministic. *)
Record Runtime := mkRuntime {
  FS : Type;
  (** [image_file.save(path)]: the file system after a call that
      returns, or the exception of a call that raises *)
  file_save : FS -> string -> list byte -> Result FS;
  (** the file system a raising [image_file.save(path)] leaves behind:
      werkzeug opens the destination for writing before it copies, so a
      failed save may have created or truncated the file *)
  file_save_failed : FS -> string -> list byte -> FS;
  (** [cv2.imread(path, cv2.IMREAD_COLOR)]; [None] as in Python *)
  cv2_imread : FS -> string -> option Image;
  (** [cv2.resize(img, (224, 224))]; the steps of the handler work on
      whatever shape comes back *)
  cv2_resize : Image -> Image;
  (** [segmentation_model.predict(img_batch)[0]] for a batch of one *)
  segmentation_model : Tensor -> Result Mask;
  (** [classification_model.predict(batch)[0]] for a batch of one *)
  classification_model : Tensor -> Result (list F32.t);
  (** [nlp_model.predict(input_df)] *)
  nlp_model : Metadata -> Result (list PyVal);
  float_of_str : string -> option F64.t;
  float_repr : F64.t -> string;
  (** steps 10 and 11: the 2x2 figure of the masked image, the RGB image,
      the overlay and the RGB image again, saved as PNG and base64-encoded *)
  render_plot : Tensor -> Image -> Image -> Result string;
  (** [app.make_default_options_response()] *)
  default_options_response : Response
}.

(** Which collaborator was invoked, in order. *)
Inductive Call :=
| CallSave (path : string)
| CallImread (path : string)
| CallSegmentation
| CallClassification
| CallNlp
| CallRender.

Definition is_model_call (c : Call) : bool :=
  match c with
  | CallSegmentation | CallClassification | CallNlp => true
  | _ => false
  end.

Section Handler.
Variable rt : Runtime.

(** The state a request runs against: the upload directory (and the rest
    of the file system) and the log of collaborator calls. *)
Record World := mkWorld { fs : FS rt; calls : list Call }.

(** State and exceptions: a computation either returns or raises, and
    leaves a world behind in both cases. *)
Definition M (A : Type) : Type := World -> Result A * World.

Definition ret {A} (a : A) : M A := fun w => (inr a, w).
Definition throw {A} (k : ExcKind) (msg : string) : M A :=
  fun w => (inl (mkExc k msg), w).
Definition bind {A B} (c : M A) (f : A -> M B) : M B :=
  fun w =>
    match c w with
    | (inl e, w') => (inl e, w')
    | (inr a, w') => f a w'
    end.
Definition lift {A} (r : Result A) : M A := fun w => (r, w).
Definition log (c : Call) (w : World) : World :=
  mkWorld (fs w) (calls w ++ [c])%list.
(** Call of a collaborator that does not touch the file system. *)
Definition call {A} (c : Call) (r : Result A) : M A :=
  fun w => (r, log c w).

Notation "x <- c ;; k" := (bind c (fun x => k))
  (at level 61, c at next level, right associativity).

Definition save (path : string) (data : list byte) : M unit :=
  fun w =>
    match file_save rt (fs w) path data with
    | inl e =>
        (inl e,
         mkWorld (file_save_failed rt (fs w) path data)
                 (calls w ++ [CallSave path])%list)
    | inr fs' => (inr tt, mkWorld fs' (calls w ++ [CallSave path])%list)
    end.

Definition imread (path : string) : M (option Image) :=
  fun w => (inr (cv2_imread rt (fs w) path), log (CallImread path) w).

(** NumPy indexing of a one-dimensional array. *)
Definition ndarray_getitem {A} (a : list A) (i : nat) : Result A :=
  match nth_error a i with
  | Some x => ok x
  | None =>
      raise IndexError
        ("index " ++ dec (Z.of_nat i)
           ++ " is out of bounds for axis 0 with size "
           ++ dec (Z.of_nat (List.length a)))
  end.

(** Line 86 *)
Definition top_class_label_of (top_idx : nat) : Result string :=
  if (top_idx <? List.length CLASS_LABELS)%nat
  then list_getitem CLASS_LABELS top_idx
  else ok "Unknown".

Fixpoint sequence {A} (l : list (Result A)) : Result (list A) :=
  match l with
  | [] => ok []
  | r :: rest =>
      rbind r (fun a => rbind (sequence rest) (fun la => ok (a :: la)))
  end.

(** Lines 88-90 *)
Definition all_class_probs (cnn_probs : list F32.t) : Result string :=
  rbind
    (sequence
       (map (fun i =>
               rbind (list_getitem CLASS_LABELS i) (fun label =>
               rbind (ndarray_getitem cnn_probs i) (fun p =>
               ok (label ++ ": " ++ format_f 4 p))))
            (seq 0 (List.length CLASS_LABELS))))
    (fun entries => ok (String.concat ", " entries)).

Definition final_output_prefix : string :=
  "This disease is most probably classified as: ".

(** Lines 70-152: from the decoded image to the success reply. *)
Definition pipeline (input_row : Metadata) (decoded : Image) : M Response :=
  let orig_img := cv2_resize rt decoded in
  let orig_img_rgb := bgr2rgb orig_img in
  let img_norm := normalize orig_img in
  (* 5) Perform segmentation using the U-Net model *)
  mask_pred <- call CallSegmentation (segmentation_model rt img_norm) ;;
  (* 6) Create a masked image for CNN classification *)
  masked_img <- lift (masked_image img_norm mask_pred) ;;
  (* 7) CNN classification on the masked image *)
  cnn_probs <- call CallClassification (classification_model rt masked_img) ;;
  top_idx <- lift (np_argmax cnn_probs) ;;
  top_class_label <- lift (top_class_label_of top_idx) ;;
  top_class_conf <- lift (ndarray_getitem cnn_probs top_idx) ;;
  all_class_probs_str <- lift (all_class_probs cnn_probs) ;;
  (* 8) NLP prediction using the additional metadata *)
  preds <- call CallNlp (nlp_model rt input_row) ;;
  nlp_pred <- lift (ndarray_getitem preds 0) ;;
  (* 9) Combine predictions if possible *)
  final_label <-
    lift (fusion (float_of_str rt) (float_repr rt) cnn_probs nlp_pred) ;;
  (* 10), 11) Figure, encoded as a base64 string *)
  overlay <- lift (make_overlay orig_img_rgb (binarize mask_pred)) ;;
  plot_image_base64 <-
    call CallRender (render_plot rt masked_img orig_img_rgb overlay) ;;
  (* 12) Prepare textual outputs *)
  let cnn_output :=
    "Predicted Class: " ++ top_class_label ++ " (Confidence: "
      ++ format_f 2 top_class_conf ++ ")" in
  let nlp_output := "NLP Prediction: " ++ py_str (float_repr rt) nlp_pred in
  let segmentation_output := "U-Net Segmentation Applied" in
  let final_output := final_output_prefix ++ final_label in
  ret (jsonify
         [("plot_image", "data:image/png;base64," ++ plot_image_base64);
          ("cnn_output", cnn_output);
          ("all_class_probabilities", all_class_probs_str);
          ("nlp_output", nlp_output);
          ("segmentation_output", segmentation_output);
          ("final_output", final_output)]
         200).

(** The body of the outer [try], lines 51-152. *)
Definition predict_try (req : Request) : M Response :=
  (* 1) Ensure an image file was provided *)
  match assoc "image" (files req) with
  | None => ret (jsonify [("error", "No image provided")] 400)
  | Some image_file =>
      (* 2) Save the uploaded image *)
      let image_path := os_path_join UPLOAD_FOLDER (filename image_file) in
      _ <- save image_path (content image_file) ;;
      (* 3) Retrieve additional metadata from the request *)
      let input_row :=
        mkMetadata (form_get req "dx_type") (form_get req "age")
                   (form_get req "sex") (form_get req "localization") in
      (* 4) Load and preprocess the image *)
      read <- imread image_path ;;
      match read with
      | None =>
          throw ValueError ("Could not read image from path: " ++ image_path)
      | Some decoded => pipeline input_row decoded
      end
  end.

(** The view function [predict] of lines 41-155: the pre-flight branch,
    then the [try] with its [except Exception as e] boundary.  This is
    the function as line 41 defines it, before the [@cross_origin]
    decorator of line 40 wraps it and before the [after_request] hook
    runs.  Both only touch the headers of a reply, and under routing
    flask-cors answers a pre-flight request itself, without calling the
    function: the properties below are about POST requests and speak of
    the status and of the JSON body, never of the headers a client
    receives. *)
Definition predict (req : Request) (w : World) : Response * World :=
  match method req with
  | OPTIONS =>
      let response := default_options_response rt in
      let response :=
        set_header "Access-Control-Allow-Origin" allowed_origin response in
      let response :=
        set_header "Access-Control-Allow-Headers"
                   "Content-Type,Authorization" response in
      let response :=
        set_header "Access-Control-Allow-Methods"
                   "GET,POST,PUT,DELETE,OPTIONS" response in
      (response, w)
  | POST =>
      match predict_try req w with
      | (inr response, w') => (response, w')
      | (inl e, w') => (jsonify [("error", exc_str e)] 500, w')
      end
  end.

(** [@app.after_request], lines 32-37: [headers.add] appends. *)
Definition add_cors_headers (response : Response) : Response :=
  mkResponse (status response)
    (headers response
       ++ [("Access-Control-Allow-Origin", allowed_origin);
           ("Access-Control-Allow-Headers", "Content-Type,Authorization");
           ("Access-Control-Allow-Methods", "GET,POST,PUT,DELETE,OPTIONS")])%list
    (body response).
End Handler.

(* ------------------------------------------------------------------ *)
(** ** Runs of the success path *)

Section Runs.
Variable rt : Runtime.

(** What the collaborators returned during one request. *)
Record Run := mkRun {
  run_file : FileStorage;   (** [request.files["image"]] *)
  run_fs : FS rt;           (** the file system after the upload is stored *)
  run_decoded : Image;      (** what [cv2.imread] returned *)
  run_mask : Mask;          (** [mask_pred] *)
  run_masked : Tensor;      (** [masked_img] *)
  run_probs : list F32.t;   (** [cnn_probs] *)
  run_preds : list PyVal;   (** [nlp_model.predict(input_df)] *)
  run_pred : PyVal;         (** [nlp_pred] *)
  run_overlay : Image;      (** [overlay] *)
  run_png : string          (** [plot_image_base64] *)
}.

Definition run_path (r : Run) : string :=
  os_path_join UPLOAD_FOLDER (filename (run_file r)).

Definition run_orig (r : Run) : Image := cv2_resize rt (run_decoded r).

Definition input_row (req : Request) : Metadata :=
  mkMetadata (form_get req "dx_type") (form_get req "age")
             (form_get req "sex") (form_get req "localization").

(** The request is a POST with an image and every collaborator returned:
    the upload was stored and decoded, the three models answered, the
    mask has the shape of the image, and the figure was rendered. *)
Definition run_returns (req : Request) (w : World rt) (r : Run) : Prop :=
  method req = POST /\
  assoc "image" (files req) = Some (run_file r) /\
  file_save rt (fs rt w) (run_path r) (content (run_file r))
    = inr (run_fs r) /\
  cv2_imread rt (run_fs r) (run_path r) = Some (run_decoded r) /\
  segmentation_model rt (normalize (run_orig r)) = inr (run_mask r) /\
  masked_image (normalize (run_orig r)) (run_mask r) = inr (run_masked r) /\
  classification_model rt (run_masked r) = inr (run_probs r) /\
  nlp_model rt (input_row req) = inr (run_preds r) /\
  nth_error (run_preds r) 0 = Some (run_pred r) /\
  make_overlay (bgr2rgb (run_orig r)) (binarize (run_mask r))
    = inr (run_overlay r) /\
  render_plot rt (run_masked r) (bgr2rgb (run_orig r)) (run_overlay r)
    = inr (run_png r).

(** Line 103 on the prediction returned a number, or raised one of the
    two exceptions line 107 names.  Any other exception of [float()] (the
    [OverflowError] of an integer beyond the float range, what the
    [__float__] of an object raises) passes the inner [except] and ends
    the request in the 500 reply. *)
Definition coercion_caught (nlp_pred : PyVal) : Prop :=
  forall e,
    py_float (float_of_str rt) nlp_pred = inl e ->
    exc_kind e = ValueError \/ exc_kind e = TypeError.

(** What a request needs to reach the reply of line 145 when the
    probability vector has length 7: every collaborator returned and
    [float(nlp_pred)] raised nothing that passes the inner [except]. *)
Definition run_ok (req : Request) (w : World rt) (r : Run) : Prop :=
  run_returns req w r /\ coercion_caught (run_pred r).

(** The reply of a run: lines 85-90, 102-108 and 140-152 on what the
    collaborators returned. *)
Definition reply (r : Run) : Result Response :=
  let cnn_probs := run_probs r in
  let nlp_pred := run_pred r in
  rbind (np_argmax cnn_probs) (fun top_idx =>
  rbind (top_class_label_of top_idx) (fun top_class_label =>
  rbind (ndarray_getitem cnn_probs top_idx) (fun top_class_conf =>
  rbind (all_class_probs cnn_probs) (fun all_class_probs_str =>
  rbind (fusion (float_of_str rt) (float_repr rt) cnn_probs nlp_pred)
        (fun final_label =>
  ok (jsonify
        [("plot_image", "data:image/png;base64," ++ run_png r);
         ("cnn_output",
          "Predicted Class: " ++ top_class_label ++ " (Confidence: "
            ++ format_f 2 top_class_conf ++ ")");
         ("all_class_probabilities", all_class_probs_str);
         ("nlp_output", "NLP Prediction: " ++ py_str (float_repr rt) nlp_pred);
         ("segmentation_output", "U-Net Segmentation Applied");
         ("final_output", final_output_prefix ++ final_label)]
        200)))))).

(** The file system keeps what was stored: reading back a path that was
    just written decodes the bytes written. *)
Definition read_after_write (imdecode : list byte -> option Image) : Prop :=
  forall fs0 path data fs1,
    file_save rt fs0 path data = inr fs1 ->
    cv2_imread rt fs1 path = imdecode data.
End Runs.

Arguments run_file {rt}.
Arguments run_fs {rt}.
Arguments run_decoded {rt}.
Arguments run_mask {rt}.
Arguments run_masked {rt}.
Arguments run_probs {rt}.
Arguments run_preds {rt}.
Arguments run_pred {rt}.
Arguments run_overlay {rt}.
Arguments run_png {rt}.
Arguments reply {rt}.
Arguments fs {rt}.
Arguments calls {rt}.

(* ------------------------------------------------------------------ *)
(** ** Vocabulary of the properties *)

(** [k] is the position NumPy documents for [argmax]: the first NaN when
    there is one, otherwise the first position of the largest element. *)
Definition first_max (v : list F32.t) (k : nat) : Prop :=
  exists x,
    nth_error v k = Some x /\
    (forall j y, nth_error v j = Some y -> (j < k)%nat -> F32.is_nan y = false) /\
    (F32.is_nan x = false ->
     (forall j y, nth_error v j = Some y -> F32.leb y x = true) /\
     (forall j y, nth_error v j = Some y -> (j < k)%nat -> F32.ltb y x = true)).

Definition is_digit (c : ascii) : bool :=
  let n := N_of_ascii c in ((48 <=? n) && (n <=? 57))%N.

Fixpoint all_digits (s : string) : bool :=
  match s with
  | "" => true
  | String c rest => is_digit c && all_digits rest
  end.

(** A numeral with exactly [d] decimal places: an optional minus sign,
    at least one digit, a point, [d] digits. *)
Definition fixed_point (d : nat) (s : string) : Prop :=
  exists sgn ip fp,
    s = sgn ++ ip ++ "." ++ fp /\
    (sgn = "" \/ sgn = "-") /\
    ip <> "" /\ all_digits ip = true /\
    all_digits fp = true /\ String.length fp = d.

Definition channel {A} (p : Pixel A) (c : nat) : option A :=
  match p, c with
  | (c0, _, _), 0%nat => Some c0
  | (_, c1, _), 1%nat => Some c1
  | (_, _, c2), 2%nat => Some c2
  | _, _ => None
  end.

(** [t[i, j, c]] *)
Definition tensor_at {A} (t : list (list (Pixel A))) (i j c : nat) : option A :=
  match nth_error t i with
  | Some row =>
      match nth_error row j with
      | Some p => channel p c
      | None => None
      end
  | None => None
  end.

(** [m[i, j]] *)
Definition mask_at (m : Mask) (i j : nat) : option F32.t :=
  match nth_error m i with
  | Some row => nth_error row j
  | None => None
  end.

(** Two arrays with the same number of rows and the same row lengths. *)
Definition same_shape {A B} (x : list (list A)) (y : list (list B)) : Prop :=
  Forall2 (fun rx ry => List.length rx = List.length ry) x y.

(* ------------------------------------------------------------------ *)
(** ** Stub collaborators

    The end-to-end scenario of the specification: a segmentation model
    that answers an all-ones mask, a classifier that answers
    [0.1, 0.6, 0.05, 0.05, 0.05, 0.1, 0.05], and a metadata model that
    answers a given prediction. *)

Module Stub.
Definition q (a b : Z) : F32.t := F32.div (F32.of_Z a) (F32.of_Z b).

Definition probs : list F32.t :=
  [q 1 10; q 6 10; q 5 100; q 5 100; q 5 100; q 1 10; q 5 100].

(** The Python float [0.2]. *)
Definition f64_0_2 : F64.t := SFdiv F64.prec F64.emax (F64.of_Z 2) (F64.of_Z 10).

(** A file system as the list of the files written, newest first; a
    save that fails leaves an empty file. *)
Definition files_written : Type := list (string * list byte).

(** A decoder for headerless files: three bytes are one BGR pixel. *)
Definition imdecode (data : list byte) : option Image :=
  match data with
  | b :: g :: r :: _ => Some [[(b, g, r)]]
  | _ => None
  end.

Definition first_pixel (img : Image) : Pixel byte :=
  match img with
  | (p :: _) :: _ => p
  | _ => (x00, x00, x00)
  end.

(** Resizes to a 4 x 4 grid of the top-left pixel. *)
Definition resize (img : Image) : Image :=
  repeat (repeat (first_pixel img) 4) 4.

Definition float_of_str (s : string) : option F64.t :=
  if String.eqb s "nan" then Some S754_nan
  else if String.eqb s "inf" then Some (S754_infinity false)
  else None.

Definition runtime (pred : PyVal) : Runtime :=
  mkRuntime files_written
    (fun fs0 path data => ok ((path, data) :: fs0))
    (fun fs0 path _ => (path, []) :: fs0)
    (fun fs0 path =>
       match assoc path fs0 with
       | Some data => imdecode data
       | None => None
       end)
    resize
    (fun img_norm => ok (map (map (fun _ => F32.one)) img_norm))
    (fun _ => ok probs)
    (fun _ => ok [pred])
    float_of_str
    (fun x => format_f 1 x)
    (fun _ _ _ => ok "iVBORw0KGgo=")
    (mkResponse 200 [("Allow", "OPTIONS, POST")] []).

Definition request : Request :=
  mkRequest POST
    [("image", mkFile "lesion.png" [x10; x80; xff])]
    [("dx_type", "histo"); ("age", "45"); ("sex", "male");
     ("localization", "back")].

Definition world (pred : PyVal) : World (runtime pred) :=
  mkWorld (runtime pred) [] [].

Definition orig : Image := resize [[(x10, x80, xff)]].
Definition mask : Mask := repeat (repeat F32.one 4) 4.

Definition run (pred : PyVal) : Run (runtime pred) :=
  mkRun (runtime pred)
    (mkFile "lesion.png" [x10; x80; xff])
    [("uploads/lesion.png", [x10; x80; xff])]
    [[(x10, x80, xff)]]
    mask
    (normalize orig)
    probs
    [pred]
    pred
    (repeat (repeat (xff, x00, x00) 4) 4)
    "iVBORw0KGgo=".
End Stub.

(* ------------------------------------------------------------------ *)
(** ** Vocabulary of the further properties *)

(** The keys of the success reply, lines 145-152. *)
Definition success_keys : list string :=
  ["plot_image"; "cnn_output"; "all_class_probabilities"; "nlp_output";
   "segmentation_output"; "final_output"].

(** The collaborator calls of a request that runs to the end. *)
Definition full_trace (image_path : string) : list Call :=
  [CallSave image_path; CallImread image_path; CallSegmentation;
   CallClassification; CallNlp; CallRender].

(** [0 <= x <= 1] *)
Definition in_unit_interval (x : F32.t) : bool :=
  F32.leb F32.zero x && F32.leb x F32.one.

(** [a[i, j]] *)
Definition pixel_at {A} (a : list (list A)) (i j : nat) : option A :=
  match nth_error a i with
  | Some row => nth_error row j
  | None => None
  end.

(** A prediction that is NaN or infinite as a Python float. *)
Definition not_finite_f64 (x : F64.t) : bool :=
  match x with
  | S754_nan | S754_infinity _ => true
  | _ => false
  end.

(** A numeral between 0.0000 and 1.0000 with four decimal places. *)
Definition unit_numeral (s : string) : Prop :=
  s = "1.0000" \/
  exists fp,
    all_digits fp = true /\ String.length fp = 4%nat /\
    (s = "0." ++ fp \/ (s = "-0." ++ fp /\ fp = "0000")).

(** Stub collaborators whose upload store and models are given. *)
Module Scenario.
Definition runtime (save_error : option Exc)
  (seg : Tensor -> Result Mask)
  (cls : Tensor -> Result (list F32.t))
  (nlp : Metadata -> Result (list PyVal)) : Runtime :=
  mkRuntime Stub.files_written
    (fun fs0 path data =>
       match save_error with
       | Some e => inl e
       | None => ok ((path, data) :: fs0)
       end)
    (fun fs0 path _ => (path, []) :: fs0)
    (fun fs0 path =>
       match assoc path fs0 with
       | Some data => Stub.imdecode data
       | None => None
       end)
    Stub.resize
    seg cls nlp
    Stub.float_of_str
    (fun x => format_f 1 x)
    (fun _ _ _ => ok "iVBORw0KGgo=")
    (mkResponse 200 [("Allow", "OPTIONS, POST")] []).

Definition all_ones (img_norm : Tensor) : Result Mask :=
  ok (map (map (fun _ => F32.one)) img_norm).

Definition world save_error seg cls nlp
  : World (runtime save_error seg cls nlp) :=
  mkWorld (runtime save_error seg cls nlp) [] [].

Definition image_file : FileStorage := mkFile "lesion.png" [x10; x80; xff].

(** An eight-class output whose largest entry is the eighth. *)
Definition probs8 : list F32.t := (Stub.probs ++ [Stub.q 9 10])%list.

(** The run of [Stub.request] against an all-ones mask, a classifier
    that answers [cnn_probs] and a metadata model that answers [pred]. *)
Definition run (cnn_probs : list F32.t) (pred : PyVal)
  : Run (runtime None all_ones (fun _ => ok cnn_probs) (fun _ => ok [pred])) :=
  mkRun (runtime None all_ones (fun _ => ok cnn_probs) (fun _ => ok [pred]))
    image_file
    [("uploads/lesion.png", [x10; x80; xff])]
    [[(x10, x80, xff)]]
    Stub.mask
    (normalize Stub.orig)
    cnn_probs
    [pred]
    pred
    (repeat (repeat (xff, x00, x00) 4) 4)
    "iVBORw0KGgo=".
End Scenario.

(* ------------------------------------------------------------------ *)
(** ** Vocabulary of the printed numerals *)

(** The number a string of decimal digits denotes, read left to right. *)
Fixpoint digits_value_from (acc : Z) (s : string) : Z :=
  match s with
  | "" => acc
  | String c rest =>
      digits_value_from (10 * acc + (Z.of_N (N_of_ascii c) - 48))%Z rest
  end.

Definition digits_value (s : string) : Z := digits_value_from 0%Z s.

(** [q] is the integer nearest to [num / den], the even one of the two
    when [num / den] lies halfway between them. *)
Definition is_rounding (num den q : Z) : Prop :=
  (2 * Z.abs (num - q * den) <= den)%Z /\
  ((2 * Z.abs (num - q * den))%Z = den -> Z.even q = true).

(** A decimal integer part as Python prints it: no leading zero, but for
    a lone "0". *)
Definition plain_integer (ip : string) : Prop :=
  all_digits ip = true /\
  (ip = "0" \/ exists c rest, ip = String c rest /\ c <> "0"%char).

(** [v] is the numeral Python's ['.<d>f'] documents for the finite float
    [x]: a minus sign when the sign bit of [x] is set, then the decimal
    digits of the integer nearest to [|x| * 10^d] (ties to even), with
    the point before the last [d] of them. *)
Definition prints_rounded (d : nat) (x : spec_float) (v : string) : Prop :=
  exists ip fp,
    plain_integer ip /\ all_digits fp = true /\ String.length fp = d /\
    match x with
    | S754_zero s =>
        v = (if s then "-" else "") ++ ip ++ "." ++ fp /\
        digits_value (ip ++ fp) = 0%Z
    | S754_finite s m e =>
        v = (if s then "-" else "") ++ ip ++ "." ++ fp /\
        is_rounding (Z.pos m * 10 ^ Z.of_nat d * 2 ^ Z.max e 0)%Z
                    (2 ^ Z.max (- e) 0)%Z
                    (digits_value (ip ++ fp))
    | _ => False
    end.

(** The JSON object [fields] has exactly the keys [ks], each once. *)
Definition has_keys (fields : list (string * string)) (ks : list string)
  : Prop :=
  NoDup (map fst fields) /\ forall k, In k (map fst fields) <-> In k ks.

(* ------------------------------------------------------------------ *)
(** ** Vocabulary of the float32 rounding

    The float32 values are laid out on the integers: a finite value
    [m * 2^e] (with [e >= -149]) sits at [m * 2^(e + 150)], so that the
    half of the smallest subnormal is 1, and the infinities sit at
    [2^278], just above the largest finite value. *)

Section RoundingVocabulary.
Local Open Scope Z_scope.

(** The float32 average of line 104: [(p + n) / 2.0]. *)
Definition average (n p : F32.t) : F32.t := F32.div (F32.add p n) F32.two.

Definition LIM : Z := 2 ^ 278.

Definition sgn (s : bool) : Z := if s then -1 else 1.

Definition mag (m : positive) (e : Z) : Z := Z.pos m * 2 ^ (e + 150).

Definition ord (x : spec_float) : Z :=
  match x with
  | S754_zero _ => 0
  | S754_infinity s => sgn s * LIM
  | S754_nan => 0
  | S754_finite s m e => sgn s * mag m e
  end.

(** [R] is [V] rounded to 24 significant bits, to nearest-even, on the
    grid of the even integers (the float32 values). *)
Definition rnd (V R : Z) : Prop :=
  exists s q,
    1 <= s /\ V < 2 ^ (24 + s) /\ (s = 1 \/ 2 ^ (23 + s) <= V) /\
    is_rounding V (2 ^ s) q /\ R = q * 2 ^ s.

(** Rounding of a signed value, with overflow to the infinities. *)
Definition srnd (V R : Z) : Prop :=
  exists R0, rnd (Z.abs V) R0 /\ R = Z.sgn V * Z.min R0 LIM.

(** The record of a right shift by [k] bits of the number [V], where
    [P = 2^k]: the bits kept, the last bit dropped, and whether a lower
    bit dropped was set. *)
Definition shr_inv (V P : Z) (mrs : shr_record) : Prop :=
  exists t, 0 <= t < P /\
    V = shr_m mrs * (2 * P) + (if shr_r mrs then P else 0) + t /\
    shr_s mrs = negb (t =? 0) /\ 0 <= shr_m mrs.

(** A location that is exact or exactly halfway. *)
Definition loc_of_half (c : bool) : location :=
  if c then loc_Inexact Eq else loc_Exact.

Definition half_bit (c : bool) : Z := if c then 1 else 0.

(** The last step of [binary_round_aux]: the rounded mantissa [q] at the
    exponent [e'] is renormalised and packed. *)
Definition finish (sx : bool) (q e' : Z) : spec_float :=
  let '(mrs'', e'') := shr_fexp F32.prec F32.emax q e' loc_Exact in
  match shr_m mrs'' with
  | Z0 => S754_zero sx
  | Zpos m =>
      if Z.leb e'' (F32.emax - F32.prec)
      then S754_finite sx m e'' else S754_infinity sx
  | _ => S754_nan
  end.
End RoundingVocabulary.

(* ================================================================== *)
(** * Properties *)

(** ** The order of float32 values *)

Ltac cmp_cases :=
  repeat match goal with
    | s : bool |- _ => destruct s
    | |- context [Z.compare ?a ?b] => destruct (Z.compare_spec a b)
    | H : context [Z.compare ?a ?b] |- _ => destruct (Z.compare_spec a b)
    | |- context [Pos.compare_cont Eq ?a ?b] =>
        change (Pos.compare_cont Eq a b) with (Pos.compare a b);
        destruct (Pos.compare_spec a b)
    | H : context [Pos.compare_cont Eq ?a ?b] |- _ =>
        change (Pos.compare_cont Eq a b) with (Pos.compare a b) in H;
        destruct (Pos.compare_spec a b)
    end;
  simpl in *; try congruence; try lia.

(** One step of a computation that is known to return: the step returned
    too. *)
Ltac raise_or_return H :=
  cbv beta iota in H;
  match type of H with
  | context [match ?x with inl _ => _ | inr _ => _ end] =>
      let E := fresh "E" in
      destruct x eqn:E; [cbv beta iota in H; discriminate H|]
  end.

Ltac unfold_cmp :=
  unfold F32.leb, F32.ltb, F32.gtb, SFleb, SFltb, SFcompare in *.

Lemma leb_not_nan x y : F32.leb x y = true -> F32.is_nan x = false.
Proof. destruct x; simpl; auto; discriminate. Qed.

Lemma leb_refl x : F32.is_nan x = false -> F32.leb x x = true.
Proof. unfold_cmp. destruct x; simpl; intros; try discriminate; cmp_cases. Qed.

Lemma leb_false_ltb x y :
  F32.is_nan x = false -> F32.is_nan y = false ->
  F32.leb x y = false -> F32.ltb y x = true.
Proof.
  unfold_cmp. destruct x, y; simpl; intros; try discriminate; cmp_cases.
Qed.

Lemma ltb_leb x y : F32.ltb x y = true -> F32.leb x y = true.
Proof.
  unfold F32.ltb, F32.leb, SFltb, SFleb.
  destruct (SFcompare x y) as [[ | | ]|]; intros; congruence.
Qed.

Lemma leb_ltb_trans x y z :
  F32.leb x y = true -> F32.ltb y z = true -> F32.ltb x z = true.
Proof.
  unfold_cmp. destruct x, y, z; simpl; intros; try discriminate; cmp_cases.
Qed.

(** ** [np.argmax] *)

Lemma argmax_scan_bound l :
  forall mp max_ind i,
    (max_ind < i)%nat ->
    (argmax_scan mp max_ind i l < i + List.length l)%nat.
Proof.
  induction l as [|x rest IH]; intros mp max_ind i Hlt; simpl.
  - lia.
  - destruct (negb (F32.leb x mp)).
    + destruct (F32.is_nan x).
      * lia.
      * specialize (IH x i (S i)). lia.
    + specialize (IH mp max_ind (S i)). lia.
Qed.

Lemma np_argmax_lt v k : np_argmax v = inr k -> (k < List.length v)%nat.
Proof.
  destruct v as [|mp rest]; simpl; [discriminate|].
  destruct (F32.is_nan mp); intros H; injection H as <-.
  - lia.
  - pose proof (argmax_scan_bound rest mp 0 1). lia.
Qed.

Lemma np_argmax_total v :
  v <> [] -> exists k, np_argmax v = inr k.
Proof.
  destruct v as [|mp rest]; [congruence|]. intros _. simpl.
  destruct (F32.is_nan mp); eexists; reflexivity.
Qed.

(** The scan keeps its invariant: [mp] sits at [max_ind] in the part
    already scanned, nothing scanned is NaN or above [mp], and everything
    before [max_ind] is strictly below. *)
Lemma argmax_scan_first_max l :
  forall pre mp max_ind,
    F32.is_nan mp = false ->
    nth_error pre max_ind = Some mp ->
    (forall j y, nth_error pre j = Some y ->
                 F32.is_nan y = false /\ F32.leb y mp = true) ->
    (forall j y, nth_error pre j = Some y -> (j < max_ind)%nat ->
                 F32.ltb y mp = true) ->
    first_max (pre ++ l)%list (argmax_scan mp max_ind (List.length pre) l).
Proof.
  induction l as [|x rest IH]; intros pre mp max_ind Hmp Hat Hle Hlt; simpl.
  - rewrite app_nil_r. exists mp. repeat split; auto.
    + intros j y Hy _. apply (Hle j y Hy).
    + intros j y Hy. apply (Hle j y Hy).
  - assert (Hin : (max_ind < List.length pre)%nat)
      by (apply nth_error_Some; congruence).
    destruct (F32.leb x mp) eqn:Hx; simpl.
    + (* the maximum stays *)
      replace (pre ++ x :: rest)%list with ((pre ++ [x]) ++ rest)%list
        by (rewrite <- app_assoc; reflexivity).
      replace (S (List.length pre)) with (List.length (pre ++ [x])%list)
        by (rewrite length_app; simpl; lia).
      apply IH; auto.
      * rewrite nth_error_app1; auto.
      * intros j y Hy.
        destruct (Nat.lt_ge_cases j (List.length pre)) as [Hj|Hj].
        -- rewrite nth_error_app1 in Hy by auto. eauto.
        -- rewrite nth_error_app2 in Hy by auto.
           destruct (j - List.length pre)%nat as [|n]; simpl in Hy.
           ++ injection Hy as <-. split; auto. eapply leb_not_nan; eauto.
           ++ destruct n; discriminate.
      * intros j y Hy Hj. rewrite nth_error_app1 in Hy by lia. eauto.
    + destruct (F32.is_nan x) eqn:Hnan.
      * (* the scan stops at a NaN *)
        exists x. repeat split.
        -- rewrite nth_error_app2 by lia. rewrite Nat.sub_diag. reflexivity.
        -- intros j y Hy Hj. rewrite nth_error_app1 in Hy by auto.
           apply (Hle j y Hy).
        -- congruence.
        -- congruence.
      * (* a new maximum *)
        assert (Hgt : F32.ltb mp x = true) by (apply leb_false_ltb; auto).
        replace (pre ++ x :: rest)%list with ((pre ++ [x]) ++ rest)%list
          by (rewrite <- app_assoc; reflexivity).
        replace (S (List.length pre)) with (List.length (pre ++ [x])%list)
          by (rewrite length_app; simpl; lia).
        apply IH; auto.
        -- rewrite nth_error_app2 by lia. rewrite Nat.sub_diag. reflexivity.
        -- intros j y Hy.
           destruct (Nat.lt_ge_cases j (List.length pre)) as [Hj|Hj].
           ++ rewrite nth_error_app1 in Hy by auto.
              destruct (Hle j y Hy) as [Hn Hl]. split; auto.
              apply ltb_leb. eapply leb_ltb_trans; eauto.
           ++ rewrite nth_error_app2 in Hy by auto.
              destruct (j - List.length pre)%nat as [|n]; simpl in Hy.
              ** injection Hy as <-. split; auto. apply leb_refl; auto.
              ** destruct n; discriminate.
        -- intros j y Hy Hj. rewrite nth_error_app1 in Hy by auto.
           destruct (Hle j y Hy) as [Hn Hl].
           eapply leb_ltb_trans; eauto.
Qed.

(** [np.argmax] returns the first NaN, or else the first maximum. *)
Lemma np_argmax_first_max v k : np_argmax v = inr k -> first_max v k.
Proof.
  destruct v as [|mp rest]; simpl; [discriminate|].
  destruct (F32.is_nan mp) eqn:Hnan; intros H; injection H as <-.
  - exists mp. repeat split; try congruence. intros; lia.
  - apply (argmax_scan_first_max rest [mp] mp 0); auto.
    + intros [|[|j]] y Hy; simpl in Hy; try discriminate.
      injection Hy as <-. split; auto. apply leb_refl; auto.
    + intros; lia.
Qed.

(** ** Rounding to float32 is monotone

    The fusion step adds one number to every probability and halves the
    sums, in float32.  Both operations round the exact result to the
    nearest float32 (ties to even), and this rounding keeps [<=].  The
    proof follows the operations of the IEEE-754 specification: the
    right shift with its round and sticky bits, the choice of the
    exponent, the renormalisation after a carry, and the overflow to
    infinity. *)

Section RoundingFacts.
Local Open Scope Z_scope.

(** *** Nearest integers *)

Lemma is_rounding_mono a a' d q q' :
  0 < d -> is_rounding a d q -> is_rounding a' d q' -> a <= a' -> q <= q'.
Proof.
  intros Hd [H1 E1] [H2 E2] Hle.
  destruct (Z_lt_le_dec q' q) as [Hlt|]; [|assumption].
  exfalso.
  assert (Hx : q' * d + d <= q * d) by nia.
  assert (Ha : 2 * (a - q * d) = - d) by lia.
  assert (Ha' : 2 * (a' - q' * d) = d) by lia.
  assert (Hq : q = q' + 1) by nia.
  specialize (E1 ltac:(lia)). specialize (E2 ltac:(lia)).
  subst q. rewrite Z.even_add in E1. rewrite E2 in E1. discriminate E1.
Qed.

Lemma is_rounding_exact k d : 0 < d -> is_rounding (k * d) d k.
Proof.
  intros Hd. unfold is_rounding. replace (k * d - k * d) with 0 by lia.
  simpl. split; lia.
Qed.

Lemma is_rounding_upper a d q k :
  0 < d -> is_rounding a d q -> a <= k * d -> q <= k.
Proof.
  intros Hd H Hle.
  exact (is_rounding_mono a (k * d) d q k Hd H (is_rounding_exact k d Hd) Hle).
Qed.

Lemma is_rounding_lower a d q k :
  0 < d -> is_rounding a d q -> k * d <= a -> k <= q.
Proof.
  intros Hd H Hle.
  exact (is_rounding_mono (k * d) a d k q Hd (is_rounding_exact k d Hd) H Hle).
Qed.

Lemma is_rounding_scale a d q k :
  0 < k -> is_rounding a d q -> is_rounding (a * k) (d * k) q.
Proof.
  intros Hk [H E]. unfold is_rounding.
  replace (a * k - q * (d * k)) with ((a - q * d) * k) by ring.
  rewrite Z.abs_mul, (Z.abs_eq k) by lia.
  split; [nia|]. intros H2. apply E. nia.
Qed.

(** *** The right shift [shr] and [round_nearest_even] *)

Lemma shr_1_inv V P mrs :
  0 < P -> shr_inv V P mrs -> shr_inv V (2 * P) (shr_1 mrs).
Proof.
  intros HP (t & Ht & HV & Hs & Hm).
  destruct mrs as [m r s]. cbn [shr_m shr_r shr_s] in *.
  assert (Hs' : r || s = negb ((if r then P else 0) + t =? 0)).
  { subst s. destruct r; simpl; auto.
    destruct (Z.eqb_spec (P + t) 0); auto; lia. }
  exists ((if r then P else 0) + t).
  destruct m as [|[p|p|]|p]; cbn [shr_1 shr_m shr_r shr_s];
    try rewrite Pos2Z.inj_xI in HV; try rewrite Pos2Z.inj_xO in HV;
    repeat split; auto; try (destruct r; lia).
Qed.

Lemma iter_pos_shr_inv p : forall V P mrs,
  0 < P -> shr_inv V P mrs ->
  shr_inv V (2 ^ Z.pos p * P) (iter_pos shr_1 p mrs).
Proof.
  induction p as [p IH|p IH|]; intros V P mrs HP H; simpl iter_pos.
  - replace (2 ^ Z.pos p~1 * P) with (2 ^ Z.pos p * (2 ^ Z.pos p * (2 * P))).
    2:{ replace (Z.pos p~1) with (Z.pos p + Z.pos p + 1) by lia.
        rewrite !Z.pow_add_r by lia. change (2 ^ 1) with 2. ring. }
    assert (0 < 2 ^ Z.pos p) by (apply Z.pow_pos_nonneg; lia).
    apply IH; [nia|]. apply IH; [lia|]. apply shr_1_inv; auto.
  - replace (2 ^ Z.pos p~0 * P) with (2 ^ Z.pos p * (2 ^ Z.pos p * P)).
    2:{ replace (Z.pos p~0) with (Z.pos p + Z.pos p) by lia.
        rewrite !Z.pow_add_r by lia. ring. }
    assert (0 < 2 ^ Z.pos p) by (apply Z.pow_pos_nonneg; lia).
    apply IH; [nia|]. apply IH; [lia|]. assumption.
  - change (2 ^ 1) with 2. apply shr_1_inv; auto.
Qed.

Lemma round_inv V P mrs :
  0 < P -> shr_inv V P mrs ->
  is_rounding V (2 * P)
    (round_nearest_even (shr_m mrs) (loc_of_shr_record mrs)) /\
  0 <= round_nearest_even (shr_m mrs) (loc_of_shr_record mrs).
Proof.
  intros HP (t & Ht & HV & Hs & Hm).
  destruct mrs as [m r s]. cbn [shr_m shr_r shr_s] in *. unfold is_rounding.
  destruct r, s; cbn [loc_of_shr_record round_nearest_even].
  - (* above the half *)
    destruct (Z.eqb_spec t 0); [discriminate|].
    replace (V - (m + 1) * (2 * P)) with (t - P) by (rewrite HV; ring).
    split; [split; [lia | intro; lia] | lia].
  - destruct (Z.eqb_spec t 0); [|discriminate]. subst t.
    destruct (Z.even m) eqn:He.
    + replace (V - m * (2 * P)) with P by (rewrite HV; ring).
      split; [split; [lia | auto] | lia].
    + replace (V - (m + 1) * (2 * P)) with (- P) by (rewrite HV; ring).
      split; [split; [lia |] | lia]. intros _.
      rewrite Z.even_add, He. reflexivity.
  - destruct (Z.eqb_spec t 0); [discriminate|].
    replace (V - m * (2 * P)) with t by (rewrite HV; ring).
    split; [split; [lia | intro; lia] | lia].
  - destruct (Z.eqb_spec t 0); [|discriminate]. subst t.
    replace (V - m * (2 * P)) with 0 by (rewrite HV; ring).
    split; [split; [lia | intro; lia] | lia].
Qed.

(** *** The number of bits of a mantissa *)

Lemma digits2_pos_lower m : 2 ^ (Z.pos (digits2_pos m) - 1) <= Z.pos m.
Proof.
  induction m as [m IH|m IH|]; simpl digits2_pos.
  - rewrite Pos2Z.inj_succ. replace (Z.succ (Z.pos (digits2_pos m)) - 1)
      with (Z.succ (Z.pos (digits2_pos m) - 1)) by lia.
    rewrite Z.pow_succ_r by lia. lia.
  - rewrite Pos2Z.inj_succ. replace (Z.succ (Z.pos (digits2_pos m)) - 1)
      with (Z.succ (Z.pos (digits2_pos m) - 1)) by lia.
    rewrite Z.pow_succ_r by lia. lia.
  - simpl. lia.
Qed.

Lemma digits2_pos_upper m : Z.pos m < 2 ^ Z.pos (digits2_pos m).
Proof.
  induction m as [m IH|m IH|]; simpl digits2_pos.
  - rewrite Pos2Z.inj_succ, Z.pow_succ_r by lia. lia.
  - rewrite Pos2Z.inj_succ, Z.pow_succ_r by lia. lia.
  - reflexivity.
Qed.

Lemma digits2_pos_unique m k :
  2 ^ (k - 1) <= Z.pos m < 2 ^ k -> Z.pos (digits2_pos m) = k.
Proof.
  intros [Hlo Hhi].
  pose proof (digits2_pos_lower m) as Hl.
  pose proof (digits2_pos_upper m) as Hu.
  set (d := Z.pos (digits2_pos m)) in *.
  assert (Hd : 0 < d) by (subst d; lia).
  assert (Hk : 0 < k).
  { destruct (Z_lt_le_dec 0 k); auto.
    destruct (Z.eq_dec k 0) as [->|].
    - simpl in Hhi. lia.
    - rewrite Z.pow_neg_r in Hhi by lia. lia. }
  destruct (Z.lt_trichotomy d k) as [H|[H|H]]; auto; exfalso.
  - assert (2 ^ d <= 2 ^ (k - 1)) by (apply Z.pow_le_mono_r; lia). lia.
  - assert (2 ^ k <= 2 ^ (d - 1)) by (apply Z.pow_le_mono_r; lia). lia.
Qed.

(** *** [binary_round_aux]: shift, round, renormalise *)

Lemma binary_round_aux_finish sx mx ex lx :
  binary_round_aux F32.prec F32.emax sx mx ex lx =
  let mrs_e := shr_fexp F32.prec F32.emax mx ex lx in
  finish sx (round_nearest_even (shr_m (fst mrs_e))
                                (loc_of_shr_record (fst mrs_e)))
         (snd mrs_e).
Proof.
  unfold binary_round_aux, finish.
  destruct (shr_fexp F32.prec F32.emax mx ex lx). reflexivity.
Qed.

Lemma fexp32 e : fexp F32.prec F32.emax e = Z.max (e - 24) (-149).
Proof. reflexivity. Qed.

Lemma shr_nonpos mrs e n : n <= 0 -> shr mrs e n = (mrs, e).
Proof. destruct n; auto. lia. Qed.

Lemma shr_pos mrs e n :
  0 < n -> shr mrs e n = (iter_pos shr_1 (Z.to_pos n) mrs, e + n).
Proof. destruct n; try lia. reflexivity. Qed.

Lemma pow2_pos k : 0 <= k -> 0 < 2 ^ k.
Proof. intros. apply Z.pow_pos_nonneg; lia. Qed.

Lemma LIM_pos : 0 < LIM.
Proof. reflexivity. Qed.

Lemma digits_le_24 p : Z.pos p < 2 ^ 24 -> Z.pos (digits2_pos p) <= 24.
Proof.
  intros H. pose proof (digits2_pos_lower p) as Hl.
  destruct (Z_le_gt_dec (Z.pos (digits2_pos p)) 24); auto.
  assert (2 ^ 24 <= 2 ^ (Z.pos (digits2_pos p) - 1))
    by (apply Z.pow_le_mono_r; lia).
  lia.
Qed.

Lemma digits_ge_24 p : 2 ^ 23 <= Z.pos p -> 24 <= Z.pos (digits2_pos p).
Proof.
  intros H. pose proof (digits2_pos_upper p) as Hu.
  destruct (Z_le_gt_dec 24 (Z.pos (digits2_pos p))); auto.
  assert (2 ^ Z.pos (digits2_pos p) <= 2 ^ 23)
    by (apply Z.pow_le_mono_r; lia).
  lia.
Qed.

(** A rounded mantissa of at most 24 bits (or 2^24 after a carry) at an
    exponent of the format is packed into a float32 of that value, or
    into an infinity when the exponent is too large. *)
Lemma finish_spec sx q e :
  0 <= q <= 2 ^ 24 -> -149 <= e -> (-149 < e -> 2 ^ 23 <= q) ->
  valid_binary F32.prec F32.emax (finish sx q e) = true /\
  F32.is_nan (finish sx q e) = false /\
  ord (finish sx q e) = sgn sx * Z.min (q * 2 ^ (e + 150)) LIM.
Proof.
  intros Hq He Hn.
  pose proof LIM_pos as HL.
  assert (Hp : 0 < 2 ^ (e + 150)) by (apply pow2_pos; lia).
  destruct (Z.eq_dec q 0) as [->|Hq0].
  { unfold finish, shr_fexp. rewrite shr_nonpos.
    2:{ simpl Zdigits2. rewrite fexp32. lia. }
    cbn [shr_record_of_loc shr_m ord valid_binary F32.is_nan].
    repeat split. rewrite Z.mul_0_l, Z.min_l, Z.mul_0_r by lia.
    reflexivity. }
  destruct (Z.eq_dec q (2 ^ 24)) as [->|Hq24].
  { unfold finish, shr_fexp.
    change (Zdigits2 (2 ^ 24)) with 25. rewrite fexp32.
    replace (Z.max (25 + e - 24) (-149) - e) with 1 by lia.
    cbn [shr shr_record_of_loc iter_pos]. 
    change (shr_m (shr_1 {| shr_m := 2 ^ 24; shr_r := false; shr_s := false |}))
      with (Z.pos 8388608).
    cbv beta iota.
    assert (Hv : 2 ^ 24 * 2 ^ (e + 150) = 8388608 * 2 ^ (e + 1 + 150)).
    { replace (e + 1 + 150) with (e + 150 + 1) by lia.
      rewrite (Z.pow_add_r 2 (e + 150) 1) by lia. change (2 ^ 24) with 16777216.
      change (2 ^ 1) with 2. lia. }
    rewrite Hv.
    destruct (Z.leb_spec (e + 1) (F32.emax - F32.prec)) as [Hle|Hgt];
      change (F32.emax - F32.prec) with 104 in *.
    - split; [|split; [reflexivity|]].
      + unfold valid_binary, bounded, canonical_mantissa.
        change (Z.pos (digits2_pos 8388608)) with 24. rewrite fexp32.
        apply andb_true_iff. split; [apply Z.eqb_eq; lia|].
        apply Z.leb_le. exact Hle.
      + cbn [ord]. f_equal. rewrite Z.min_l; [reflexivity|].
        assert (2 ^ (e + 1 + 150) <= 2 ^ 255) by (apply Z.pow_le_mono_r; lia).
        unfold LIM. change (2 ^ 278) with (8388608 * 2 ^ 255). lia.
    - split; [reflexivity|]. split; [reflexivity|].
      cbn [ord]. f_equal. rewrite Z.min_r; [reflexivity|].
      assert (2 ^ 255 <= 2 ^ (e + 1 + 150)) by (apply Z.pow_le_mono_r; lia).
      unfold LIM. change (2 ^ 278) with (8388608 * 2 ^ 255). lia. }
  destruct q as [|p|p]; try lia.
  assert (Hlt : Z.pos p < 2 ^ 24) by lia.
  pose proof (digits_le_24 p Hlt) as Hd.
  unfold finish, shr_fexp. rewrite shr_nonpos.
  2:{ cbn [Zdigits2]. rewrite fexp32. lia. }
  cbn [shr_record_of_loc shr_m].
  destruct (Z.leb_spec e (F32.emax - F32.prec)) as [Hle|Hgt];
    change (F32.emax - F32.prec) with 104 in *.
  - split; [|split; [reflexivity|]].
    + unfold valid_binary, bounded, canonical_mantissa. rewrite fexp32.
      apply andb_true_iff. split; [apply Z.eqb_eq|apply Z.leb_le; exact Hle].
      destruct (Z.eq_dec e (-149)) as [->|]; [lia|].
      pose proof (digits_ge_24 p ltac:(lia)). lia.
    + cbn [ord]. f_equal. rewrite Z.min_l; [reflexivity|].
      assert (2 ^ (e + 150) <= 2 ^ 254) by (apply Z.pow_le_mono_r; lia).
      unfold LIM. change (2 ^ 278) with (2 ^ 24 * 2 ^ 254).
      assert (0 < 2 ^ 254) by reflexivity. nia.
  - split; [reflexivity|]. split; [reflexivity|].
    cbn [ord]. f_equal. rewrite Z.min_r; [reflexivity|].
    assert (2 ^ 255 <= 2 ^ (e + 150)) by (apply Z.pow_le_mono_r; lia).
    unfold LIM. change (2 ^ 278) with (2 ^ 23 * 2 ^ 255).
    specialize (Hn ltac:(lia)).
    assert (0 < 2 ^ 255) by reflexivity. nia.
Qed.

Lemma Zdigits2_nonneg m : 0 <= Zdigits2 m.
Proof. destruct m; simpl; lia. Qed.

Lemma Zdigits2_upper m : 0 <= m -> m < 2 ^ Zdigits2 m.
Proof.
  destruct m as [|p|p]; intros H; try lia.
  - reflexivity.
  - apply digits2_pos_upper.
Qed.

Lemma Zdigits2_lower m : 0 < m -> 2 ^ (Zdigits2 m - 1) <= m.
Proof.
  destruct m as [|p|p]; intros H; try lia.
  apply digits2_pos_lower.
Qed.

Lemma pow2_le a b : a <= b -> 0 <= a -> 2 ^ a <= 2 ^ b.
Proof. intros. apply Z.pow_le_mono_r; lia. Qed.

Lemma pow2_add a b : 0 <= a -> 0 <= b -> 2 ^ (a + b) = 2 ^ a * 2 ^ b.
Proof. intros. apply Z.pow_add_r; lia. Qed.

Lemma pow2_succ a : 0 <= a -> 2 ^ (a + 1) = 2 * 2 ^ a.
Proof. intros. rewrite pow2_add by lia. change (2 ^ 1) with 2. lia. Qed.

Lemma shr_fexp_inv m c e :
  0 <= m ->
  e <= fexp F32.prec F32.emax (Zdigits2 m + e) ->
  snd (shr_fexp F32.prec F32.emax m e (loc_of_half c))
    = fexp F32.prec F32.emax (Zdigits2 m + e) /\
  shr_inv (2 * m + half_bit c)
          (2 ^ (fexp F32.prec F32.emax (Zdigits2 m + e) - e))
          (fst (shr_fexp F32.prec F32.emax m e (loc_of_half c))).
Proof.
  intros Hm Hn. unfold shr_fexp.
  set (n1 := fexp F32.prec F32.emax (Zdigits2 m + e) - e).
  assert (Hinit : shr_inv (2 * m + half_bit c) 1
                    (shr_record_of_loc m (loc_of_half c))).
  { exists 0. destruct c; cbn [loc_of_half shr_record_of_loc shr_m shr_r shr_s
                                half_bit];
      repeat split; try lia. }
  destruct (Z.eq_dec n1 0) as [H0|H0].
  - rewrite shr_nonpos by lia. rewrite H0. cbn [fst snd].
    split; [lia|exact Hinit].
  - rewrite shr_pos by lia. cbn [fst snd]. split; [lia|].
    pose proof (iter_pos_shr_inv (Z.to_pos n1) _ 1 _ ltac:(lia) Hinit) as H.
    rewrite Z2Pos.id, Z.mul_1_r in H by lia. exact H.
Qed.

(** [binary_round_aux] on a mantissa [m] with an exact or halfway
    location: the result is a float32 whose mantissa is the nearest-even
    rounding of [m] (and the half) shifted to the exponent of the
    format. *)
Lemma binary_round_aux_valid sx m c e :
  0 <= m ->
  e <= fexp F32.prec F32.emax (Zdigits2 m + e) ->
  let e' := fexp F32.prec F32.emax (Zdigits2 m + e) in
  let x := binary_round_aux F32.prec F32.emax sx m e (loc_of_half c) in
  exists q,
    is_rounding (2 * m + half_bit c) (2 * 2 ^ (e' - e)) q /\
    0 <= q <= 2 ^ 24 /\ (-149 < e' -> 2 ^ 23 <= q) /\
    valid_binary F32.prec F32.emax x = true /\
    F32.is_nan x = false /\
    ord x = sgn sx * Z.min (q * 2 ^ (e' + 150)) LIM.
Proof.
  intros Hm Hn e' x. subst x. rewrite binary_round_aux_finish. cbv zeta.
  destruct (shr_fexp_inv m c e Hm Hn) as [He Hinv].
  assert (Ee : e' = fexp F32.prec F32.emax (Zdigits2 m + e)) by reflexivity.
  clearbody e'. rewrite <- Ee in *. rewrite He.
  assert (HP : 0 < 2 ^ (e' - e)) by (apply pow2_pos; lia).
  destruct (round_inv _ _ _ HP Hinv) as [Hr Hq0].
  set (q := round_nearest_even _ _) in *.
  assert (He' : -149 <= e' /\ Zdigits2 m + e - 24 <= e')
    by (rewrite Ee, fexp32; lia).
  pose proof (Zdigits2_nonneg m) as Hd0.
  pose proof (Zdigits2_upper m Hm) as Hup.
  assert (Hc : 0 <= half_bit c <= 1) by (destruct c; simpl; lia).
  assert (HD : 0 < 2 * 2 ^ (e' - e)) by lia.
  assert (Hqhi : q <= 2 ^ 24).
  { apply (is_rounding_upper _ _ _ _ HD Hr).
    assert (2 ^ Zdigits2 m <= 2 ^ (24 + (e' - e))) by (apply pow2_le; lia).
    rewrite pow2_add in H by lia. lia. }
  assert (Hqlo : -149 < e' -> 2 ^ 23 <= q).
  { intros Hnorm.
    assert (Heq : e' = Zdigits2 m + e - 24)
      by (rewrite fexp32 in Ee; lia).
    assert (Hmpos : 0 < m).
    { destruct (Z.eq_dec m 0) as [->|]; [|lia]. simpl in Heq. lia. }
    pose proof (Zdigits2_lower m Hmpos) as Hlo.
    apply (is_rounding_lower _ _ _ _ HD Hr).
    replace (Zdigits2 m - 1) with (23 + (e' - e)) in Hlo by lia.
    rewrite pow2_add in Hlo by lia. lia. }
  exists q. split; [exact Hr|]. split; [lia|]. split; [exact Hqlo|].
  apply finish_spec; solve [lia | exact Hqlo].
Qed.

Lemma binary_round_aux_rnd sx m c e :
  0 <= m -> -149 <= e ->
  e <= fexp F32.prec F32.emax (Zdigits2 m + e) ->
  let x := binary_round_aux F32.prec F32.emax sx m e (loc_of_half c) in
  exists R,
    rnd ((2 * m + half_bit c) * 2 ^ (e + 149)) R /\
    valid_binary F32.prec F32.emax x = true /\
    F32.is_nan x = false /\
    ord x = sgn sx * Z.min R LIM.
Proof.
  intros Hm He Hn x.
  destruct (binary_round_aux_valid sx m c e Hm Hn)
    as (q & Hr & Hq & Hqlo & Hv & Hnan & Hord).
  fold x in Hv, Hnan, Hord. clearbody x.
  remember (fexp F32.prec F32.emax (Zdigits2 m + e)) as e' eqn:Ee.
  assert (He' : -149 <= e' /\ Zdigits2 m + e - 24 <= e')
    by (rewrite Ee, fexp32; lia).
  exists (q * 2 ^ (e' + 150)). split; [|auto].
  pose proof (Zdigits2_nonneg m) as Hd0.
  pose proof (Zdigits2_upper m Hm) as Hup.
  assert (Hc : 0 <= half_bit c <= 1) by (destruct c; simpl; lia).
  assert (Hk : 0 < 2 ^ (e + 149)) by (apply pow2_pos; lia).
  exists (e' + 150), q. split; [lia|].
  assert (Hs : 2 ^ (e' + 150) = 2 * 2 ^ (e' - e) * 2 ^ (e + 149)).
  { replace (e' + 150) with ((e' - e) + (e + 149) + 1) by lia.
    rewrite pow2_succ, pow2_add by lia. lia. }
  split; [|split; [|split; [|reflexivity]]].
  - assert (2 ^ (Zdigits2 m + 1 + (e + 149)) <= 2 ^ (24 + (e' + 150)))
      by (apply pow2_le; lia).
    rewrite pow2_add, pow2_succ in H by lia. nia.
  - destruct (Z.eq_dec e' (-149)) as [He149|Hne]; [left; lia|right].
    assert (Heq : e' = Zdigits2 m + e - 24)
      by (rewrite fexp32 in Ee; lia).
    assert (Hmpos : 0 < m).
    { destruct (Z.eq_dec m 0) as [->|]; [|lia]. simpl in Heq. lia. }
    pose proof (Zdigits2_lower m Hmpos) as Hlo.
    replace (23 + (e' + 150)) with ((Zdigits2 m - 1) + 1 + (e + 149)) by lia.
    rewrite pow2_add, pow2_succ by lia. nia.
  - rewrite Hs. apply is_rounding_scale; [lia|exact Hr].
Qed.

(** *** [binary_round] and [binary_normalize] *)

Lemma pos_iter_xO mx d : Z.pos (Pos.iter xO mx d) = Z.pos mx * 2 ^ Z.pos d.
Proof.
  induction d as [|d IH] using Pos.peano_ind.
  - simpl. lia.
  - rewrite Pos.iter_succ, Pos2Z.inj_xO, IH, Pos2Z.inj_succ, Z.pow_succ_r
      by lia.
    ring.
Qed.

Lemma shl_align_spec mx ex ex' :
  snd (shl_align mx ex ex') = Z.min ex ex' /\
  Z.pos (fst (shl_align mx ex ex')) = Z.pos mx * 2 ^ (ex - Z.min ex ex').
Proof.
  unfold shl_align. destruct (ex' - ex) as [|d|d] eqn:E; cbn [fst snd].
  - rewrite Z.min_l by lia. rewrite Z.sub_diag. split; lia.
  - rewrite Z.min_l by lia. rewrite Z.sub_diag. split; lia.
  - rewrite Z.min_r by lia. split; [reflexivity|].
    rewrite pos_iter_xO. f_equal. f_equal. lia.
Qed.

Lemma digits2_pos_shift mx mz k :
  0 <= k -> Z.pos mz = Z.pos mx * 2 ^ k ->
  Z.pos (digits2_pos mz) = Z.pos (digits2_pos mx) + k.
Proof.
  intros Hk H. apply digits2_pos_unique. rewrite H.
  pose proof (digits2_pos_lower mx) as Hl.
  pose proof (digits2_pos_upper mx) as Hu.
  pose proof (pow2_pos k Hk) as Hp.
  replace (Z.pos (digits2_pos mx) + k - 1)
    with ((Z.pos (digits2_pos mx) - 1) + k) by lia.
  rewrite !pow2_add by lia. split; nia.
Qed.

Lemma binary_round_aligned sx mx ex :
  exists mz ez,
    binary_round F32.prec F32.emax sx mx ex
      = binary_round_aux F32.prec F32.emax sx (Z.pos mz) ez loc_Exact /\
    ez = Z.min ex (fexp F32.prec F32.emax (Z.pos (digits2_pos mx) + ex)) /\
    Z.pos mz = Z.pos mx * 2 ^ (ex - ez) /\
    fexp F32.prec F32.emax (Zdigits2 (Z.pos mz) + ez)
      = fexp F32.prec F32.emax (Z.pos (digits2_pos mx) + ex).
Proof.
  unfold binary_round.
  pose proof (shl_align_spec mx ex
                (fexp F32.prec F32.emax (Z.pos (digits2_pos mx) + ex)))
    as [He Hm].
  destruct (shl_align mx ex _) as [mz ez]. cbn [fst snd] in He, Hm.
  exists mz, ez. split; [reflexivity|]. split; [exact He|].
  rewrite <- He in Hm. split; [exact Hm|].
  cbn [Zdigits2].
  rewrite (digits2_pos_shift mx mz (ex - ez)) by (auto; lia).
  f_equal. lia.
Qed.

Lemma binary_round_valid sx mx ex :
  valid_binary F32.prec F32.emax (binary_round F32.prec F32.emax sx mx ex)
    = true /\
  F32.is_nan (binary_round F32.prec F32.emax sx mx ex) = false.
Proof.
  destruct (binary_round_aligned sx mx ex) as (mz & ez & -> & He & Hm & Hf).
  destruct (binary_round_aux_valid sx (Z.pos mz) false ez ltac:(lia))
    as (q & _ & _ & _ & Hv & Hn & _).
  - rewrite Hf. lia.
  - auto.
Qed.

Lemma binary_round_rnd sx mx ex :
  -149 <= ex ->
  exists R,
    rnd (Z.pos mx * 2 ^ (ex + 150)) R /\
    valid_binary F32.prec F32.emax (binary_round F32.prec F32.emax sx mx ex)
      = true /\
    F32.is_nan (binary_round F32.prec F32.emax sx mx ex) = false /\
    ord (binary_round F32.prec F32.emax sx mx ex) = sgn sx * Z.min R LIM.
Proof.
  intros Hex.
  destruct (binary_round_aligned sx mx ex) as (mz & ez & -> & He & Hm & Hf).
  assert (Hez : -149 <= ez <= ex) by (rewrite fexp32 in He; lia).
  destruct (binary_round_aux_rnd sx (Z.pos mz) false ez ltac:(lia) ltac:(lia))
    as (R & HR & Hv & Hn & Hord).
  - rewrite Hf. lia.
  - exists R. split; [|auto].
    replace (Z.pos mx * 2 ^ (ex + 150))
      with ((2 * Z.pos mz + half_bit false) * 2 ^ (ez + 149)); [exact HR|].
    rewrite Hm. cbn [half_bit].
    replace (ex + 150) with ((ex - ez) + (ez + 149) + 1) by lia.
    rewrite pow2_succ, (pow2_add (ex - ez) (ez + 149)) by lia. ring.
Qed.

(** *** Rounding to 24 bits is monotone *)

Lemma rnd_nonneg V R : 0 <= V -> rnd V R -> 0 <= R.
Proof.
  intros HV (s & q & Hs & _ & _ & Hr & ->).
  assert (Hp : 0 < 2 ^ s) by (apply pow2_pos; lia).
  assert (0 <= q) by (apply (is_rounding_lower _ _ _ _ Hp Hr); lia).
  nia.
Qed.

Lemma rnd_mono V V' R R' :
  0 <= V -> V <= V' -> rnd V R -> rnd V' R' -> R <= R'.
Proof.
  intros H0 Hle (s & q & Hs & Hhi & Hlo & Hr & ->)
         (s' & q' & Hs' & Hhi' & Hlo' & Hr' & ->).
  assert (Hp : 0 < 2 ^ s) by (apply pow2_pos; lia).
  assert (Hp' : 0 < 2 ^ s') by (apply pow2_pos; lia).
  destruct (Z.lt_trichotomy s s') as [Hlt|[<-|Hgt]].
  - destruct Hlo' as [->|Hlo']; [lia|].
    assert (Hq : q <= 2 ^ 24).
    { apply (is_rounding_upper _ _ _ _ Hp Hr).
      rewrite pow2_add in Hhi by lia. lia. }
    assert (Hq' : 2 ^ 23 <= q').
    { apply (is_rounding_lower _ _ _ _ Hp' Hr').
      rewrite pow2_add in Hlo' by lia. lia. }
    assert (2 ^ (24 + s) <= 2 ^ (23 + s')) by (apply pow2_le; lia).
    rewrite !pow2_add in H by lia.
    change (2 ^ 24) with 16777216 in *. change (2 ^ 23) with 8388608 in *.
    nia.
  - pose proof (is_rounding_mono _ _ _ _ _ Hp Hr Hr' Hle). nia.
  - destruct Hlo as [->|Hlo]; [lia|].
    assert (2 ^ (24 + s') <= 2 ^ (23 + s)) by (apply pow2_le; lia).
    lia.
Qed.

Lemma rnd_zero : rnd 0 0.
Proof.
  exists 1, 0. repeat split; try lia; try reflexivity.
Qed.

(** The magnitudes of the float32 values are fixed points. *)
Lemma rnd_representable m e :
  Z.pos m < 2 ^ 24 -> -149 <= e -> (-149 < e -> 2 ^ 23 <= Z.pos m) ->
  rnd (Z.pos m * 2 ^ (e + 150)) (Z.pos m * 2 ^ (e + 150)).
Proof.
  intros Hm He Hn.
  assert (Hp : 0 < 2 ^ (e + 150)) by (apply pow2_pos; lia).
  exists (e + 150), (Z.pos m). split; [lia|]. split; [|split; [|split]].
  - rewrite (pow2_add 24 (e + 150)) by lia. nia.
  - destruct (Z.eq_dec e (-149)) as [->|]; [left; reflexivity|right].
    rewrite (pow2_add 23 (e + 150)) by lia. specialize (Hn ltac:(lia)). nia.
  - apply is_rounding_exact. exact Hp.
  - reflexivity.
Qed.

Lemma srnd_mono V V' R R' :
  V <= V' -> srnd V R -> srnd V' R' -> R <= R'.
Proof.
  intros Hle (R0 & H0 & ->) (R0' & H0' & ->).
  pose proof LIM_pos as HL.
  pose proof (rnd_nonneg _ _ (Z.abs_nonneg V) H0) as Hn.
  pose proof (rnd_nonneg _ _ (Z.abs_nonneg V') H0') as Hn'.
  destruct (Z.sgn_spec V) as [[HV ->]|[[HV ->]|[HV ->]]];
  destruct (Z.sgn_spec V') as [[HV' ->]|[[HV' ->]|[HV' ->]]]; try lia.
  - assert (R0 <= R0') by (apply (rnd_mono (Z.abs V) (Z.abs V')); auto; lia).
    lia.
  - assert (R0' <= R0) by (apply (rnd_mono (Z.abs V') (Z.abs V)); auto; lia).
    lia.
Qed.

Lemma binary_normalize_srnd X ez :
  -149 <= ez ->
  let y := binary_normalize F32.prec F32.emax X ez false in
  valid_binary F32.prec F32.emax y = true /\
  F32.is_nan y = false /\
  srnd (X * 2 ^ (ez + 150)) (ord y).
Proof.
  intros He y. subst y.
  assert (Hp : 0 < 2 ^ (ez + 150)) by (apply pow2_pos; lia).
  destruct X as [|p|p]; cbn [binary_normalize].
  - split; [reflexivity|]. split; [reflexivity|].
    exists 0. rewrite Z.mul_0_l. split; [exact rnd_zero|reflexivity].
  - destruct (binary_round_rnd false p ez He) as (R & HR & Hv & Hn & Hord).
    split; [exact Hv|]. split; [exact Hn|].
    exists R. rewrite Z.abs_eq by lia. split; [exact HR|].
    rewrite Hord. rewrite Z.sgn_pos by lia. reflexivity.
  - destruct (binary_round_rnd true p ez He) as (R & HR & Hv & Hn & Hord).
    split; [exact Hv|]. split; [exact Hn|].
    exists R. rewrite Z.abs_neq by lia.
    replace (- (Z.neg p * 2 ^ (ez + 150))) with (Z.pos p * 2 ^ (ez + 150))
      by lia.
    split; [exact HR|].
    rewrite Hord. rewrite Z.sgn_neg by lia. reflexivity.
Qed.

(** *** The order of float32 values on the integer scale *)

Lemma valid_finite_bounds s m e :
  valid_binary F32.prec F32.emax (S754_finite s m e) = true ->
  Z.pos m < 2 ^ 24 /\ -149 <= e <= 104 /\ (-149 < e -> 2 ^ 23 <= Z.pos m).
Proof.
  unfold valid_binary, bounded, canonical_mantissa. rewrite fexp32.
  change (F32.emax - F32.prec) with 104.
  intros H. apply andb_true_iff in H as [Hc He].
  apply Z.eqb_eq in Hc. apply Z.leb_le in He.
  pose proof (digits2_pos_lower m) as Hl.
  pose proof (digits2_pos_upper m) as Hu.
  assert (Hd : Z.pos (digits2_pos m) <= 24) by lia.
  split; [|split; [lia|]].
  - assert (2 ^ Z.pos (digits2_pos m) <= 2 ^ 24) by (apply pow2_le; lia). lia.
  - intros Hn. replace (Z.pos (digits2_pos m)) with 24 in Hl by lia.
    exact Hl.
Qed.

Lemma mag_bounds s m e :
  valid_binary F32.prec F32.emax (S754_finite s m e) = true ->
  0 < mag m e < LIM.
Proof.
  intros H. destruct (valid_finite_bounds s m e H) as (Hm & He & _).
  unfold mag.
  assert (Hp : 0 < 2 ^ (e + 150)) by (apply pow2_pos; lia).
  assert (2 ^ (e + 150) <= 2 ^ 254) by (apply pow2_le; lia).
  unfold LIM. change (2 ^ 278) with (2 ^ 24 * 2 ^ 254).
  assert (0 < 2 ^ 254) by reflexivity.
  split; nia.
Qed.

Lemma mag_lt s1 m1 e1 s2 m2 e2 :
  valid_binary F32.prec F32.emax (S754_finite s1 m1 e1) = true ->
  valid_binary F32.prec F32.emax (S754_finite s2 m2 e2) = true ->
  e1 < e2 -> mag m1 e1 < mag m2 e2.
Proof.
  intros H1 H2 Hlt.
  destruct (valid_finite_bounds _ _ _ H1) as (Hm1 & He1 & _).
  destruct (valid_finite_bounds _ _ _ H2) as (Hm2 & He2 & Hn2).
  specialize (Hn2 ltac:(lia)). unfold mag.
  assert (Hp : 0 < 2 ^ (e1 + 150)) by (apply pow2_pos; lia).
  assert (2 ^ (e1 + 150 + 1) <= 2 ^ (e2 + 150)) by (apply pow2_le; lia).
  rewrite pow2_succ in H by lia.
  change (2 ^ 24) with 16777216 in *. change (2 ^ 23) with 8388608 in *.
  nia.
Qed.

Lemma mag_same_exp m1 m2 e :
  -149 <= e -> (mag m1 e ?= mag m2 e) = (Z.pos m1 ?= Z.pos m2).
Proof.
  intros He. unfold mag.
  assert (Hp : 0 < 2 ^ (e + 150)) by (apply pow2_pos; lia).
  symmetry. apply Zmult_compare_compat_r. lia.
Qed.

Lemma ord_finite s m e : ord (S754_finite s m e) = sgn s * mag m e.
Proof. reflexivity. Qed.

Ltac destruct_signs :=
  repeat match goal with s : bool |- _ => destruct s end.

Ltac compare_by_lia :=
  first [apply Z.compare_eq_iff; lia
        |apply Z.compare_lt_iff; lia
        |apply Z.compare_gt_iff; lia].

(** The comparison of two float32 values that are not NaN is the
    comparison of their positions on the integer scale. *)
Lemma SFcompare_ord x y :
  valid_binary F32.prec F32.emax x = true ->
  valid_binary F32.prec F32.emax y = true ->
  F32.is_nan x = false -> F32.is_nan y = false ->
  SFcompare x y = Some (ord x ?= ord y).
Proof.
  intros Hx Hy Nx Ny. pose proof LIM_pos as HL.
  destruct x as [sx|sx| |sx mx ex]; try discriminate Nx;
  destruct y as [sy|sy| |sy my ey]; try discriminate Ny;
  try (pose proof (mag_bounds _ _ _ Hx) as Bx);
  try (pose proof (mag_bounds _ _ _ Hy) as By);
  rewrite ?ord_finite; cbn [SFcompare ord]; f_equal; symmetry.
  1-7: destruct_signs; unfold sgn; cbv iota; compare_by_lia.
  - destruct (valid_finite_bounds _ _ _ Hx) as (_ & Hex & _).
    destruct sx, sy; unfold sgn.
    + destruct (Z.compare_spec ex ey) as [->|Hlt|Hgt].
      * change (Pos.compare_cont Eq mx my) with (Z.pos mx ?= Z.pos my).
        rewrite <- (mag_same_exp mx my ey) by lia.
        replace (-1 * mag mx ey) with (- mag mx ey) by lia.
        replace (-1 * mag my ey) with (- mag my ey) by lia.
        rewrite Z.compare_opp. apply Z.compare_antisym.
      * pose proof (mag_lt _ _ _ _ _ _ Hx Hy Hlt).
        apply Z.compare_gt_iff. lia.
      * pose proof (mag_lt _ _ _ _ _ _ Hy Hx Hgt).
        apply Z.compare_lt_iff. lia.
    + apply Z.compare_lt_iff. lia.
    + apply Z.compare_gt_iff. lia.
    + destruct (Z.compare_spec ex ey) as [->|Hlt|Hgt].
      * change (Pos.compare_cont Eq mx my) with (Z.pos mx ?= Z.pos my).
        rewrite <- (mag_same_exp mx my ey) by lia.
        rewrite !Z.mul_1_l. reflexivity.
      * pose proof (mag_lt _ _ _ _ _ _ Hx Hy Hlt).
        apply Z.compare_lt_iff. lia.
      * pose proof (mag_lt _ _ _ _ _ _ Hy Hx Hgt).
        apply Z.compare_gt_iff. lia.
Qed.

Lemma leb_ord x y :
  valid_binary F32.prec F32.emax x = true ->
  valid_binary F32.prec F32.emax y = true ->
  F32.is_nan x = false -> F32.is_nan y = false ->
  F32.leb x y = (ord x <=? ord y).
Proof.
  intros Hx Hy Nx Ny. unfold F32.leb, SFleb.
  rewrite (SFcompare_ord x y Hx Hy Nx Ny). unfold Z.leb.
  destruct (ord x ?= ord y); reflexivity.
Qed.

Lemma ltb_ord x y :
  valid_binary F32.prec F32.emax x = true ->
  valid_binary F32.prec F32.emax y = true ->
  F32.is_nan x = false -> F32.is_nan y = false ->
  F32.ltb x y = (ord x <? ord y).
Proof.
  intros Hx Hy Nx Ny. unfold F32.ltb, SFltb.
  rewrite (SFcompare_ord x y Hx Hy Nx Ny). unfold Z.ltb.
  destruct (ord x ?= ord y); reflexivity.
Qed.

Lemma ord_bound x :
  valid_binary F32.prec F32.emax x = true ->
  - LIM <= ord x <= LIM /\
  (F32.is_finite x = true -> - LIM < ord x < LIM).
Proof.
  intros Hx. pose proof LIM_pos as HL.
  destruct x as [s|s| |s m e]; cbn [ord F32.is_finite].
  - split; [lia|]. intros _. lia.
  - split; [destruct s; unfold sgn; lia|discriminate].
  - split; [lia|discriminate].
  - pose proof (mag_bounds _ _ _ Hx) as B. fold (mag m e).
    destruct s; unfold sgn; split; try lia; intros _; lia.
Qed.

Lemma srnd_zero : srnd 0 0.
Proof. exists 0. split; [exact rnd_zero|reflexivity]. Qed.

Lemma srnd_representable s m e :
  valid_binary F32.prec F32.emax (S754_finite s m e) = true ->
  srnd (ord (S754_finite s m e)) (ord (S754_finite s m e)).
Proof.
  intros H. destruct (valid_finite_bounds _ _ _ H) as (Hm & He & Hn).
  pose proof (mag_bounds _ _ _ H) as B.
  rewrite ord_finite. exists (mag m e). split.
  - replace (Z.abs (sgn s * mag m e)) with (mag m e)
      by (destruct s; unfold sgn; lia).
    apply rnd_representable; auto; lia.
  - rewrite Z.min_l by lia.
    replace (Z.sgn (sgn s * mag m e)) with (sgn s); [reflexivity|].
    destruct s; unfold sgn; [rewrite Z.sgn_neg|rewrite Z.sgn_pos]; lia.
Qed.

(** *** Addition *)

Lemma cond_Zopp_sgn s z : cond_Zopp s z = sgn s * z.
Proof. destruct s; unfold cond_Zopp, sgn; lia. Qed.

(** The float32 sum of two finite values is the rounding of their exact
    sum. *)
Lemma add_srnd x n :
  valid_binary F32.prec F32.emax x = true ->
  valid_binary F32.prec F32.emax n = true ->
  F32.is_finite x = true -> F32.is_finite n = true ->
  valid_binary F32.prec F32.emax (F32.add x n) = true /\
  F32.is_nan (F32.add x n) = false /\
  srnd (ord x + ord n) (ord (F32.add x n)).
Proof.
  intros Hx Hn Fx Fn.
  destruct x as [sx|sx| |sx mx ex]; try discriminate Fx;
  destruct n as [sn|sn| |sn mn en]; try discriminate Fn.
  - destruct sx, sn; cbn; repeat split; exact srnd_zero.
  - change (F32.add (S754_zero sx) (S754_finite sn mn en))
      with (S754_finite sn mn en).
    split; [exact Hn|]. split; [reflexivity|].
    change (ord (S754_zero sx)) with 0. rewrite Z.add_0_l.
    apply srnd_representable. exact Hn.
  - change (F32.add (S754_finite sx mx ex) (S754_zero sn))
      with (S754_finite sx mx ex).
    split; [exact Hx|]. split; [reflexivity|].
    change (ord (S754_zero sn)) with 0. rewrite Z.add_0_r.
    apply srnd_representable. exact Hx.
  - destruct (valid_finite_bounds _ _ _ Hx) as (_ & Hex & _).
    destruct (valid_finite_bounds _ _ _ Hn) as (_ & Hen & _).
    unfold F32.add. cbn [SFadd]. cbv zeta.
    set (ez := Z.min ex en).
    assert (Hez : -149 <= ez /\ ez <= ex /\ ez <= en) by (subst ez; lia).
    destruct (shl_align_spec mx ex ez) as [_ Hmx].
    destruct (shl_align_spec mn en ez) as [_ Hmn].
    rewrite Z.min_r in Hmx by lia. rewrite Z.min_r in Hmn by lia.
    rewrite Hmx, Hmn, !cond_Zopp_sgn.
    pose proof (binary_normalize_srnd
                  (sgn sx * (Z.pos mx * 2 ^ (ex - ez))
                   + sgn sn * (Z.pos mn * 2 ^ (en - ez))) ez ltac:(lia))
      as (Hv & Hnan & Hs).
    split; [exact Hv|]. split; [exact Hnan|].
    replace (ord (S754_finite sx mx ex) + ord (S754_finite sn mn en))
      with ((sgn sx * (Z.pos mx * 2 ^ (ex - ez))
             + sgn sn * (Z.pos mn * 2 ^ (en - ez))) * 2 ^ (ez + 150));
      [exact Hs|].
    cbn [ord]. unfold mag.
    replace (ex + 150) with ((ex - ez) + (ez + 150)) by lia.
    replace (en + 150) with ((en - ez) + (ez + 150)) by lia.
    rewrite (pow2_add (ex - ez) (ez + 150)), (pow2_add (en - ez) (ez + 150))
      by lia.
    ring.
Qed.

Lemma add_infinity x s :
  F32.is_finite x = true ->
  F32.add x (S754_infinity s) = S754_infinity s.
Proof. destruct x; try discriminate; reflexivity. Qed.

(** *** Division by two *)

Lemma div_eucl_div_mod a b : Z.div_eucl a b = (a / b, a mod b).
Proof.
  unfold Z.div, Z.modulo. destruct (Z.div_eucl a b). reflexivity.
Qed.

Lemma two_eq : F32.two = S754_finite false 8388608 (-22).
Proof. reflexivity. Qed.

Lemma div_core_two m e :
  Z.pos (digits2_pos m) <= 24 -> -149 <= e ->
  let e' := Z.max (Z.pos (digits2_pos m) + e - 26) (-149) in
  let W := Z.pos m * 2 ^ (e - e') in
  SFdiv_core_binary F32.prec F32.emax (Z.pos m) e 8388608 (-22)
  = (W / 2, e', loc_of_half (Z.odd W)).
Proof.
  intros Hd He e' W. unfold SFdiv_core_binary.
  change (Zdigits2 8388608) with 24. cbn [Zdigits2]. rewrite fexp32.
  replace (Z.min (Z.max (Z.pos (digits2_pos m) + e - (24 + -22) - 24) (-149))
                 (e - -22)) with e' by (subst e'; lia).
  assert (He' : -149 <= e' <= e) by (subst e'; lia).
  remember (e - -22 - e') as s eqn:Es.
  assert (Hs : s = 22 + (e - e')) by lia.
  destruct s as [|ps|ps]; try lia.
  rewrite Z.shiftl_mul_pow2 by lia. rewrite Hs.
  rewrite (pow2_add 22 (e - e')) by lia.
  replace (Z.pos m * (2 ^ 22 * 2 ^ (e - e'))) with (W * 2 ^ 22)
    by (subst W; ring).
  assert (Hq : W * 2 ^ 22 / 8388608 = W / 2).
  { change 8388608 with (2 * 2 ^ 22).
    apply Z.div_mul_cancel_r; [lia|apply Z.pow_nonzero; lia]. }
  assert (Hr : (W * 2 ^ 22) mod 8388608 = (W mod 2) * 2 ^ 22).
  { change 8388608 with (2 * 2 ^ 22).
    apply Z.mul_mod_distr_r; [lia|apply Z.pow_nonzero; lia]. }
  rewrite div_eucl_div_mod, Hq, Hr. cbv beta iota.
  f_equal. unfold new_location. change (Z.even 8388608) with true.
  cbv iota. unfold new_location_even.
  rewrite Zmod_odd. destruct (Z.odd W); reflexivity.
Qed.

Lemma Zdigits2_ge_24 q : 2 ^ 23 <= q -> 24 <= Zdigits2 q.
Proof.
  intros H. destruct q as [|p|p]; try (exfalso; change (2 ^ 23) with 8388608 in H; lia).
  apply digits_ge_24. exact H.
Qed.

(** The float32 quotient of a finite value by two is the rounding of its
    exact half (only a subnormal is rounded at all). *)
Lemma div_two_srnd y :
  valid_binary F32.prec F32.emax y = true ->
  F32.is_finite y = true ->
  valid_binary F32.prec F32.emax (F32.div y F32.two) = true /\
  F32.is_nan (F32.div y F32.two) = false /\
  srnd (ord y / 2) (ord (F32.div y F32.two)).
Proof.
  intros Hy Fy. rewrite two_eq.
  destruct y as [s|s| |s m e]; try discriminate Fy.
  - cbn. repeat split. exact srnd_zero.
  - destruct (valid_finite_bounds _ _ _ Hy) as (Hm & He & Hn).
    pose proof (digits_le_24 m Hm) as Hd.
    unfold F32.div. cbn [SFdiv].
    rewrite (div_core_two m e Hd ltac:(lia)). cbv zeta.
    set (e' := Z.max (Z.pos (digits2_pos m) + e - 26) (-149)).
    set (W := Z.pos m * 2 ^ (e - e')).
    assert (He' : -149 <= e' <= e) by (subst e'; lia).
    assert (Hp : 0 < 2 ^ (e - e')) by (apply pow2_pos; lia).
    assert (HW : 0 < W) by (subst W; nia).
    assert (Hq0 : 0 <= W / 2) by (apply Z.div_pos; lia).
    assert (Hcan : e' <= fexp F32.prec F32.emax (Zdigits2 (W / 2) + e')).
    { rewrite fexp32. destruct (Z.eq_dec e' (-149)) as [E|E]; [lia|].
      assert (Ee : e - e' = 26 - Z.pos (digits2_pos m)) by (subst e'; lia).
      assert (2 ^ 23 <= W / 2).
      { apply Z.div_le_lower_bound; [lia|].
        pose proof (digits2_pos_lower m) as Hl.
        subst W. rewrite Ee.
        assert (Hpp : 0 < 2 ^ (26 - Z.pos (digits2_pos m)))
          by (apply pow2_pos; lia).
        change (2 * 2 ^ 23) with (2 ^ 24).
        replace 24 with ((Z.pos (digits2_pos m) - 1)
                         + (25 - Z.pos (digits2_pos m))) at 1 by lia.
        rewrite (pow2_add (Z.pos (digits2_pos m) - 1)) by lia.
        assert (2 ^ (25 - Z.pos (digits2_pos m))
                <= 2 ^ (26 - Z.pos (digits2_pos m)))
          by (apply pow2_le; lia).
        assert (0 < 2 ^ (25 - Z.pos (digits2_pos m)))
          by (apply pow2_pos; lia).
        nia. }
      pose proof (Zdigits2_ge_24 _ H). lia. }
    destruct (binary_round_aux_rnd (xorb s false) (W / 2) (Z.odd W) e'
                Hq0 ltac:(lia) Hcan) as (R & HR & Hv & Hnan & Hord).
    split; [exact Hv|]. split; [exact Hnan|].
    assert (HV : (2 * (W / 2) + half_bit (Z.odd W)) * 2 ^ (e' + 149)
                 = Z.pos m * 2 ^ (e + 149)).
    { replace (2 * (W / 2) + half_bit (Z.odd W)) with W.
      2:{ rewrite (Z.div_mod W 2) at 1 by lia. rewrite Zmod_odd.
          destruct (Z.odd W); reflexivity. }
      subst W. replace (e + 149) with ((e - e') + (e' + 149)) by lia.
      rewrite (pow2_add (e - e') (e' + 149)) by lia. ring. }
    rewrite HV in HR.
    assert (Hp2 : 0 < 2 ^ (e + 149)) by (apply pow2_pos; lia).
    assert (Hhalf : ord (S754_finite s m e) / 2
                    = sgn s * (Z.pos m * 2 ^ (e + 149))).
    { cbn [ord]. unfold mag. replace (e + 150) with (e + 149 + 1) by lia.
      rewrite pow2_succ by lia.
      replace (sgn s * (Z.pos m * (2 * 2 ^ (e + 149))))
        with (sgn s * (Z.pos m * 2 ^ (e + 149)) * 2) by ring.
      apply Z.div_mul. lia. }
    rewrite Hhalf. exists R. split.
    + replace (Z.abs (sgn s * (Z.pos m * 2 ^ (e + 149))))
        with (Z.pos m * 2 ^ (e + 149)); [exact HR|].
      destruct s; unfold sgn; nia.
    + rewrite Hord. rewrite xorb_false_r. f_equal.
      destruct s; unfold sgn; [rewrite Z.sgn_neg|rewrite Z.sgn_pos]; nia.
Qed.

Lemma div_two_infinity s :
  F32.div (S754_infinity s) F32.two = S754_infinity s.
Proof. destruct s; reflexivity. Qed.

Lemma div_two_valid y :
  valid_binary F32.prec F32.emax y = true ->
  F32.is_nan y = false ->
  valid_binary F32.prec F32.emax (F32.div y F32.two) = true /\
  F32.is_nan (F32.div y F32.two) = false.
Proof.
  intros Hy Ny. destruct (F32.is_finite y) eqn:Fy.
  - destruct (div_two_srnd y Hy Fy) as (Hv & Hn & _). auto.
  - destruct y; try discriminate. rewrite div_two_infinity. auto.
Qed.

Lemma div_two_mono y y' :
  valid_binary F32.prec F32.emax y = true ->
  valid_binary F32.prec F32.emax y' = true ->
  F32.is_nan y = false -> F32.is_nan y' = false ->
  ord y <= ord y' ->
  ord (F32.div y F32.two) <= ord (F32.div y' F32.two).
Proof.
  intros Hy Hy' Ny Ny' Hle. pose proof LIM_pos as HL.
  destruct (ord_bound y Hy) as [By Fy].
  destruct (ord_bound y' Hy') as [By' Fy'].
  destruct (div_two_valid y Hy Ny) as [Hz _].
  destruct (div_two_valid y' Hy' Ny') as [Hz' _].
  destruct (ord_bound _ Hz) as [Bz _].
  destruct (ord_bound _ Hz') as [Bz' _].
  destruct (F32.is_finite y) eqn:Ey; destruct (F32.is_finite y') eqn:Ey'.
  - destruct (div_two_srnd y Hy Ey) as (_ & _ & Hs).
    destruct (div_two_srnd y' Hy' Ey') as (_ & _ & Hs').
    apply (srnd_mono (ord y / 2) (ord y' / 2)); auto.
    apply Z.div_le_mono; lia.
  - destruct y' as [|s'| |]; try discriminate.
    rewrite div_two_infinity. specialize (Fy eq_refl).
    destruct s'; cbn [ord] in *; unfold sgn in *; lia.
  - destruct y as [|s| |]; try discriminate.
    rewrite div_two_infinity. specialize (Fy' eq_refl).
    destruct s; cbn [ord] in *; unfold sgn in *; lia.
  - destruct y as [|s| |]; try discriminate.
    destruct y' as [|s'| |]; try discriminate.
    rewrite !div_two_infinity. exact Hle.
Qed.

(** *** The average with a fixed number *)

Lemma add_valid x n :
  valid_binary F32.prec F32.emax x = true ->
  valid_binary F32.prec F32.emax n = true ->
  F32.is_finite x = true -> F32.is_nan n = false ->
  valid_binary F32.prec F32.emax (F32.add x n) = true /\
  F32.is_nan (F32.add x n) = false.
Proof.
  intros Hx Hn Fx Nn. destruct (F32.is_finite n) eqn:Fn.
  - destruct (add_srnd x n Hx Hn Fx Fn) as (Hv & Hnan & _). auto.
  - destruct n; try discriminate. rewrite add_infinity by exact Fx. auto.
Qed.

Lemma average_valid x n :
  valid_binary F32.prec F32.emax x = true ->
  valid_binary F32.prec F32.emax n = true ->
  F32.is_finite x = true -> F32.is_nan n = false ->
  valid_binary F32.prec F32.emax (average n x) = true /\
  F32.is_nan (average n x) = false.
Proof.
  intros Hx Hn Fx Nn. destruct (add_valid x n Hx Hn Fx Nn) as [Hv Hnan].
  apply div_two_valid; assumption.
Qed.

(** Line 104 keeps [<=]: adding [n] and halving is monotone. *)
Lemma average_mono x x' n :
  valid_binary F32.prec F32.emax x = true ->
  valid_binary F32.prec F32.emax x' = true ->
  valid_binary F32.prec F32.emax n = true ->
  F32.is_finite x = true -> F32.is_finite x' = true ->
  F32.is_nan n = false ->
  F32.leb x x' = true ->
  F32.leb (average n x) (average n x') = true.
Proof.
  intros Hx Hx' Hn Fx Fx' Nn Hle.
  assert (Nx : F32.is_nan x = false) by (destruct x; auto; discriminate).
  assert (Nx' : F32.is_nan x' = false) by (destruct x'; auto; discriminate).
  rewrite (leb_ord x x' Hx Hx' Nx Nx') in Hle. apply Z.leb_le in Hle.
  destruct (average_valid x n Hx Hn Fx Nn) as [Ha Na].
  destruct (average_valid x' n Hx' Hn Fx' Nn) as [Ha' Na'].
  rewrite (leb_ord _ _ Ha Ha' Na Na'). apply Z.leb_le.
  destruct (add_valid x n Hx Hn Fx Nn) as [Hy Ny].
  destruct (add_valid x' n Hx' Hn Fx' Nn) as [Hy' Ny'].
  unfold average. apply div_two_mono; auto.
  destruct (F32.is_finite n) eqn:Fn.
  - destruct (add_srnd x n Hx Hn Fx Fn) as (_ & _ & Hs).
    destruct (add_srnd x' n Hx' Hn Fx' Fn) as (_ & _ & Hs').
    apply (srnd_mono (ord x + ord n) (ord x' + ord n)); auto. lia.
  - destruct n; try discriminate. rewrite !add_infinity by assumption. lia.
Qed.

End RoundingFacts.

(** ** Labels and fusion *)

Lemma class_label_at k :
  (k < 7)%nat ->
  exists label,
    nth_error CLASS_LABELS k = Some label /\
    In label CLASS_LABELS /\ label <> "Unknown".
Proof.
  intros Hk.
  do 7 (destruct k as [|k];
        [eexists; split; [reflexivity|];
         split; [simpl; tauto | discriminate] |]).
  lia.
Qed.

Section FusionFacts.
Variable float_of_str : string -> option F64.t.
Variable float_repr : F64.t -> string.

Lemma fallback_returns_str cnn_probs nlp_pred e :
  py_float float_of_str nlp_pred = inl e ->
  exc_kind e = ValueError \/ exc_kind e = TypeError ->
  fusion float_of_str float_repr cnn_probs nlp_pred
    = inr (py_str float_repr nlp_pred).
Proof.
  intros H Hk. unfold fusion, fusion_try. rewrite H. simpl.
  destruct Hk as [-> | ->]; reflexivity.
Qed.


Lemma numeric_returns_label cnn_probs nlp_pred N :
  List.length cnn_probs = 7%nat ->
  py_float float_of_str nlp_pred = inr N ->
  exists k label,
    np_argmax (combine cnn_probs N) = inr k /\
    nth_error CLASS_LABELS k = Some label /\
    fusion float_of_str float_repr cnn_probs nlp_pred = inr label.
Proof.
  intros Hlen H. unfold fusion, fusion_try. rewrite H. simpl.
  destruct (np_argmax_total (combine cnn_probs N)) as [k Hk].
  { unfold combine. destruct cnn_probs; simpl; [discriminate Hlen|congruence]. }
  pose proof (np_argmax_lt _ _ Hk) as Hlt.
  unfold combine in Hlt. rewrite length_map, Hlen in Hlt.
  destruct (class_label_at k Hlt) as (label & Hl & _).
  exists k, label. rewrite Hk. simpl. unfold list_getitem. rewrite Hl.
  auto.
Qed.

Lemma fusion_returns cnn_probs nlp_pred :
  List.length cnn_probs = 7%nat ->
  (forall e, py_float float_of_str nlp_pred = inl e ->
             exc_kind e = ValueError \/ exc_kind e = TypeError) ->
  exists label,
    fusion float_of_str float_repr cnn_probs nlp_pred = inr label.
Proof.
  intros Hlen Hcaught.
  destruct (py_float float_of_str nlp_pred) as [e|N] eqn:H.
  - eexists. eapply fallback_returns_str; eauto.
  - destruct (numeric_returns_label _ _ _ Hlen H) as (k & label & _ & _ & Hf).
    eauto.
Qed.
End FusionFacts.

(** ** The handler on a run *)

Section RunFacts.
Variable rt : Runtime.

Lemma predict_try_returns req w (r : Run rt) :
  run_returns rt req w r -> fst (predict_try rt req w) = reply r.
Proof.
  intros (Hm & Hf & Hs & Hr & Hseg & Hmask & Hcls & Hnlp & Hp0 & Hov & Hrender).
  unfold run_path, run_orig, input_row in *.
  unfold predict_try. rewrite Hf.
  cbv beta zeta delta [bind save imread].
  rewrite Hs. cbv beta iota. cbn [fs]. rewrite Hr.
  cbv beta iota zeta delta [pipeline bind call lift ret].
  rewrite Hseg. cbv beta iota. rewrite Hmask. cbv beta iota.
  rewrite Hcls. cbv beta iota.
  unfold reply, rbind.
  destruct (np_argmax (run_probs r)) as [e|top_idx]; [reflexivity|].
  cbv beta iota.
  destruct (top_class_label_of top_idx) as [e|top_class_label];
    [reflexivity|].
  cbv beta iota.
  destruct (ndarray_getitem (run_probs r) top_idx) as [e|top_class_conf];
    [reflexivity|].
  cbv beta iota.
  destruct (all_class_probs (run_probs r)) as [e|all_class_probs_str];
    [reflexivity|].
  cbv beta iota. rewrite Hnlp. cbv beta iota.
  unfold ndarray_getitem at 1. rewrite Hp0. unfold ok. cbv beta iota.
  destruct (fusion (float_of_str rt) (float_repr rt) (run_probs r) (run_pred r))
    as [e|final_label]; [reflexivity|].
  cbv beta iota. rewrite Hov. cbv beta iota. rewrite Hrender.
  reflexivity.
Qed.

Lemma predict_try_run req w (r : Run rt) :
  run_ok rt req w r -> fst (predict_try rt req w) = reply r.
Proof. intros [H _]. apply predict_try_returns. exact H. Qed.

Lemma str_coercion_caught s : coercion_caught rt (PyStr s).
Proof.
  intros e. simpl. destruct (float_of_str rt s); [discriminate|].
  intros H; injection H as <-. auto.
Qed.

Lemma float_coercion_caught x : coercion_caught rt (PyFloat x).
Proof. intros e. simpl. discriminate. Qed.

Lemma predict_post req w :
  method req = POST ->
  fst (predict rt req w)
  = match fst (predict_try rt req w) with
    | inr response => response
    | inl e => jsonify [("error", exc_str e)] 500
    end.
Proof.
  intros Hm. unfold predict. rewrite Hm.
  destruct (predict_try rt req w) as [[e|response] w']; reflexivity.
Qed.

Lemma all_class_probs_seven cnn_probs :
  List.length cnn_probs = 7%nat ->
  all_class_probs cnn_probs
  = inr (String.concat ", "
           (map (fun lp => fst lp ++ ": " ++ format_f 4 (snd lp))
                (List.combine CLASS_LABELS cnn_probs))).
Proof.
  intros Hlen.
  do 7 (destruct cnn_probs as [|? cnn_probs]; [discriminate Hlen|]).
  destruct cnn_probs; [reflexivity | discriminate Hlen].
Qed.

(** With a length-7 probability vector every pure step of the reply
    returns, so a run ends in the success reply. *)
Lemma predict_run_success req w (r : Run rt) :
  run_ok rt req w r ->
  List.length (run_probs r) = 7%nat ->
  exists top_idx top_class_label top_class_conf final_label,
    np_argmax (run_probs r) = inr top_idx /\
    nth_error CLASS_LABELS top_idx = Some top_class_label /\
    nth_error (run_probs r) top_idx = Some top_class_conf /\
    fusion (float_of_str rt) (float_repr rt) (run_probs r) (run_pred r)
      = inr final_label /\
    fst (predict rt req w)
    = jsonify
        [("plot_image", "data:image/png;base64," ++ run_png r);
         ("cnn_output",
          "Predicted Class: " ++ top_class_label ++ " (Confidence: "
            ++ format_f 2 top_class_conf ++ ")");
         ("all_class_probabilities",
          String.concat ", "
            (map (fun lp => fst lp ++ ": " ++ format_f 4 (snd lp))
                 (List.combine CLASS_LABELS (run_probs r))));
         ("nlp_output",
          "NLP Prediction: " ++ py_str (float_repr rt) (run_pred r));
         ("segmentation_output", "U-Net Segmentation Applied");
         ("final_output", final_output_prefix ++ final_label)]
        200.
Proof.
  intros Hrun Hlen.
  destruct (np_argmax_total (run_probs r)) as [top_idx Hidx].
  { destruct (run_probs r); [discriminate Hlen | congruence]. }
  pose proof (np_argmax_lt _ _ Hidx) as Hlt. rewrite Hlen in Hlt.
  destruct (class_label_at top_idx Hlt) as (label & Hlabel & _).
  destruct (nth_error (run_probs r) top_idx) as [conf|] eqn:Hconf.
  2:{ apply nth_error_None in Hconf. lia. }
  destruct (fusion_returns (float_of_str rt) (float_repr rt)
              (run_probs r) (run_pred r) Hlen (proj2 Hrun))
    as [final_label Hfus].
  exists top_idx, label, conf, final_label.
  repeat split; auto.
  rewrite predict_post by apply Hrun.
  rewrite (predict_try_run req w r Hrun).
  unfold reply. cbv zeta. rewrite Hidx. cbv [rbind].
  unfold top_class_label_of.
  replace (top_idx <? List.length CLASS_LABELS)%nat with true
    by (symmetry; apply Nat.ltb_lt; exact Hlt).
  unfold list_getitem. rewrite Hlabel. unfold ok. cbv beta iota.
  unfold ndarray_getitem. rewrite Hconf. cbv beta iota.
  rewrite (all_class_probs_seven _ Hlen). cbv beta iota.
  rewrite Hfus. reflexivity.
Qed.

(** Conversely, every success reply to a POST comes from a run: the
    hypotheses of [run_ok] are what a 200 needs. *)
Lemma success_comes_from_a_run req (w w' : World rt) response :
  method req = POST ->
  predict rt req w = (response, w') ->
  status response = 200%nat ->
  exists r, run_ok rt req w r /\ reply r = inr response.
Proof.
  intros Hm H Hs. unfold predict in H. rewrite Hm in H.
  destruct (predict_try rt req w) as [[e|resp] w''] eqn:Htry.
  { injection H as <- _. discriminate Hs. }
  injection H as -> ->.
  unfold predict_try in Htry.
  destruct (assoc "image" (files req)) as [image_file|] eqn:Hfile.
  2:{ injection Htry as <- _. discriminate Hs. }
  cbv beta zeta delta [bind save imread] in Htry.
  destruct (file_save rt (fs w) _ _) as [e|fs1] eqn:Hsave;
    [discriminate Htry|].
  cbv beta iota in Htry. cbn [fs] in Htry.
  destruct (cv2_imread rt fs1 _) as [decoded|] eqn:Hread;
    [|discriminate Htry].
  cbv beta iota zeta delta [pipeline bind call lift ret] in Htry.
  do 12 raise_or_return Htry.
  cbv beta iota in Htry. injection Htry as <- _.
  rename E into Hseg, E0 into Hmask, E1 into Hcls, E2 into Hidx,
    E3 into Hlabel, E4 into Hconf, E5 into Hstr, E6 into Hnlp,
    E7 into Hpred, E8 into Hfus, E9 into Hoverlay, E10 into Hplot.
  assert (Hp0 : nth_error l0 0 = Some p).
  { unfold ndarray_getitem in Hpred.
    destruct (nth_error l0 0); [|discriminate Hpred].
    injection Hpred as ->. reflexivity. }
  exists (mkRun rt image_file fs1 decoded m t l l0 p i s2). split.
  - split.
    + unfold run_returns, run_path, run_orig, input_row.
      cbn [run_file run_fs run_decoded run_mask run_masked run_probs
           run_preds run_pred run_overlay run_png].
      repeat split; assumption.
    + cbn [run_pred]. intros e He.
      unfold fusion, fusion_try in Hfus. rewrite He in Hfus.
      cbv [rbind] in Hfus. destruct (exc_kind e); auto; discriminate Hfus.
  - unfold reply. cbn [run_probs run_pred run_png]. cbv zeta.
    rewrite Hidx. cbv [rbind]. rewrite Hlabel, Hconf, Hstr, Hfus.
    reflexivity.
Qed.
End RunFacts.

(** ** The stub scenario *)

Lemma stub_run_returns pred :
  run_returns (Stub.runtime pred) Stub.request (Stub.world pred)
              (Stub.run pred).
Proof. repeat split; reflexivity. Qed.

Lemma stub_run_ok pred :
  coercion_caught (Stub.runtime pred) pred ->
  run_ok (Stub.runtime pred) Stub.request (Stub.world pred) (Stub.run pred).
Proof. intros H. split; [apply stub_run_returns | exact H]. Qed.

(** ** Fusion laws *)

(** C1: when [float(nlp_pred)] returns [N], the request succeeds and the
    label in [final_output] is the entry of [CLASS_LABELS] at the argmax
    (first NaN, else first maximum) of [(cnn_probs + N) / 2], computed in
    float32 over the length-7 probability vector. *)
Theorem fusion_numeric_law rt req w (r : Run rt) N :
  run_ok rt req w r ->
  List.length (run_probs r) = 7%nat ->
  py_float (float_of_str rt) (run_pred r) = inr N ->
  let combined_pred :=
    map (fun p => F32.div (F32.add p (F64.to_f32 N)) F32.two) (run_probs r) in
  exists k label,
    np_argmax combined_pred = inr k /\
    first_max combined_pred k /\
    nth_error CLASS_LABELS k = Some label /\
    status (fst (predict rt req w)) = 200%nat /\
    json_get "final_output" (fst (predict rt req w))
      = Some (final_output_prefix ++ label).
Proof.
  intros Hrun Hlen HN combined_pred.
  destruct (predict_run_success rt req w r Hrun Hlen)
    as (top_idx & top_label & conf & final_label & _ & _ & _ & Hfus & Hresp).
  destruct (numeric_returns_label (float_of_str rt) (float_repr rt) _ _ _ Hlen HN)
    as (k & label & Hk & Hlabel & Hfus').
  rewrite Hfus in Hfus'. injection Hfus' as ->.
  exists k, label. fold (combine (run_probs r) N) in combined_pred.
  repeat split; auto.
  - apply np_argmax_first_max. exact Hk.
  - rewrite Hresp. reflexivity.
  - rewrite Hresp. reflexivity.
Qed.

Lemma fusion_numeric_law_witness :
  let rt := Stub.runtime (PyFloat Stub.f64_0_2) in
  let w := Stub.world (PyFloat Stub.f64_0_2) in
  run_ok rt Stub.request w (Stub.run (PyFloat Stub.f64_0_2)) /\
  exists k label,
    np_argmax
      (map (fun p => F32.div (F32.add p (F64.to_f32 Stub.f64_0_2)) F32.two)
           Stub.probs) = inr k /\
    first_max
      (map (fun p => F32.div (F32.add p (F64.to_f32 Stub.f64_0_2)) F32.two)
           Stub.probs) k /\
    nth_error CLASS_LABELS k = Some label /\
    status (fst (predict rt Stub.request w)) = 200%nat /\
    json_get "final_output" (fst (predict rt Stub.request w))
      = Some (final_output_prefix ++ label).
Proof.
  split.
  - apply stub_run_ok, float_coercion_caught.
  - apply (fusion_numeric_law (Stub.runtime (PyFloat Stub.f64_0_2))
             Stub.request (Stub.world (PyFloat Stub.f64_0_2))
             (Stub.run (PyFloat Stub.f64_0_2)) Stub.f64_0_2).
    + apply stub_run_ok, float_coercion_caught.
    + reflexivity.
    + reflexivity.
Defined.

(** C2, as stated, fails on the stub scenario with the categorical
    prediction ["mel"]: [float("mel")] raises, the request succeeds, and
    [final_output] is the fixed sentence followed by ["mel"], not ["mel"]. *)
Lemma fallback_final_output_not_verbatim :
  let rt := Stub.runtime (PyStr "mel") in
  let w := Stub.world (PyStr "mel") in
  run_ok rt Stub.request w (Stub.run (PyStr "mel")) /\
  (exists e, py_float (float_of_str rt) (PyStr "mel") = inl e) /\
  status (fst (predict rt Stub.request w)) = 200%nat /\
  json_get "final_output" (fst (predict rt Stub.request w))
    <> Some (py_str (float_repr rt) (PyStr "mel")).
Proof.
  split; [apply stub_run_ok, str_coercion_caught|].
  split; [eexists; reflexivity|].
  split; [reflexivity|].
  vm_compute. discriminate.
Qed.

(** C2, amended: when [float(nlp_pred)] raises (a [ValueError] or a
    [TypeError], the exceptions line 107 catches: [run_ok] has no run on
    which it raises another), the request succeeds, [final_output] is
    the fixed sentence "This disease is most probably classified as: "
    followed by [str(nlp_pred)] verbatim, and the label does not depend
    on the classification probabilities. *)
Theorem fusion_fallback_law rt req w (r : Run rt) e :
  run_ok rt req w r ->
  List.length (run_probs r) = 7%nat ->
  py_float (float_of_str rt) (run_pred r) = inl e ->
  status (fst (predict rt req w)) = 200%nat /\
  json_get "final_output" (fst (predict rt req w))
    = Some (final_output_prefix ++ py_str (float_repr rt) (run_pred r)) /\
  forall any_probs,
    fusion (float_of_str rt) (float_repr rt) any_probs (run_pred r)
      = inr (py_str (float_repr rt) (run_pred r)).
Proof.
  intros Hrun Hlen He.
  destruct (predict_run_success rt req w r Hrun Hlen)
    as (top_idx & top_label & conf & final_label & _ & _ & _ & Hfus & Hresp).
  pose proof (proj2 Hrun e He) as Hkind.
  rewrite (fallback_returns_str _ _ _ _ _ He Hkind) in Hfus.
  injection Hfus as <-.
  rewrite Hresp. repeat split.
  intros any_probs. apply (fallback_returns_str _ _ _ _ _ He Hkind).
Qed.

Lemma fusion_fallback_law_witness :
  let rt := Stub.runtime (PyStr "mel") in
  let w := Stub.world (PyStr "mel") in
  status (fst (predict rt Stub.request w)) = 200%nat /\
  json_get "final_output" (fst (predict rt Stub.request w))
    = Some "This disease is most probably classified as: mel" /\
  forall any_probs,
    fusion (float_of_str rt) (float_repr rt) any_probs (PyStr "mel")
      = inr "mel".
Proof.
  apply (fusion_fallback_law (Stub.runtime (PyStr "mel")) Stub.request
           (Stub.world (PyStr "mel")) (Stub.run (PyStr "mel"))
           (mkExc ValueError "could not convert string to float: 'mel'")).
  - apply stub_run_ok, str_coercion_caught.
  - reflexivity.
  - reflexivity.
Defined.




(** ** The two error replies *)

(** C4: a POST request without a file field named "image" is answered
    with status 400 and a JSON body that has an "error" key; the world is
    left as it was, so no collaborator (and no model) was invoked. *)
Theorem missing_image_is_400 rt req (w : World rt) :
  method req = POST ->
  assoc "image" (files req) = None ->
  status (fst (predict rt req w)) = 400%nat /\
  json_get "error" (fst (predict rt req w)) = Some "No image provided" /\
  snd (predict rt req w) = w /\
  filter is_model_call (calls (snd (predict rt req w)))
    = filter is_model_call (calls w).
Proof.
  intros Hm Hfiles.
  assert (H : predict rt req w
              = (jsonify [("error", "No image provided")] 400, w)).
  { unfold predict, predict_try. rewrite Hm, Hfiles. reflexivity. }
  rewrite H. repeat split.
Qed.

Lemma missing_image_is_400_witness :
  let rt := Stub.runtime (PyStr "mel") in
  let req := mkRequest POST [("photo", mkFile "lesion.png" [x10; x80; xff])]
                       [("age", "45")] in
  let w := Stub.world (PyStr "mel") in
  status (fst (predict rt req w)) = 400%nat /\
  json_get "error" (fst (predict rt req w)) = Some "No image provided" /\
  snd (predict rt req w) = w /\
  filter is_model_call (calls (snd (predict rt req w)))
    = filter is_model_call (calls w).
Proof.
  apply (missing_image_is_400 (Stub.runtime (PyStr "mel"))
           (mkRequest POST [("photo", mkFile "lesion.png" [x10; x80; xff])]
                      [("age", "45")])
           (Stub.world (PyStr "mel"))).
  - reflexivity.
  - reflexivity.
Defined.

(** C5: when the stored upload decodes to no image data ([cv2.imread]
    returns [None]), the body of the [try] raises, the exception reaches
    the outer [except], and the reply is a 500 whose "error" value is
    [str(e)]: here the [ValueError] text with the path.  No model is
    invoked. *)
Theorem unreadable_image_is_500 rt req (w : World rt) image_file fs1 :
  method req = POST ->
  assoc "image" (files req) = Some image_file ->
  let image_path := os_path_join UPLOAD_FOLDER (filename image_file) in
  file_save rt (fs w) image_path (content image_file) = inr fs1 ->
  cv2_imread rt fs1 image_path = None ->
  exists e w',
    predict_try rt req w = (inl e, w') /\
    exc_kind e = ValueError /\
    exc_str e = "Could not read image from path: " ++ image_path /\
    predict rt req w = (jsonify [("error", exc_str e)] 500, w') /\
    status (fst (predict rt req w)) = 500%nat /\
    json_get "error" (fst (predict rt req w)) = Some (exc_str e) /\
    filter is_model_call (calls w') = filter is_model_call (calls w).
Proof.
  intros Hm Hfiles image_path Hsave Hread.
  assert (Htry :
    predict_try rt req w
    = (inl (mkExc ValueError ("Could not read image from path: " ++ image_path)),
       mkWorld rt fs1
         ((calls w ++ [CallSave image_path]) ++ [CallImread image_path])%list)).
  { unfold predict_try. rewrite Hfiles.
    cbv beta zeta delta [bind save imread].
    fold image_path. rewrite Hsave. cbv beta iota. cbn [fs calls log].
    rewrite Hread. reflexivity. }
  assert (Hp :
    predict rt req w
    = (jsonify [("error", "Could not read image from path: " ++ image_path)] 500,
       mkWorld rt fs1
         ((calls w ++ [CallSave image_path]) ++ [CallImread image_path])%list)).
  { unfold predict. rewrite Hm, Htry. reflexivity. }
  eexists. eexists. split; [exact Htry|].
  rewrite Hp. cbn [exc_kind exc_str fst snd calls].
  repeat split.
  rewrite !filter_app. simpl. rewrite !app_nil_r. reflexivity.
Qed.

Lemma unreadable_image_is_500_witness :
  let rt := Stub.runtime (PyStr "mel") in
  let req := mkRequest POST [("image", mkFile "notes.txt" [x68; x69])] [] in
  let w := Stub.world (PyStr "mel") in
  exists e w',
    predict_try rt req w = (inl e, w') /\
    exc_kind e = ValueError /\
    exc_str e = "Could not read image from path: uploads/notes.txt" /\
    predict rt req w = (jsonify [("error", exc_str e)] 500, w') /\
    status (fst (predict rt req w)) = 500%nat /\
    json_get "error" (fst (predict rt req w)) = Some (exc_str e) /\
    filter is_model_call (calls w') = filter is_model_call (calls w).
Proof.
  apply (unreadable_image_is_500 (Stub.runtime (PyStr "mel"))
           (mkRequest POST [("image", mkFile "notes.txt" [x68; x69])] [])
           (Stub.world (PyStr "mel"))
           (mkFile "notes.txt" [x68; x69])
           [("uploads/notes.txt", [x68; x69])]).
  - reflexivity.
  - reflexivity.
  - reflexivity.
  - reflexivity.
Defined.

(** ** The top class *)

(** C9: on a length-7 probability vector [np.argmax] returns an index
    below [len(CLASS_LABELS)], so line 86 takes the list entry: the top
    class label is one of the seven labels and is never "Unknown". *)
Theorem top_class_in_range cnn_probs :
  List.length cnn_probs = 7%nat ->
  exists top_idx top_class_label,
    np_argmax cnn_probs = inr top_idx /\
    (top_idx <? List.length CLASS_LABELS)%nat = true /\
    top_class_label_of top_idx = inr top_class_label /\
    nth_error CLASS_LABELS top_idx = Some top_class_label /\
    In top_class_label CLASS_LABELS /\
    top_class_label <> "Unknown".
Proof.
  intros Hlen.
  destruct (np_argmax_total cnn_probs) as [top_idx Hidx].
  { destruct cnn_probs; [discriminate Hlen | congruence]. }
  pose proof (np_argmax_lt _ _ Hidx) as Hlt. rewrite Hlen in Hlt.
  destruct (class_label_at top_idx Hlt) as (label & Hlabel & Hin & Hne).
  assert (Hb : (top_idx <? List.length CLASS_LABELS)%nat = true)
    by (apply Nat.ltb_lt; exact Hlt).
  exists top_idx, label. repeat split; auto.
  unfold top_class_label_of. rewrite Hb.
  unfold list_getitem. rewrite Hlabel. reflexivity.
Qed.

Lemma top_class_in_range_witness :
  exists top_idx top_class_label,
    np_argmax Stub.probs = inr top_idx /\
    (top_idx <? List.length CLASS_LABELS)%nat = true /\
    top_class_label_of top_idx = inr top_class_label /\
    nth_error CLASS_LABELS top_idx = Some top_class_label /\
    In top_class_label CLASS_LABELS /\
    top_class_label <> "Unknown".
Proof.
  apply (top_class_in_range Stub.probs). reflexivity.
Defined.

(** C10, as stated, fails on the stub scenario when the metadata model
    predicts the number 1e10: every float32 sum [p + 1e10] rounds to 1e10,
    the averaged vector is constant, its argmax is index 0, and the fused
    label is "bkl" while the top class of the classifier is "nv". *)
Lemma fusion_changes_class_at_1e10 :
  let pred := PyFloat (F64.of_Z 10000000000) in
  let rt := Stub.runtime pred in
  let w := Stub.world pred in
  run_ok rt Stub.request w (Stub.run pred) /\
  List.length Stub.probs = 7%nat /\
  py_float (float_of_str rt) pred = inr (F64.of_Z 10000000000) /\
  np_argmax Stub.probs = inr 1%nat /\
  np_argmax (combine Stub.probs (F64.of_Z 10000000000)) = inr 0%nat /\
  json_get "cnn_output" (fst (predict rt Stub.request w))
    = Some "Predicted Class: nv (Confidence: 0.60)" /\
  json_get "final_output" (fst (predict rt Stub.request w))
    = Some "This disease is most probably classified as: bkl" /\
  json_get "final_output" (fst (predict rt Stub.request w))
    <> Some "This disease is most probably classified as: nv".
Proof.
  split; [apply stub_run_ok, float_coercion_caught|].
  repeat split; try reflexivity.
  vm_compute. discriminate.
Qed.

(** A NaN prediction ([float("nan")] parses) makes every average NaN, and
    the fused label is then always the first label. *)
Lemma combine_nan_argmax cnn_probs N :
  cnn_probs <> [] ->
  F32.is_nan (F64.to_f32 N) = true ->
  np_argmax (combine cnn_probs N) = inr 0%nat.
Proof.
  intros Hne Hnan. destruct cnn_probs as [|p rest]; [congruence|].
  unfold combine. simpl.
  destruct (F64.to_f32 N); try discriminate Hnan.
  destruct p; reflexivity.
Qed.

(** The same happens with a moderate number and two adjacent float32
    probabilities: with [N = 0.2] the sums [0.1 + N] and
    [nextafter(0.1) + N] round to the same float32, the larger second
    entry no longer stands out, and the argmax moves from 1 to 0. *)
Remark fusion_changes_class_on_adjacent_floats :
  let p0 := S754_finite false 13421773 (-27) in
  let p1 := S754_finite false 13421774 (-27) in
  let cnn_probs := [p0; p1; Stub.q 5 100; Stub.q 5 100; Stub.q 5 100;
                    Stub.q 5 100; Stub.q 5 100] in
  p0 = Stub.q 1 10 /\
  F32.ltb p0 p1 = true /\
  np_argmax cnn_probs = inr 1%nat /\
  np_argmax (combine cnn_probs Stub.f64_0_2) = inr 0%nat.
Proof. repeat split. Qed.

Lemma to_f32_valid N : valid_binary F32.prec F32.emax (F64.to_f32 N) = true.
Proof.
  destruct N as [s|s| |s m e]; try reflexivity.
  unfold F64.to_f32. destruct s; cbn [binary_normalize];
    apply binary_round_valid.
Qed.

Lemma average_nan n p : F32.is_nan n = true -> average n p = S754_nan.
Proof. destruct n; try discriminate. intros _. destruct p; reflexivity. Qed.

Lemma combine_average cnn_probs N :
  combine cnn_probs N = map (average (F64.to_f32 N)) cnn_probs.
Proof. reflexivity. Qed.

Lemma ltb_leb_absurd x y :
  valid_binary F32.prec F32.emax x = true ->
  valid_binary F32.prec F32.emax y = true ->
  F32.is_nan x = false -> F32.is_nan y = false ->
  F32.ltb x y = true -> F32.leb y x = true -> False.
Proof.
  intros Hx Hy Nx Ny Hlt Hle.
  rewrite (ltb_ord x y Hx Hy Nx Ny) in Hlt.
  rewrite (leb_ord y x Hy Hx Ny Nx) in Hle.
  apply Z.ltb_lt in Hlt. apply Z.leb_le in Hle. lia.
Qed.

(** The argmax after averaging with [n]: never after the argmax before,
    and the same exactly when every earlier average is strictly below
    the average of the top entry. *)
Lemma fused_index (cnn_probs : list F32.t) (n : F32.t) top k
      (p_top : F32.t) :
  Forall (fun p : F32.t => valid_binary F32.prec F32.emax p = true
                   /\ F32.is_finite p = true) cnn_probs ->
  valid_binary F32.prec F32.emax n = true ->
  np_argmax cnn_probs = inr top ->
  nth_error cnn_probs top = Some p_top ->
  np_argmax (map (average n) cnn_probs) = inr k ->
  (k <= top)%nat /\
  (k = top <->
   forall j p, (j < top)%nat -> nth_error cnn_probs j = Some p ->
               F32.ltb (average n p) (average n p_top) = true).
Proof.
  intros Hprobs Hn Htop Hp_top Hk.
  rewrite Forall_forall in Hprobs.
  destruct (F32.is_nan n) eqn:Nn.
  - (* every average is NaN *)
    assert (Hk0 : k = 0%nat).
    { destruct cnn_probs as [|p0 rest]; [discriminate Htop|].
      simpl in Hk. rewrite (average_nan n p0 Nn) in Hk. simpl in Hk.
      injection Hk as <-. reflexivity. }
    subst k. split; [lia|]. split.
    + intros <- j p Hj. lia.
    + intros H. destruct top as [|top]; [reflexivity|]. exfalso.
      destruct cnn_probs as [|p0 rest]; [discriminate Htop|].
      specialize (H 0%nat p0 ltac:(lia) eq_refl).
      rewrite (average_nan n p0 Nn) in H. discriminate H.
  - pose proof (np_argmax_first_max _ _ Htop) as (x & Hx & _ & Hmax).
    rewrite Hp_top in Hx. injection Hx as <-.
    assert (Hvt : valid_binary F32.prec F32.emax p_top = true
                  /\ F32.is_finite p_top = true)
      by (apply Hprobs; eapply nth_error_In; eauto).
    destruct Hvt as [Vt Ft].
    destruct Hmax as [Hle_top _]; [destruct p_top; auto; discriminate|].
    pose proof (np_argmax_first_max _ _ Hk) as (a & Ha & _ & Hmaxk).
    destruct (nth_error cnn_probs k) as [p_k|] eqn:Hp_k.
    2:{ rewrite nth_error_map, Hp_k in Ha. discriminate Ha. }
    rewrite nth_error_map, Hp_k in Ha. injection Ha as <-.
    assert (Hvk : valid_binary F32.prec F32.emax p_k = true
                  /\ F32.is_finite p_k = true)
      by (apply Hprobs; eapply nth_error_In; eauto).
    destruct Hvk as [Vk Fk].
    destruct (average_valid p_k n Vk Hn Fk Nn) as [Vak Nak].
    destruct (average_valid p_top n Vt Hn Ft Nn) as [Vat Nat].
    destruct (Hmaxk Nak) as [Hle_k Hlt_k].
    assert (Hkt : F32.leb (average n p_k) (average n p_top) = true).
    { apply average_mono; auto. eapply Hle_top; eauto. }
    assert (Htk : F32.leb (average n p_top) (average n p_k) = true).
    { apply (Hle_k top). rewrite nth_error_map, Hp_top. reflexivity. }
    assert (Hbound : (k <= top)%nat).
    { destruct (Nat.le_gt_cases k top) as [H|H]; [exact H|]. exfalso.
      apply (ltb_leb_absurd (average n p_top) (average n p_k)); auto.
      apply (Hlt_k top); [|exact H].
      rewrite nth_error_map, Hp_top. reflexivity. }
    split; [exact Hbound|]. split.
    + intros <- j p Hj Hp.
      rewrite Hp_k in Hp_top. injection Hp_top as <-.
      apply (Hlt_k j); [|exact Hj].
      rewrite nth_error_map, Hp. reflexivity.
    + intros H. destruct (Nat.eq_dec k top) as [E|E]; [exact E|]. exfalso.
      apply (ltb_leb_absurd (average n p_k) (average n p_top)); auto.
      apply (H k p_k); [lia | exact Hp_k].
Qed.

Lemma class_label_injective i j label :
  nth_error CLASS_LABELS i = Some label ->
  nth_error CLASS_LABELS j = Some label -> i = j.
Proof.
  intros Hi Hj.
  assert (Hnd : NoDup CLASS_LABELS).
  { unfold CLASS_LABELS.
    repeat (constructor; [simpl; intuition discriminate|]). constructor. }
  eapply NoDup_nth_error; eauto.
  - apply nth_error_Some. congruence.
  - congruence.
Qed.

(** C10, amended: when [float(nlp_pred)] returns [N] and the seven
    probabilities are finite float32 values, the fused label in
    [final_output] is the label at the argmax of the float32 averages
    [(p + N) / 2]; that index is never after the top-class index of
    [cnn_output], and the fused label is the top class label if and only
    if every class before the top class has an average strictly below
    the average of the top class.  Adding [N] and halving is monotone in
    float32, but not strictly: averages that round to the same value (or
    a NaN or infinite [N]) move the fused class to an earlier one. *)
Theorem fusion_top_class_law rt req w (r : Run rt) N :
  run_ok rt req w r ->
  List.length (run_probs r) = 7%nat ->
  Forall (fun p => valid_binary F32.prec F32.emax p = true
                   /\ F32.is_finite p = true) (run_probs r) ->
  py_float (float_of_str rt) (run_pred r) = inr N ->
  let avg := fun p => F32.div (F32.add p (F64.to_f32 N)) F32.two in
  exists top_idx top_class_label top_class_conf final_idx final_label,
    np_argmax (run_probs r) = inr top_idx /\
    nth_error (run_probs r) top_idx = Some top_class_conf /\
    nth_error CLASS_LABELS top_idx = Some top_class_label /\
    np_argmax (map avg (run_probs r)) = inr final_idx /\
    nth_error CLASS_LABELS final_idx = Some final_label /\
    json_get "cnn_output" (fst (predict rt req w))
      = Some ("Predicted Class: " ++ top_class_label ++ " (Confidence: "
                ++ format_f 2 top_class_conf ++ ")") /\
    json_get "final_output" (fst (predict rt req w))
      = Some (final_output_prefix ++ final_label) /\
    (final_idx <= top_idx)%nat /\
    (final_label = top_class_label <->
     forall j p, (j < top_idx)%nat -> nth_error (run_probs r) j = Some p ->
                 F32.ltb (avg p) (avg top_class_conf) = true).
Proof.
  intros Hrun Hlen Hprobs HN avg.
  destruct (predict_run_success rt req w r Hrun Hlen)
    as (top_idx & top_label & conf & final_label
        & Hidx & Hlabel & Hconf & Hfus & Hresp).
  destruct (numeric_returns_label (float_of_str rt) (float_repr rt) _ _ _ Hlen HN)
    as (k & label & Hk & Hl & Hfus').
  rewrite Hfus in Hfus'. injection Hfus' as ->.
  rewrite combine_average in Hk.
  destruct (fused_index (run_probs r) (F64.to_f32 N) top_idx k conf
              Hprobs (to_f32_valid N) Hidx Hconf Hk) as [Hle Hiff].
  exists top_idx, top_label, conf, k, label.
  rewrite Hresp.
  split; [exact Hidx|]. split; [exact Hconf|]. split; [exact Hlabel|].
  split; [exact Hk|]. split; [exact Hl|].
  split; [reflexivity|]. split; [reflexivity|]. split; [exact Hle|].
  split.
  - intros ->. apply Hiff. eapply class_label_injective; eauto.
  - intros H. apply Hiff in H. subst k. congruence.
Qed.

Lemma fusion_top_class_law_witness :
  let pred := PyFloat Stub.f64_0_2 in
  let rt := Stub.runtime pred in
  let w := Stub.world pred in
  let avg := fun p => F32.div (F32.add p (F64.to_f32 Stub.f64_0_2)) F32.two in
  exists top_idx top_class_label top_class_conf final_idx final_label,
    np_argmax Stub.probs = inr top_idx /\
    nth_error Stub.probs top_idx = Some top_class_conf /\
    nth_error CLASS_LABELS top_idx = Some top_class_label /\
    np_argmax (map avg Stub.probs) = inr final_idx /\
    nth_error CLASS_LABELS final_idx = Some final_label /\
    json_get "cnn_output" (fst (predict rt Stub.request w))
      = Some ("Predicted Class: " ++ top_class_label ++ " (Confidence: "
                ++ format_f 2 top_class_conf ++ ")") /\
    json_get "final_output" (fst (predict rt Stub.request w))
      = Some (final_output_prefix ++ final_label) /\
    (final_idx <= top_idx)%nat /\
    (final_label = top_class_label <->
     forall j p, (j < top_idx)%nat -> nth_error Stub.probs j = Some p ->
                 F32.ltb (avg p) (avg top_class_conf) = true).
Proof.
  apply (fusion_top_class_law (Stub.runtime (PyFloat Stub.f64_0_2))
           Stub.request (Stub.world (PyFloat Stub.f64_0_2))
           (Stub.run (PyFloat Stub.f64_0_2)) Stub.f64_0_2).
  - apply stub_run_ok, float_coercion_caught.
  - reflexivity.
  - repeat constructor.
  - reflexivity.
Defined.

(** ** Masking *)

Lemma zip_exact_nth {A B C} (f : A -> B -> option C) la :
  forall lb lc i a,
    zip_exact f la lb = Some lc ->
    nth_error la i = Some a ->
    exists b c,
      nth_error lb i = Some b /\ f a b = Some c /\ nth_error lc i = Some c.
Proof.
  induction la as [|a0 la IH]; intros lb lc i a Hzip Ha.
  - destruct i; discriminate.
  - destruct lb as [|b0 lb]; simpl in Hzip; [discriminate|].
    destruct (f a0 b0) as [c0|] eqn:Hf; [|discriminate].
    destruct (zip_exact f la lb) as [lc'|] eqn:Hrest; [|discriminate].
    injection Hzip as <-.
    destruct i as [|i]; simpl in *.
    + injection Ha as <-. eauto.
    + eapply IH; eauto.
Qed.

Lemma zip_exact_length {A B C} (f : A -> B -> option C) la :
  forall lb lc,
    zip_exact f la lb = Some lc -> List.length lc = List.length lb.
Proof.
  induction la as [|a0 la IH]; intros [|b0 lb] lc Hzip; simpl in Hzip;
    try discriminate.
  - injection Hzip as <-. reflexivity.
  - destruct (f a0 b0); [|discriminate].
    destruct (zip_exact f la lb) as [lc'|] eqn:Hrest; [|discriminate].
    injection Hzip as <-. simpl. f_equal. eauto.
Qed.

Lemma zip_exact_total {A B C} (g : A -> B -> C) la :
  forall lb,
    List.length la = List.length lb ->
    exists lc, zip_exact (fun a b => Some (g a b)) la lb = Some lc.
Proof.
  induction la as [|a0 la IH]; intros [|b0 lb] Hlen; simpl in *;
    try discriminate.
  - eauto.
  - destruct (IH lb) as [lc Hlc]; [lia|]. rewrite Hlc. eauto.
Qed.

Lemma mul_tensor_total x y :
  same_shape x y -> exists t, mul_tensor x y = Some t.
Proof.
  unfold mul_tensor. induction 1 as [|rx ry x y Hrow _ IH]; simpl.
  - eauto.
  - destruct (zip_exact_total mul_pixel rx ry Hrow) as [row ->].
    destruct IH as [t ->]. eauto.
Qed.

Lemma mul_tensor_shape x :
  forall y t, mul_tensor x y = Some t -> same_shape t y.
Proof.
  unfold mul_tensor, same_shape.
  induction x as [|rx x IH]; intros [|ry y] t Hmul; simpl in Hmul;
    try discriminate.
  - injection Hmul as <-. constructor.
  - destruct (zip_exact _ rx ry) as [row|] eqn:Hrow; [|discriminate].
    destruct (zip_exact _ x y) as [t'|] eqn:Hrest; [|discriminate].
    injection Hmul as <-. constructor.
    + eapply zip_exact_length; eauto.
    + eapply IH; eauto.
Qed.

Lemma same_shape_normalize_mask orig_img (mask_pred : Mask) :
  same_shape orig_img mask_pred ->
  same_shape (normalize orig_img) (repeat3 (binarize mask_pred)).
Proof.
  unfold same_shape, normalize, repeat3, binarize.
  induction 1; simpl; constructor; auto.
  rewrite !length_map. assumption.
Qed.

Lemma same_shape_mask_bin (t : Tensor) (mask_pred : Mask) :
  same_shape t (repeat3 (binarize mask_pred)) -> same_shape t mask_pred.
Proof.
  unfold same_shape, repeat3, binarize. revert t.
  induction mask_pred as [|row mask_pred IH]; intros t H; simpl in H;
    inversion H; subst; constructor; auto.
  rewrite !length_map in *. assumption.
Qed.

(** On a normalized byte the product with the binary mask is exact. *)
Lemma normalized_byte_times_mask (b : byte) :
  let x := F32.div (f32_of_byte b) F32.c255 in
  F32.mul x F32.one = x /\ F32.mul x F32.zero = F32.zero.
Proof. destruct b; vm_compute; split; reflexivity. Qed.

Lemma channel_pixel_map {A B} (f : A -> B) (p : Pixel A) c y :
  channel (pixel_map f p) c = Some y ->
  exists a, channel p c = Some a /\ y = f a.
Proof.
  destruct p as [[c0 c1] c2]. simpl.
  destruct c as [|[|[|c]]]; intros H; try discriminate;
    injection H as <-; eauto.
Qed.

Lemma masked_image_returns orig_img mask_pred :
  same_shape orig_img mask_pred ->
  height mask_pred <> 1%nat ->
  width mask_pred <> 1%nat ->
  exists masked_img,
    masked_image (normalize orig_img) mask_pred = inr masked_img.
Proof.
  intros Hshape Hh Hw.
  destruct (mul_tensor_total _ _ (same_shape_normalize_mask _ _ Hshape))
    as [masked_img Hmul].
  exists masked_img. unfold masked_image.
  replace (height (binarize mask_pred)) with (height mask_pred)
    by (unfold height, binarize; rewrite length_map; reflexivity).
  replace (width (binarize mask_pred)) with (width mask_pred)
    by (unfold width, binarize; destruct mask_pred; simpl;
        [|rewrite length_map]; reflexivity).
  apply Nat.eqb_neq in Hh, Hw. rewrite Hh, Hw. simpl.
  rewrite Hmul. reflexivity.
Qed.

Lemma masked_image_product img_norm mask_pred masked_img :
  masked_image img_norm mask_pred = inr masked_img ->
  mul_tensor img_norm (repeat3 (binarize mask_pred)) = Some masked_img.
Proof.
  unfold masked_image.
  destruct ((height (binarize mask_pred) =? 1)%nat
            || (width (binarize mask_pred) =? 1)%nat); [discriminate|].
  destruct (mul_tensor img_norm (repeat3 (binarize mask_pred)));
    [|discriminate].
  intros H; injection H as <-. reflexivity.
Qed.

Lemma masked_image_pixels orig_img mask_pred masked_img :
  masked_image (normalize orig_img) mask_pred = inr masked_img ->
  forall i j c x m,
    tensor_at (normalize orig_img) i j c = Some x ->
    mask_at mask_pred i j = Some m ->
    tensor_at masked_img i j c
      = Some (if F32.gtb m F32.half then x else F32.zero).
Proof.
  intros Hmasked i j c x m Hx Hm.
  apply masked_image_product in Hmasked. rename Hmasked into Hmul.
  unfold tensor_at in Hx.
  destruct (nth_error (normalize orig_img) i) as [row|] eqn:Hrow;
    [|discriminate].
  destruct (nth_error row j) as [p|] eqn:Hp; [|discriminate].
  unfold mask_at in Hm.
  destruct (nth_error mask_pred i) as [mrow|] eqn:Hmrow; [|discriminate].
  unfold mul_tensor in Hmul.
  destruct (zip_exact_nth _ _ _ _ _ _ Hmul Hrow)
    as (row3 & out_row & Hrow3 & Hzip_row & Hout_row).
  destruct (zip_exact_nth _ _ _ _ _ _ Hzip_row Hp)
    as (q & out & Hq & Hout & Hout_at).
  injection Hout as <-.
  unfold repeat3, binarize in Hrow3.
  rewrite !nth_error_map, Hmrow in Hrow3. simpl in Hrow3.
  injection Hrow3 as <-.
  rewrite !nth_error_map, Hm in Hq. simpl in Hq. injection Hq as <-.
  unfold tensor_at. rewrite Hout_row, Hout_at.
  unfold normalize in Hrow. rewrite nth_error_map in Hrow.
  destruct (nth_error orig_img i) as [brow|]; [|discriminate].
  simpl in Hrow. injection Hrow as <-.
  rewrite nth_error_map in Hp.
  destruct (nth_error brow j) as [pb|]; [|discriminate].
  simpl in Hp. injection Hp as <-.
  destruct (channel_pixel_map _ _ _ _ Hx) as (b & Hb & ->).
  destruct pb as [[b0 b1] b2].
  destruct (normalized_byte_times_mask b) as [Hone Hzero].
  destruct (F32.gtb m F32.half);
    destruct c as [|[|[|c]]]; simpl in Hb |- *; try discriminate;
    injection Hb as ->; f_equal; assumption.
Qed.

(** C6: when the mask has the shape of the image (and no axis of length
    one), the masked image is built, has that shape, and at every pixel
    and channel holds the normalized value where the raw mask value
    exceeds 0.5 and zero where it does not. *)
Theorem masked_image_spec orig_img mask_pred :
  same_shape orig_img mask_pred ->
  height mask_pred <> 1%nat ->
  width mask_pred <> 1%nat ->
  exists masked_img,
    masked_image (normalize orig_img) mask_pred = inr masked_img /\
    same_shape masked_img mask_pred /\
    forall i j c x m,
      tensor_at (normalize orig_img) i j c = Some x ->
      mask_at mask_pred i j = Some m ->
      tensor_at masked_img i j c
        = Some (if F32.gtb m F32.half then x else F32.zero).
Proof.
  intros Hshape Hh Hw.
  destruct (masked_image_returns _ _ Hshape Hh Hw) as [masked_img Hmasked].
  exists masked_img. split; [exact Hmasked|]. split.
  - apply same_shape_mask_bin. eapply mul_tensor_shape.
    apply masked_image_product. exact Hmasked.
  - apply masked_image_pixels. exact Hmasked.
Qed.

Lemma masked_image_spec_witness :
  let orig_img : Image :=
    [[(x10, x80, xff); (x00, x01, x02)]; [(x7f, x80, x81); (xfe, x03, x40)]] in
  let mask_pred : Mask :=
    [[Stub.q 3 4; Stub.q 1 4]; [S754_nan; Stub.q 1 2]] in
  exists masked_img,
    masked_image (normalize orig_img) mask_pred = inr masked_img /\
    same_shape masked_img mask_pred /\
    forall i j c x m,
      tensor_at (normalize orig_img) i j c = Some x ->
      mask_at mask_pred i j = Some m ->
      tensor_at masked_img i j c
        = Some (if F32.gtb m F32.half then x else F32.zero).
Proof.
  apply (masked_image_spec
           [[(x10, x80, xff); (x00, x01, x02)];
            [(x7f, x80, x81); (xfe, x03, x40)]]
           [[Stub.q 3 4; Stub.q 1 4]; [S754_nan; Stub.q 1 2]]).
  - repeat constructor.
  - simpl. lia.
  - simpl. lia.
Defined.

(** In a run, the tensor handed to the classifier is that masked image. *)
Lemma classifier_input_is_masked rt req w (r : Run rt) :
  run_ok rt req w r ->
  classification_model rt (run_masked r) = inr (run_probs r) /\
  forall i j c x m,
    tensor_at (normalize (cv2_resize rt (run_decoded r))) i j c = Some x ->
    mask_at (run_mask r) i j = Some m ->
    tensor_at (run_masked r) i j c
      = Some (if F32.gtb m F32.half then x else F32.zero).
Proof.
  intros [(_ & _ & _ & _ & _ & Hmask & Hcls & _) _].
  split; [exact Hcls|]. apply masked_image_pixels. exact Hmask.
Qed.

(** ** The probability breakdown *)

Lemma all_digits_uint d : all_digits (NilEmpty.string_of_uint d) = true.
Proof. induction d; simpl; auto. Qed.

Lemma dec_digits n : all_digits (dec n) = true /\ dec n <> "".
Proof.
  unfold dec. set (d := N.to_uint (Z.to_N n)).
  pose proof (all_digits_uint d) as H.
  destruct d; simpl in *; split; auto; discriminate.
Qed.

Lemma digit_char_is_digit n : is_digit (digit_char n) = true.
Proof.
  unfold digit_char. pose proof (Z.mod_pos_bound n 10 ltac:(lia)) as Hb.
  set (k := (n mod 10)%Z) in *.
  assert (Hk : (k = 0 \/ k = 1 \/ k = 2 \/ k = 3 \/ k = 4 \/ k = 5 \/ k = 6
                \/ k = 7 \/ k = 8 \/ k = 9)%Z) by lia.
  repeat (destruct Hk as [-> | Hk]; [reflexivity|]). subst k. rewrite Hk.
  reflexivity.
Qed.

Lemma all_digits_app s t :
  all_digits s = true -> all_digits t = true -> all_digits (s ++ t) = true.
Proof.
  induction s as [|c s IH]; simpl; auto.
  intros H Ht. apply andb_true_iff in H as [Hc Hs].
  rewrite Hc. simpl. auto.
Qed.

Lemma string_length_app s t :
  String.length (s ++ t) = (String.length s + String.length t)%nat.
Proof. induction s as [|c s IH]; simpl; auto. Qed.

Lemma frac_digits_spec d :
  forall n,
    all_digits (frac_digits d n) = true /\
    String.length (frac_digits d n) = d.
Proof.
  induction d as [|d IH]; intros n; simpl.
  - auto.
  - destruct (IH (n / 10)%Z) as [Hd Hl]. split.
    + apply all_digits_app; auto. simpl.
      rewrite digit_char_is_digit. reflexivity.
    + rewrite string_length_app, Hl. simpl. lia.
Qed.

(** ['.<d>f'] prints a finite value with exactly [d] decimal places. *)
Lemma format_f_fixed_point d x :
  d <> O -> F32.is_finite x = true -> fixed_point d (format_f d x).
Proof.
  intros Hd Hfin.
  assert (H : exists s n,
             format_f d x
             = sign_str s ++ dec (n / 10 ^ Z.of_nat d)
                 ++ "." ++ frac_digits d (n mod 10 ^ Z.of_nat d)).
  { destruct x as [s| | |s m e]; try discriminate Hfin;
      unfold format_f; destruct d; try congruence; eauto. }
  destruct H as (s & n & ->).
  exists (sign_str s), (dec (n / 10 ^ Z.of_nat d)),
         (frac_digits d (n mod 10 ^ Z.of_nat d)).
  destruct (dec_digits (n / 10 ^ Z.of_nat d)) as [Hip Hne].
  destruct (frac_digits_spec d (n mod 10 ^ Z.of_nat d)) as [Hfp Hlen].
  repeat split; auto.
  destruct s; simpl; auto.
Qed.

Lemma entries_of_values (labels : list string) :
  forall cnn_probs : list F32.t,
    map (fun lp => fst lp ++ ": " ++ format_f 4 (snd lp))
        (List.combine labels cnn_probs)
    = map (fun lv => fst lv ++ ": " ++ snd lv)
          (List.combine labels (map (format_f 4) cnn_probs)).
Proof.
  induction labels as [|label labels IH]; intros [|p cnn_probs]; simpl; auto.
  f_equal. apply IH.
Qed.

(** ** Reading a printed numeral back *)

Lemma digits_value_from_app s t :
  forall acc,
    digits_value_from acc (s ++ t)
    = digits_value_from (digits_value_from acc s) t.
Proof. induction s as [|c s IH]; intros acc; simpl; auto. Qed.

Lemma digits_value_from_shift t :
  forall acc,
    digits_value_from acc t
    = (acc * 10 ^ Z.of_nat (String.length t) + digits_value t)%Z.
Proof.
  unfold digits_value.
  induction t as [|c t IH]; intros acc.
  - simpl. lia.
  - cbn [digits_value_from String.length].
    rewrite IH, (IH (10 * 0 + _)%Z).
    rewrite Nat2Z.inj_succ, Z.pow_succ_r by lia. ring.
Qed.

Lemma digits_value_app s t :
  digits_value (s ++ t)
  = (digits_value s * 10 ^ Z.of_nat (String.length t) + digits_value t)%Z.
Proof.
  unfold digits_value at 1. rewrite digits_value_from_app.
  apply digits_value_from_shift.
Qed.

Lemma digits_value_uint_acc d :
  forall acc,
    digits_value_from (Z.pos acc) (NilEmpty.string_of_uint d)
    = Z.pos (Pos.of_uint_acc d acc).
Proof.
  induction d; intros acc; cbn [NilEmpty.string_of_uint digits_value_from
                                 Pos.of_uint_acc];
    try reflexivity; rewrite <- IHd; f_equal;
    change (Z.of_N (N_of_ascii _) - 48)%Z with 0%Z
      || change (Z.of_N (N_of_ascii _) - 48)%Z with 1%Z
      || change (Z.of_N (N_of_ascii _) - 48)%Z with 2%Z
      || change (Z.of_N (N_of_ascii _) - 48)%Z with 3%Z
      || change (Z.of_N (N_of_ascii _) - 48)%Z with 4%Z
      || change (Z.of_N (N_of_ascii _) - 48)%Z with 5%Z
      || change (Z.of_N (N_of_ascii _) - 48)%Z with 6%Z
      || change (Z.of_N (N_of_ascii _) - 48)%Z with 7%Z
      || change (Z.of_N (N_of_ascii _) - 48)%Z with 8%Z
      || change (Z.of_N (N_of_ascii _) - 48)%Z with 9%Z;
    lia.
Qed.

Lemma digits_value_uint d :
  digits_value (NilEmpty.string_of_uint d) = Z.of_N (Pos.of_uint d).
Proof.
  unfold digits_value.
  induction d; cbn [NilEmpty.string_of_uint digits_value_from Pos.of_uint];
    try reflexivity; try exact IHd;
    cbn [Z.of_N]; rewrite <- digits_value_uint_acc; reflexivity.
Qed.

Lemma to_uint_nonnil k : N.to_uint k <> Decimal.Nil.
Proof.
  destruct k as [|p]; simpl; [discriminate|].
  apply DecimalPos.Unsigned.to_uint_nonnil.
Qed.

Lemma dec_value n : (0 <= n)%Z -> digits_value (dec n) = n.
Proof.
  intros Hn. unfold dec.
  pose proof (DecimalN.Unsigned.of_to (Z.to_N n)) as H.
  unfold N.of_uint in H.
  pose proof (to_uint_nonnil (Z.to_N n)) as Hnil.
  replace (NilZero.string_of_uint (N.to_uint (Z.to_N n)))
    with (NilEmpty.string_of_uint (N.to_uint (Z.to_N n)))
    by (revert Hnil; destruct (N.to_uint (Z.to_N n)); intros;
        first [reflexivity | congruence]).
  rewrite digits_value_uint, H. lia.
Qed.

Lemma digit_char_value n :
  (Z.of_N (N_of_ascii (digit_char n)) - 48 = n mod 10)%Z.
Proof.
  unfold digit_char.
  pose proof (Z.mod_pos_bound n 10 ltac:(lia)) as Hb.
  rewrite N_ascii_embedding by lia. lia.
Qed.

Lemma frac_digits_value d :
  forall n, digits_value (frac_digits d n) = (n mod 10 ^ Z.of_nat d)%Z.
Proof.
  induction d as [|d IH]; intros n.
  - simpl. rewrite Z.mod_1_r. reflexivity.
  - cbn [frac_digits]. rewrite digits_value_app, IH.
    cbn [String.length]. unfold digits_value at 1.
    cbn [digits_value_from]. rewrite digit_char_value.
    change (10 ^ Z.of_nat 1)%Z with 10%Z.
    rewrite (Nat2Z.inj_succ d), Z.pow_succ_r by lia.
    rewrite (Z.rem_mul_r n 10 (10 ^ Z.of_nat d)) by
      (try apply Z.pow_pos_nonneg; lia).
    lia.
Qed.

Lemma dec_plain n : plain_integer (dec n).
Proof.
  split; [apply dec_digits|].
  unfold dec. set (k := Z.to_N n).
  pose proof (DecimalN.Unsigned.to_of (N.to_uint k)) as H.
  rewrite DecimalN.Unsigned.of_to in H.
  pose proof (DecimalFacts.nzhead_nonzero (N.to_uint k)) as Hnz.
  unfold Decimal.unorm in H.
  destruct (Decimal.nzhead (N.to_uint k)) eqn:E; rewrite H;
    try (left; reflexivity);
    try (exfalso; eapply Hnz; reflexivity);
    right; simpl; eexists; eexists; (split; [reflexivity|discriminate]).
Qed.

(** [scaled_round d m e] is the integer nearest to [m * 2^e * 10^d],
    ties to even. *)
Lemma scaled_round_is_rounding d m e :
  is_rounding (Z.pos m * 10 ^ Z.of_nat d * 2 ^ Z.max e 0)%Z
              (2 ^ Z.max (- e) 0)%Z
              (scaled_round d m e).
Proof.
  unfold scaled_round, is_rounding.
  set (n := (Z.pos m * 10 ^ Z.of_nat d)%Z).
  destruct e as [|p|p].
  - change (Z.max 0 0) with 0%Z. change (Z.max (- 0) 0) with 0%Z.
    change (2 ^ 0)%Z with 1%Z.
    replace (n * 1 - n * 1)%Z with 0%Z by lia.
    change (Z.abs 0) with 0%Z. split; [lia|]. intros H. lia.
  - replace (Z.max (Z.pos p) 0) with (Z.pos p) by lia.
    replace (Z.max (- Z.pos p) 0) with 0%Z by lia.
    change (2 ^ 0)%Z with 1%Z.
    replace (n * 2 ^ Z.pos p - n * 2 ^ Z.pos p * 1)%Z with 0%Z by lia.
    change (Z.abs 0) with 0%Z. split; [lia|]. intros H. lia.
  - replace (Z.max (Z.neg p) 0) with 0%Z by lia.
    replace (Z.max (- Z.neg p) 0) with (Z.pos p) by lia.
    change (2 ^ 0)%Z with 1%Z. rewrite Z.mul_1_r.
    set (den := (2 ^ Z.pos p)%Z).
    assert (Hden : (0 < den)%Z) by (apply Z.pow_pos_nonneg; lia).
    pose proof (Z.div_mod n den ltac:(lia)) as Hdm.
    pose proof (Z.mod_pos_bound n den Hden) as Hr.
    set (q := (n / den)%Z) in *. set (r := (n mod den)%Z) in *.
    destruct (Z.compare_spec (2 * r) den) as [Heq|Hlt|Hgt].
    + destruct (Z.even q) eqn:He.
      * replace (n - q * den)%Z with r by lia. split; [lia|]. auto.
      * replace (n - (q + 1) * den)%Z with (r - den)%Z by lia.
        split; [lia|]. intros _. rewrite Z.even_add, He. reflexivity.
    + replace (n - q * den)%Z with r by lia. split; [lia|]. intros H. lia.
    + replace (n - (q + 1) * den)%Z with (r - den)%Z by lia.
      split; [lia|]. intros H. lia.
Qed.

Lemma scaled_round_nonneg d m e : (0 <= scaled_round d m e)%Z.
Proof.
  pose proof (scaled_round_is_rounding d m e) as H.
  assert (Hden : (0 < 2 ^ Z.max (- e) 0)%Z) by (apply Z.pow_pos_nonneg; lia).
  apply (is_rounding_lower _ _ _ 0%Z Hden H).
  assert (0 <= 10 ^ Z.of_nat d)%Z by (apply Z.pow_nonneg; lia).
  assert (0 <= 2 ^ Z.max e 0)%Z by (apply Z.pow_nonneg; lia).
  rewrite Z.mul_0_l. apply Z.mul_nonneg_nonneg; [|assumption].
  apply Z.mul_nonneg_nonneg; lia.
Qed.

(** ['.<d>f'] prints the correctly rounded numeral of a finite value. *)
Lemma format_f_prints_rounded d x :
  d <> O -> F32.is_finite x = true -> prints_rounded d x (format_f d x).
Proof.
  intros Hd Hfin.
  assert (Hp : (0 < 10 ^ Z.of_nat d)%Z) by (apply Z.pow_pos_nonneg; lia).
  assert (Hsplit : forall n, (0 <= n)%Z ->
            digits_value (dec (n / 10 ^ Z.of_nat d)
                            ++ frac_digits d (n mod 10 ^ Z.of_nat d)) = n).
  { intros n Hn. rewrite digits_value_app, frac_digits_value, dec_value.
    - destruct (frac_digits_spec d (n mod 10 ^ Z.of_nat d)) as [_ ->].
      rewrite Z.mod_mod by lia.
      pose proof (Z.div_mod n (10 ^ Z.of_nat d) ltac:(lia)). lia.
    - apply Z.div_pos; lia. }
  destruct x as [s| | |s m e]; try discriminate Hfin.
  - exists (dec (0 / 10 ^ Z.of_nat d)),
           (frac_digits d (0 mod 10 ^ Z.of_nat d)).
    destruct (frac_digits_spec d (0 mod 10 ^ Z.of_nat d)) as [Hfp Hlen].
    split; [apply dec_plain|]. split; [exact Hfp|]. split; [exact Hlen|].
    split; [|apply Hsplit; lia].
    unfold format_f. destruct d; [congruence|]. destruct s; reflexivity.
  - set (n := scaled_round d m e).
    exists (dec (n / 10 ^ Z.of_nat d)),
           (frac_digits d (n mod 10 ^ Z.of_nat d)).
    destruct (frac_digits_spec d (n mod 10 ^ Z.of_nat d)) as [Hfp Hlen].
    split; [apply dec_plain|]. split; [exact Hfp|]. split; [exact Hlen|].
    split.
    + unfold format_f. fold n. destruct d; [congruence|].
      destruct s; reflexivity.
    + rewrite Hsplit by apply scaled_round_nonneg.
      apply scaled_round_is_rounding.
Qed.

Lemma Forall2_map_right {A B} (P : A -> B -> Prop) (f : A -> B) l :
  Forall (fun a => P a (f a)) l -> Forall2 P l (map f l).
Proof. induction 1; simpl; constructor; auto. Qed.

(** C7: on a success with a length-7 vector of finite probabilities,
    [all_class_probabilities] is the ", "-join of exactly seven entries
    ["<label>: <value>"], one per label of [CLASS_LABELS] in order; each
    value is a numeral with exactly four decimal places, and it is the
    numeral of the probability at its position: the sign of the
    probability and the decimal digits of the integer nearest to the
    probability times 10^4 (ties to even). *)
Theorem all_class_probabilities_format rt req w (r : Run rt) :
  run_ok rt req w r ->
  List.length (run_probs r) = 7%nat ->
  Forall (fun p => F32.is_finite p = true) (run_probs r) ->
  exists values,
    List.length values = 7%nat /\
    Forall (fixed_point 4) values /\
    Forall2 (prints_rounded 4) (run_probs r) values /\
    status (fst (predict rt req w)) = 200%nat /\
    json_get "all_class_probabilities" (fst (predict rt req w))
      = Some (String.concat ", "
                (map (fun lv => fst lv ++ ": " ++ snd lv)
                     (List.combine
                        ["bkl"; "nv"; "df"; "mel"; "vasc"; "bcc"; "akiec"]
                        values))).
Proof.
  intros Hrun Hlen Hfin.
  destruct (predict_run_success rt req w r Hrun Hlen)
    as (top_idx & top_label & conf & final_label & _ & _ & _ & _ & Hresp).
  exists (map (format_f 4) (run_probs r)).
  rewrite Hresp. split; [rewrite length_map; exact Hlen|].
  split; [|split; [|split; [reflexivity|]]].
  - apply Forall_map. eapply Forall_impl; [|exact Hfin].
    intros p Hp. apply format_f_fixed_point; [discriminate | exact Hp].
  - apply Forall2_map_right. eapply Forall_impl; [|exact Hfin].
    intros p Hp. apply format_f_prints_rounded; [discriminate | exact Hp].
  - cbn [json_get body jsonify assoc String.eqb Ascii.eqb Bool.eqb].
    f_equal. f_equal.
    change ["bkl"; "nv"; "df"; "mel"; "vasc"; "bcc"; "akiec"]
      with CLASS_LABELS.
    apply entries_of_values.
Qed.

Lemma all_class_probabilities_format_witness :
  let rt := Stub.runtime (PyStr "mel") in
  let w := Stub.world (PyStr "mel") in
  exists values,
    List.length values = 7%nat /\
    Forall (fixed_point 4) values /\
    Forall2 (prints_rounded 4) Stub.probs values /\
    status (fst (predict rt Stub.request w)) = 200%nat /\
    json_get "all_class_probabilities" (fst (predict rt Stub.request w))
      = Some (String.concat ", "
                (map (fun lv => fst lv ++ ": " ++ snd lv)
                     (List.combine
                        ["bkl"; "nv"; "df"; "mel"; "vasc"; "bcc"; "akiec"]
                        values))).
Proof.
  apply (all_class_probabilities_format (Stub.runtime (PyStr "mel"))
           Stub.request (Stub.world (PyStr "mel")) (Stub.run (PyStr "mel"))).
  - apply stub_run_ok, str_coercion_caught.
  - reflexivity.
  - repeat constructor.
Defined.

(** The field of the stub scenario, as printed. *)
Remark stub_probabilities_printed :
  json_get "all_class_probabilities"
    (fst (predict (Stub.runtime (PyStr "mel")) Stub.request
                  (Stub.world (PyStr "mel"))))
  = Some ("bkl: 0.1000, nv: 0.6000, df: 0.0500, mel: 0.0500, "
            ++ "vasc: 0.0500, bcc: 0.1000, akiec: 0.0500").
Proof. reflexivity. Qed.

Remark format_f_not_finite :
  format_f 4 S754_nan = "nan" /\
  format_f 4 (S754_infinity false) = "inf" /\
  format_f 4 (S754_infinity true) = "-inf".
Proof. repeat split. Qed.

(** ** Repeated requests *)

(** After the image is decoded nothing reads the world: the reply depends
    on the metadata row and the decoded image only. *)
Lemma pipeline_reply_stateless rt row decoded (w1 w2 : World rt) :
  fst (pipeline rt row decoded w1) = fst (pipeline rt row decoded w2).
Proof.
  unfold pipeline. cbv beta zeta delta [bind call lift ret].
  repeat (cbv beta iota;
          match goal with
          | |- context [match ?x with inl _ => _ | inr _ => _ end] =>
              destruct x; try reflexivity
          end).
Qed.

Lemma predict_try_stored rt imdecode req (w : World rt) image_file fs1 :
  read_after_write rt imdecode ->
  assoc "image" (files req) = Some image_file ->
  file_save rt (fs w) (os_path_join UPLOAD_FOLDER (filename image_file))
            (content image_file) = inr fs1 ->
  exists w1,
    fst (predict_try rt req w)
    = match imdecode (content image_file) with
      | None =>
          inl (mkExc ValueError
                 ("Could not read image from path: "
                    ++ os_path_join UPLOAD_FOLDER (filename image_file)))
      | Some decoded => fst (pipeline rt (input_row req) decoded w1)
      end.
Proof.
  intros Hrw Hfile Hsave.
  unfold predict_try. rewrite Hfile.
  cbv beta zeta delta [bind save imread].
  rewrite Hsave. cbv beta iota. cbn [fs].
  rewrite (Hrw _ _ _ _ Hsave).
  destruct (imdecode (content image_file)) as [decoded|].
  - eexists. reflexivity.
  - exists w. reflexivity.
Qed.

Lemma error_reply_has_no_output k msg code :
  k <> "error" -> json_get k (jsonify [("error", msg)] code) = None.
Proof.
  intros Hk. unfold json_get, jsonify. simpl.
  destruct (String.eqb_spec k "error"); [contradiction | reflexivity].
Qed.

(** C8: two POST requests that carry the same image bytes and the same
    four metadata fields, each stored successfully on a file system that
    reads back what was written, get the same [cnn_output] and the same
    [final_output] from the same (fixed-function) models, whatever the
    two worlds, file names and other form fields are. *)
Theorem predict_idempotent rt imdecode req1 req2 (w1 w2 : World rt)
        file1 file2 fs1 fs2 :
  read_after_write rt imdecode ->
  method req1 = POST ->
  method req2 = POST ->
  assoc "image" (files req1) = Some file1 ->
  assoc "image" (files req2) = Some file2 ->
  content file1 = content file2 ->
  form_get req1 "dx_type" = form_get req2 "dx_type" ->
  form_get req1 "age" = form_get req2 "age" ->
  form_get req1 "sex" = form_get req2 "sex" ->
  form_get req1 "localization" = form_get req2 "localization" ->
  file_save rt (fs w1) (os_path_join UPLOAD_FOLDER (filename file1))
            (content file1) = inr fs1 ->
  file_save rt (fs w2) (os_path_join UPLOAD_FOLDER (filename file2))
            (content file2) = inr fs2 ->
  json_get "cnn_output" (fst (predict rt req1 w1))
    = json_get "cnn_output" (fst (predict rt req2 w2)) /\
  json_get "final_output" (fst (predict rt req1 w1))
    = json_get "final_output" (fst (predict rt req2 w2)).
Proof.
  intros Hrw Hm1 Hm2 Hf1 Hf2 Hbytes Hdx Hage Hsex Hloc Hs1 Hs2.
  rewrite !predict_post by assumption.
  destruct (predict_try_stored rt imdecode req1 w1 file1 fs1 Hrw Hf1 Hs1)
    as [w1' ->].
  destruct (predict_try_stored rt imdecode req2 w2 file2 fs2 Hrw Hf2 Hs2)
    as [w2' ->].
  assert (Hrow : input_row req1 = input_row req2).
  { unfold input_row. rewrite Hdx, Hage, Hsex, Hloc. reflexivity. }
  rewrite <- Hbytes, <- Hrow.
  destruct (imdecode (content file1)) as [decoded|].
  - rewrite (pipeline_reply_stateless rt (input_row req1) decoded w1' w2').
    split; reflexivity.
  - rewrite !error_reply_has_no_output by discriminate. split; reflexivity.
Qed.

Lemma stub_read_after_write pred :
  read_after_write (Stub.runtime pred) Stub.imdecode.
Proof.
  intros fs0 path data fs1 H. simpl in *. injection H as <-.
  simpl. rewrite String.eqb_refl. reflexivity.
Qed.

Lemma predict_idempotent_witness :
  let rt := Stub.runtime (PyFloat Stub.f64_0_2) in
  let w1 := Stub.world (PyFloat Stub.f64_0_2) in
  let w2 := snd (predict rt Stub.request w1) in
  let req2 :=
    mkRequest POST
      [("image", mkFile "again.png" [x10; x80; xff])]
      [("localization", "back"); ("sex", "male"); ("age", "45");
       ("dx_type", "histo"); ("note", "second visit")] in
  json_get "cnn_output" (fst (predict rt Stub.request w1))
    = json_get "cnn_output" (fst (predict rt req2 w2)) /\
  json_get "final_output" (fst (predict rt Stub.request w1))
    = json_get "final_output" (fst (predict rt req2 w2)).
Proof.
  apply (predict_idempotent (Stub.runtime (PyFloat Stub.f64_0_2))
           Stub.imdecode Stub.request
           (mkRequest POST
              [("image", mkFile "again.png" [x10; x80; xff])]
              [("localization", "back"); ("sex", "male"); ("age", "45");
               ("dx_type", "histo"); ("note", "second visit")])
           (Stub.world (PyFloat Stub.f64_0_2))
           (snd (predict (Stub.runtime (PyFloat Stub.f64_0_2)) Stub.request
                         (Stub.world (PyFloat Stub.f64_0_2))))
           (mkFile "lesion.png" [x10; x80; xff])
           (mkFile "again.png" [x10; x80; xff])
           [("uploads/lesion.png", [x10; x80; xff])]
           [("uploads/again.png", [x10; x80; xff]);
            ("uploads/lesion.png", [x10; x80; xff])]).
  - apply stub_read_after_write.
  - reflexivity.
  - reflexivity.
  - reflexivity.
  - reflexivity.
  - reflexivity.
  - reflexivity.
  - reflexivity.
  - reflexivity.
  - reflexivity.
  - reflexivity.
  - reflexivity.
Defined.

(* ================================================================== *)
(** * Further properties of the handler *)

(** ** Order of the collaborator calls *)

Ltac trace_closed :=
  cbn [fs calls]; repeat rewrite <- app_assoc; reflexivity.

Lemma pipeline_returns rt row decoded (w w' : World rt) response :
  pipeline rt row decoded w = (inr response, w') ->
  status response = 200%nat /\
  map fst (body response) = success_keys /\
  fs w' = fs w /\
  calls w'
  = (calls w ++ [CallSegmentation; CallClassification; CallNlp; CallRender])%list.
Proof.
  intros H. unfold pipeline in H.
  cbv beta iota zeta delta [bind call lift ret log] in H.
  do 12 raise_or_return H.
  cbv beta iota in H. injection H as <- <-.
  repeat split. trace_closed.
Qed.

Lemma pipeline_raises rt row decoded (w w' : World rt) e :
  pipeline rt row decoded w = (inl e, w') ->
  fs w' = fs w /\
  exists n,
    (1 <= n <= 4)%nat /\
    calls w'
    = (calls w
         ++ firstn n [CallSegmentation; CallClassification; CallNlp; CallRender])%list.
Proof.
  intros H. unfold pipeline in H.
  cbv beta iota zeta delta [bind call lift ret log] in H.
  repeat (cbv beta iota in H;
          match type of H with
          | context [match ?x with inl _ => _ | inr _ => _ end] =>
              destruct x;
              [cbv beta iota in H; injection H as _ <-;
               split; [reflexivity|];
               first [ exists 1%nat; split; [lia|]; trace_closed
                     | exists 2%nat; split; [lia|]; trace_closed
                     | exists 3%nat; split; [lia|]; trace_closed
                     | exists 4%nat; split; [lia|]; trace_closed ]
              |]
          end).
  cbv beta iota in H. discriminate H.
Qed.

Lemma predict_try_image rt req (w : World rt) image_file :
  assoc "image" (files req) = Some image_file ->
  let image_path := os_path_join UPLOAD_FOLDER (filename image_file) in
  predict_try rt req w
  = match file_save rt (fs w) image_path (content image_file) with
    | inl e =>
        (inl e,
         mkWorld rt (file_save_failed rt (fs w) image_path (content image_file))
                 (calls w ++ [CallSave image_path]))
    | inr fs1 =>
        let w1 :=
          mkWorld rt fs1 (calls w ++ [CallSave image_path; CallImread image_path])
        in
        match cv2_imread rt fs1 image_path with
        | None =>
            (inl (mkExc ValueError
                    ("Could not read image from path: " ++ image_path)),
             w1)
        | Some decoded => pipeline rt (input_row req) decoded w1
        end
    end.
Proof.
  intros Hfile image_path. unfold predict_try. rewrite Hfile.
  cbv beta zeta delta [bind save imread log]. fold image_path.
  destruct (file_save rt (fs w) image_path (content image_file)) as [e|fs1];
    [reflexivity|].
  cbv beta iota. cbn [fs calls]. rewrite <- app_assoc. simpl.
  destruct (cv2_imread rt fs1 image_path); reflexivity.
Qed.

(** X3 - the collaborators are invoked in one fixed order, each at most
    once: a POST without an image invokes none, and a POST with an image
    invokes a prefix of: store the upload, read it back, segmentation
    model, classifier, metadata model, figure.  A 200 reply means that
    the whole sequence ran. *)
Theorem calls_follow_the_pipeline rt req (w : World rt) :
  method req = POST ->
  match assoc "image" (files req) with
  | None => calls (snd (predict rt req w)) = calls w
  | Some image_file =>
      exists n,
        (1 <= n <= 6)%nat /\
        calls (snd (predict rt req w))
        = (calls w
             ++ firstn n
                  (full_trace
                     (os_path_join UPLOAD_FOLDER (filename image_file))))%list
        /\ (status (fst (predict rt req w)) = 200%nat -> n = 6%nat)
  end.
Proof.
  intros Hm. unfold predict. rewrite Hm.
  destruct (assoc "image" (files req)) as [image_file|] eqn:Hfile.
  2:{ unfold predict_try. rewrite Hfile. reflexivity. }
  rewrite (predict_try_image rt req w image_file Hfile). cbv zeta.
  set (image_path := os_path_join UPLOAD_FOLDER (filename image_file)).
  destruct (file_save rt (fs w) image_path (content image_file)) as [e|fs1].
  { exists 1%nat. cbn [fst snd calls status jsonify].
    repeat split; try lia; discriminate. }
  destruct (cv2_imread rt fs1 image_path) as [decoded|].
  2:{ exists 2%nat. cbn [fst snd calls status jsonify].
      repeat split; try lia; discriminate. }
  destruct (pipeline rt (input_row req) decoded _) as [[e|response] w']
    eqn:Hpipe.
  - apply pipeline_raises in Hpipe. destruct Hpipe as (_ & n & Hn & Hcalls).
    exists (2 + n)%nat. cbn [fst snd status jsonify]. rewrite Hcalls.
    cbn [calls]. rewrite <- app_assoc.
    repeat split; try lia; discriminate.
  - apply pipeline_returns in Hpipe.
    destruct Hpipe as (Hs & _ & _ & Hcalls).
    exists 6%nat. cbn [fst snd]. rewrite Hcalls. cbn [calls].
    rewrite <- app_assoc. repeat split; lia.
Qed.

Lemma calls_follow_the_pipeline_witness :
  let rt := Stub.runtime (PyStr "mel") in
  let w := Stub.world (PyStr "mel") in
  exists n,
    (1 <= n <= 6)%nat /\
    calls (snd (predict rt Stub.request w))
    = (calls w ++ firstn n (full_trace "uploads/lesion.png"))%list /\
    (status (fst (predict rt Stub.request w)) = 200%nat -> n = 6%nat).
Proof.
  apply (calls_follow_the_pipeline (Stub.runtime (PyStr "mel")) Stub.request
           (Stub.world (PyStr "mel"))).
  reflexivity.
Defined.

(** ** The upload directory *)

(** X4 - the handler itself never writes to or cleans up the file
    system: after a POST the file system is what [image_file.save] left
    behind, whether the save returned or raised and whether or not a
    later step failed (the stored upload is never removed); when no image
    was sent the file system is untouched. *)
Theorem upload_is_kept rt req (w : World rt) :
  method req = POST ->
  fs (snd (predict rt req w))
  = match assoc "image" (files req) with
    | None => fs w
    | Some image_file =>
        let image_path := os_path_join UPLOAD_FOLDER (filename image_file) in
        match file_save rt (fs w) image_path (content image_file) with
        | inl _ => file_save_failed rt (fs w) image_path (content image_file)
        | inr fs1 => fs1
        end
    end.
Proof.
  intros Hm. unfold predict. rewrite Hm.
  destruct (assoc "image" (files req)) as [image_file|] eqn:Hfile.
  2:{ unfold predict_try. rewrite Hfile. reflexivity. }
  rewrite (predict_try_image rt req w image_file Hfile). cbv zeta.
  set (image_path := os_path_join UPLOAD_FOLDER (filename image_file)).
  destruct (file_save rt (fs w) image_path (content image_file)) as [e|fs1];
    [reflexivity|].
  destruct (cv2_imread rt fs1 image_path) as [decoded|]; [|reflexivity].
  destruct (pipeline rt (input_row req) decoded _) as [[e|response] w']
    eqn:Hpipe.
  - apply pipeline_raises in Hpipe. destruct Hpipe as [Hfs _]. exact Hfs.
  - apply pipeline_returns in Hpipe. destruct Hpipe as (_ & _ & Hfs & _).
    exact Hfs.
Qed.

Lemma upload_is_kept_witness :
  let rt := Stub.runtime (PyStr "mel") in
  let req := mkRequest POST [("image", mkFile "notes.txt" [x68; x69])] [] in
  status (fst (predict rt req (Stub.world (PyStr "mel")))) = 500%nat /\
  fs (snd (predict rt req (Stub.world (PyStr "mel"))))
  = [("uploads/notes.txt", [x68; x69])].
Proof.
  split; [reflexivity|].
  apply (upload_is_kept (Stub.runtime (PyStr "mel"))
           (mkRequest POST [("image", mkFile "notes.txt" [x68; x69])] [])
           (Stub.world (PyStr "mel"))).
  reflexivity.
Defined.

(** ** The shape of the replies *)

Lemma post_reply_cases rt req (w : World rt) :
  method req = POST ->
  let response := fst (predict rt req w) in
  (status response = 400%nat /\ assoc "image" (files req) = None /\
   body response = [("error", "No image provided")]) \/
  (status response = 500%nat /\ assoc "image" (files req) <> None /\
   exists msg, body response = [("error", msg)]) \/
  (status response = 200%nat /\ assoc "image" (files req) <> None /\
   map fst (body response) = success_keys).
Proof.
  intros Hm response. subst response. unfold predict. rewrite Hm.
  destruct (assoc "image" (files req)) as [image_file|] eqn:Hfile.
  2:{ unfold predict_try. rewrite Hfile. left. repeat split. }
  rewrite (predict_try_image rt req w image_file Hfile). cbv zeta.
  set (image_path := os_path_join UPLOAD_FOLDER (filename image_file)).
  assert (Herr : forall e (w' : World rt),
             let response := fst (jsonify [("error", exc_str e)] 500, w') in
             (status response = 400%nat /\ Some image_file = None /\
              body response = [("error", "No image provided")]) \/
             (status response = 500%nat /\ Some image_file <> None /\
              exists msg, body response = [("error", msg)]) \/
             (status response = 200%nat /\ Some image_file <> None /\
              map fst (body response) = success_keys)).
  { intros e w'. right. left.
    repeat split; [discriminate | eexists; reflexivity]. }
  destruct (file_save rt (fs w) image_path (content image_file)) as [e|fs1];
    [apply Herr|].
  destruct (cv2_imread rt fs1 image_path) as [decoded|]; [|apply Herr].
  destruct (pipeline rt (input_row req) decoded _) as [[e|response] w']
    eqn:Hpipe; [apply Herr|].
  apply pipeline_returns in Hpipe. destruct Hpipe as (Hs & Hk & _).
  cbn [fst]. right. right.
  repeat split; [exact Hs | discriminate | exact Hk].
Qed.

Lemma has_keys_of_list (fields : list (string * string)) ks :
  map fst fields = ks -> NoDup ks -> has_keys fields ks.
Proof. intros <- Hnd. split; [exact Hnd | tauto]. Qed.

Lemma success_keys_distinct : NoDup success_keys.
Proof.
  unfold success_keys.
  repeat (constructor; [simpl; intuition discriminate|]). constructor.
Qed.

(** X5 - every reply to a POST is a JSON object of one of three shapes:
    status 400 with the single key "error" exactly when no image was
    sent, status 500 with the single key "error", or status 200 with
    exactly the six keys of the success reply (in whatever order the
    object is serialised).  No other status and no mixed object occurs. *)
Theorem post_reply_shape rt req (w : World rt) :
  method req = POST ->
  let response := fst (predict rt req w) in
  (status response = 400%nat <-> assoc "image" (files req) = None) /\
  ((status response = 200%nat /\ has_keys (body response) success_keys) \/
   ((status response = 400%nat \/ status response = 500%nat) /\
    has_keys (body response) ["error"])).
Proof.
  intros Hm response.
  pose proof (post_reply_cases rt req w Hm) as Hcases.
  fold response in Hcases.
  assert (Herr : NoDup ["error"])
    by (constructor; [simpl; tauto | constructor]).
  destruct Hcases as [(Hs & Hf & Hb) | [(Hs & Hf & msg & Hb) | (Hs & Hf & Hk)]].
  - split; [tauto|]. right. split; [auto|].
    apply has_keys_of_list; [rewrite Hb; reflexivity | exact Herr].
  - split; [split; [intros H; rewrite H in Hs; discriminate | tauto]|].
    right. split; [auto|].
    apply has_keys_of_list; [rewrite Hb; reflexivity | exact Herr].
  - split; [split; [intros H; rewrite H in Hs; discriminate | tauto]|].
    left. split; [exact Hs|].
    apply has_keys_of_list; [exact Hk | exact success_keys_distinct].
Qed.

Lemma post_reply_shape_witness :
  let rt := Stub.runtime (PyStr "mel") in
  let response := fst (predict rt Stub.request (Stub.world (PyStr "mel"))) in
  (status response = 400%nat <-> assoc "image" (files Stub.request) = None) /\
  ((status response = 200%nat /\ has_keys (body response) success_keys) \/
   ((status response = 400%nat \/ status response = 500%nat) /\
    has_keys (body response) ["error"])).
Proof.
  apply (post_reply_shape (Stub.runtime (PyStr "mel")) Stub.request
           (Stub.world (PyStr "mel"))).
  reflexivity.
Defined.

(** ** Failures of the collaborators *)

(** X6 - when storing the upload raises, the reply is a 500 carrying
    [str(e)]; the file is not read back and no model is invoked: the
    save is the only collaborator call, and the file system is what the
    failed save left behind. *)
Theorem save_failure_is_500 rt req (w : World rt) image_file e :
  method req = POST ->
  assoc "image" (files req) = Some image_file ->
  let image_path := os_path_join UPLOAD_FOLDER (filename image_file) in
  file_save rt (fs w) image_path (content image_file) = inl e ->
  predict rt req w
  = (jsonify [("error", exc_str e)] 500,
     mkWorld rt (file_save_failed rt (fs w) image_path (content image_file))
             (calls w ++ [CallSave image_path])).
Proof.
  intros Hm Hfile image_path Hsave. unfold predict. rewrite Hm.
  rewrite (predict_try_image rt req w image_file Hfile). cbv zeta.
  fold image_path. rewrite Hsave. reflexivity.
Qed.

Lemma save_failure_is_500_witness :
  let e := mkExc OtherError "[Errno 28] No space left on device" in
  let rt := Scenario.runtime (Some e) Scenario.all_ones
                             (fun _ => ok Stub.probs) (fun _ => ok []) in
  let req := mkRequest POST [("image", mkFile "big.png" [x10; x80; xff])] [] in
  let w := Scenario.world (Some e) Scenario.all_ones
                          (fun _ => ok Stub.probs) (fun _ => ok []) in
  predict rt req w
  = (jsonify [("error", "[Errno 28] No space left on device")] 500,
     mkWorld rt [("uploads/big.png", [])] [CallSave "uploads/big.png"]).
Proof.
  apply (save_failure_is_500
           (Scenario.runtime
              (Some (mkExc OtherError "[Errno 28] No space left on device"))
              Scenario.all_ones (fun _ => ok Stub.probs) (fun _ => ok []))
           (mkRequest POST [("image", mkFile "big.png" [x10; x80; xff])] [])
           (Scenario.world _ _ _ _)
           (mkFile "big.png" [x10; x80; xff])
           (mkExc OtherError "[Errno 28] No space left on device")).
  - reflexivity.
  - reflexivity.
  - reflexivity.
Defined.

(** What the handler has done once the upload is stored and decoded. *)
Lemma predict_decoded rt req (w : World rt) image_file fs1 decoded :
  method req = POST ->
  assoc "image" (files req) = Some image_file ->
  let image_path := os_path_join UPLOAD_FOLDER (filename image_file) in
  file_save rt (fs w) image_path (content image_file) = inr fs1 ->
  cv2_imread rt fs1 image_path = Some decoded ->
  predict rt req w
  = match pipeline rt (input_row req) decoded
            (mkWorld rt fs1
               (calls w ++ [CallSave image_path; CallImread image_path])) with
    | (inr response, w') => (response, w')
    | (inl e, w') => (jsonify [("error", exc_str e)] 500, w')
    end.
Proof.
  intros Hm Hfile image_path Hsave Hread. unfold predict. rewrite Hm.
  rewrite (predict_try_image rt req w image_file Hfile). cbv zeta.
  fold image_path. rewrite Hsave, Hread. reflexivity.
Qed.

(** X7 - when the segmentation model raises, the reply is a 500 carrying
    [str(e)]; the upload stays stored, and neither the classifier nor the
    metadata model is invoked. *)
Theorem segmentation_failure_is_500 rt req (w : World rt)
        image_file fs1 decoded e :
  method req = POST ->
  assoc "image" (files req) = Some image_file ->
  let image_path := os_path_join UPLOAD_FOLDER (filename image_file) in
  file_save rt (fs w) image_path (content image_file) = inr fs1 ->
  cv2_imread rt fs1 image_path = Some decoded ->
  segmentation_model rt (normalize (cv2_resize rt decoded)) = inl e ->
  predict rt req w
  = (jsonify [("error", exc_str e)] 500,
     mkWorld rt fs1
       (calls w ++ [CallSave image_path; CallImread image_path;
                    CallSegmentation])).
Proof.
  intros Hm Hfile image_path Hsave Hread Hseg.
  rewrite (predict_decoded rt req w image_file fs1 decoded Hm Hfile Hsave Hread).
  fold image_path. unfold pipeline.
  cbv beta iota zeta delta [bind call lift ret log].
  rewrite Hseg. cbv beta iota. cbn [fs calls].
  rewrite <- app_assoc. reflexivity.
Qed.

(** X8 - when the classifier raises on the masked image, the reply is a
    500 carrying [str(e)] and the metadata model is not invoked. *)
Theorem classification_failure_is_500 rt req (w : World rt)
        image_file fs1 decoded mask_pred masked_img e :
  method req = POST ->
  assoc "image" (files req) = Some image_file ->
  let image_path := os_path_join UPLOAD_FOLDER (filename image_file) in
  file_save rt (fs w) image_path (content image_file) = inr fs1 ->
  cv2_imread rt fs1 image_path = Some decoded ->
  segmentation_model rt (normalize (cv2_resize rt decoded)) = inr mask_pred ->
  masked_image (normalize (cv2_resize rt decoded)) mask_pred
    = inr masked_img ->
  classification_model rt masked_img = inl e ->
  predict rt req w
  = (jsonify [("error", exc_str e)] 500,
     mkWorld rt fs1
       (calls w ++ [CallSave image_path; CallImread image_path;
                    CallSegmentation; CallClassification])).
Proof.
  intros Hm Hfile image_path Hsave Hread Hseg Hmask Hcls.
  rewrite (predict_decoded rt req w image_file fs1 decoded Hm Hfile Hsave Hread).
  fold image_path. unfold pipeline.
  cbv beta iota zeta delta [bind call lift ret log].
  rewrite Hseg. cbv beta iota. rewrite Hmask. cbv beta iota.
  rewrite Hcls. cbv beta iota. cbn [fs calls].
  repeat rewrite <- app_assoc. reflexivity.
Qed.

Lemma segmentation_failure_is_500_witness :
  let e := mkExc OtherError "Graph execution error" in
  let rt := Scenario.runtime None (fun _ => inl e)
                             (fun _ => ok Stub.probs)
                             (fun _ => ok [PyStr "mel"]) in
  let w := Scenario.world None (fun _ => inl e) (fun _ => ok Stub.probs)
                          (fun _ => ok [PyStr "mel"]) in
  predict rt Stub.request w
  = (jsonify [("error", "Graph execution error")] 500,
     mkWorld rt [("uploads/lesion.png", [x10; x80; xff])]
       [CallSave "uploads/lesion.png"; CallImread "uploads/lesion.png";
        CallSegmentation]).
Proof.
  apply (segmentation_failure_is_500
           (Scenario.runtime None
              (fun _ => inl (mkExc OtherError "Graph execution error"))
              (fun _ => ok Stub.probs) (fun _ => ok [PyStr "mel"]))
           Stub.request (Scenario.world _ _ _ _) Scenario.image_file
           [("uploads/lesion.png", [x10; x80; xff])]
           [[(x10, x80, xff)]]
           (mkExc OtherError "Graph execution error")).
  - reflexivity.
  - reflexivity.
  - reflexivity.
  - reflexivity.
  - reflexivity.
Defined.

Lemma classification_failure_is_500_witness :
  let e := mkExc OtherError "Graph execution error" in
  let rt := Scenario.runtime None Scenario.all_ones (fun _ => inl e)
                             (fun _ => ok [PyStr "mel"]) in
  let w := Scenario.world None Scenario.all_ones (fun _ => inl e)
                          (fun _ => ok [PyStr "mel"]) in
  predict rt Stub.request w
  = (jsonify [("error", "Graph execution error")] 500,
     mkWorld rt [("uploads/lesion.png", [x10; x80; xff])]
       [CallSave "uploads/lesion.png"; CallImread "uploads/lesion.png";
        CallSegmentation; CallClassification]).
Proof.
  apply (classification_failure_is_500
           (Scenario.runtime None Scenario.all_ones
              (fun _ => inl (mkExc OtherError "Graph execution error"))
              (fun _ => ok [PyStr "mel"]))
           Stub.request (Scenario.world _ _ _ _) Scenario.image_file
           [("uploads/lesion.png", [x10; x80; xff])]
           [[(x10, x80, xff)]]
           Stub.mask (normalize Stub.orig)
           (mkExc OtherError "Graph execution error")).
  - reflexivity.
  - reflexivity.
  - reflexivity.
  - reflexivity.
  - reflexivity.
  - reflexivity.
  - reflexivity.
Defined.

Lemma all_class_probs_long cnn_probs :
  (7 <= List.length cnn_probs)%nat ->
  all_class_probs cnn_probs
  = inr (String.concat ", "
           (map (fun lp => fst lp ++ ": " ++ format_f 4 (snd lp))
                (List.combine CLASS_LABELS cnn_probs))).
Proof.
  intros Hlen.
  do 7 (destruct cnn_probs as [|? cnn_probs]; [simpl in Hlen; lia|]).
  reflexivity.
Qed.

Lemma top_class_label_returns top_idx :
  exists top_class_label, top_class_label_of top_idx = inr top_class_label.
Proof.
  unfold top_class_label_of.
  destruct (top_idx <? List.length CLASS_LABELS)%nat eqn:Hlt.
  - apply Nat.ltb_lt in Hlt.
    destruct (class_label_at top_idx Hlt) as (label & Hlabel & _).
    exists label. unfold list_getitem. rewrite Hlabel. reflexivity.
  - eexists. reflexivity.
Qed.

(** Lines 85-90 return on every vector of at least seven entries. *)
Lemma pure_steps_long cnn_probs :
  (7 <= List.length cnn_probs)%nat ->
  exists top_idx top_class_label top_class_conf,
    np_argmax cnn_probs = inr top_idx /\
    top_class_label_of top_idx = inr top_class_label /\
    nth_error cnn_probs top_idx = Some top_class_conf /\
    ndarray_getitem cnn_probs top_idx = inr top_class_conf.
Proof.
  intros Hlen.
  destruct (np_argmax_total cnn_probs) as [top_idx Hidx].
  { destruct cnn_probs; [simpl in Hlen; lia | congruence]. }
  pose proof (np_argmax_lt _ _ Hidx) as Hlt.
  destruct (top_class_label_returns top_idx) as [label Hlabel].
  destruct (nth_error cnn_probs top_idx) as [conf|] eqn:Hconf.
  2:{ apply nth_error_None in Hconf. lia. }
  exists top_idx, label, conf. repeat split; auto.
  unfold ndarray_getitem. rewrite Hconf. reflexivity.
Qed.

(** X9 - when the metadata model raises, the reply is a 500 carrying
    [str(e)]: the image results already computed are not reported and
    the figure is not rendered. *)
Theorem metadata_failure_is_500 rt req (w : World rt)
        image_file fs1 decoded mask_pred masked_img cnn_probs e :
  method req = POST ->
  assoc "image" (files req) = Some image_file ->
  let image_path := os_path_join UPLOAD_FOLDER (filename image_file) in
  file_save rt (fs w) image_path (content image_file) = inr fs1 ->
  cv2_imread rt fs1 image_path = Some decoded ->
  segmentation_model rt (normalize (cv2_resize rt decoded)) = inr mask_pred ->
  masked_image (normalize (cv2_resize rt decoded)) mask_pred
    = inr masked_img ->
  classification_model rt masked_img = inr cnn_probs ->
  (7 <= List.length cnn_probs)%nat ->
  nlp_model rt (input_row req) = inl e ->
  predict rt req w
  = (jsonify [("error", exc_str e)] 500,
     mkWorld rt fs1
       (calls w ++ [CallSave image_path; CallImread image_path;
                    CallSegmentation; CallClassification; CallNlp])).
Proof.
  intros Hm Hfile image_path Hsave Hread Hseg Hmask Hcls Hlen Hnlp.
  rewrite (predict_decoded rt req w image_file fs1 decoded Hm Hfile Hsave Hread).
  fold image_path.
  destruct (pure_steps_long cnn_probs Hlen)
    as (top_idx & label & conf & Hidx & Hlabel & _ & Hconf).
  pose proof (all_class_probs_long cnn_probs Hlen) as Hstr.
  unfold pipeline. cbv beta iota zeta delta [bind call lift ret log].
  rewrite Hseg. cbv beta iota. rewrite Hmask. cbv beta iota.
  rewrite Hcls. cbv beta iota. rewrite Hidx. cbv beta iota.
  rewrite Hlabel. cbv beta iota. rewrite Hconf. cbv beta iota.
  rewrite Hstr. cbv beta iota.
  rewrite Hnlp. cbv beta iota. cbn [fs calls].
  repeat rewrite <- app_assoc. reflexivity.
Qed.

Lemma metadata_failure_is_500_witness :
  let e := mkExc ValueError "Found unknown categories in column 0" in
  let rt := Scenario.runtime None Scenario.all_ones (fun _ => ok Stub.probs)
                             (fun _ => inl e) in
  let w := Scenario.world None Scenario.all_ones (fun _ => ok Stub.probs)
                          (fun _ => inl e) in
  predict rt Stub.request w
  = (jsonify [("error", "Found unknown categories in column 0")] 500,
     mkWorld rt [("uploads/lesion.png", [x10; x80; xff])]
       [CallSave "uploads/lesion.png"; CallImread "uploads/lesion.png";
        CallSegmentation; CallClassification; CallNlp]).
Proof.
  apply (metadata_failure_is_500
           (Scenario.runtime None Scenario.all_ones (fun _ => ok Stub.probs)
              (fun _ =>
                 inl (mkExc ValueError "Found unknown categories in column 0")))
           Stub.request (Scenario.world _ _ _ _) Scenario.image_file
           [("uploads/lesion.png", [x10; x80; xff])]
           [[(x10, x80, xff)]]
           Stub.mask (normalize Stub.orig) Stub.probs
           (mkExc ValueError "Found unknown categories in column 0")).
  - reflexivity.
  - reflexivity.
  - reflexivity.
  - reflexivity.
  - reflexivity.
  - reflexivity.
  - reflexivity.
  - simpl. lia.
  - reflexivity.
Defined.

(** ** Outputs of the wrong shape *)

Lemma zip_exact_lengths {A B C} (f : A -> B -> option C) la :
  forall lb lc,
    zip_exact f la lb = Some lc -> List.length la = List.length lb.
Proof.
  induction la as [|a0 la IH]; intros [|b0 lb] lc Hzip; simpl in Hzip;
    try discriminate; auto.
  destruct (f a0 b0); [|discriminate].
  destruct (zip_exact f la lb) as [lc'|] eqn:Hrest; [|discriminate].
  simpl. f_equal. eauto.
Qed.

Lemma masked_image_same_shape orig_img mask_pred masked_img :
  masked_image (normalize orig_img) mask_pred = inr masked_img ->
  same_shape orig_img mask_pred.
Proof.
  intros H. apply masked_image_product in H. revert mask_pred masked_img H.
  unfold mul_tensor, same_shape, normalize, repeat3, binarize.
  induction orig_img as [|row orig_img IH]; intros [|mrow mask_pred] t H;
    simpl in H; try discriminate.
  - constructor.
  - destruct (zip_exact _ (map _ row) _) as [out_row|] eqn:Hrow;
      [|discriminate].
    destruct (zip_exact _ (map _ orig_img) _) as [t'|] eqn:Hrest;
      [|discriminate].
    constructor.
    + apply zip_exact_lengths in Hrow. rewrite !length_map in Hrow.
      exact Hrow.
    + eapply IH. unfold mul_pixel in *. rewrite Hrest. reflexivity.
Qed.

(** X10 - when the segmentation output does not have the shape of the
    resized image, the masked image cannot be built: the reply is a 500
    and neither the classifier nor the metadata model is invoked. *)
Theorem mask_shape_mismatch_is_500 rt req (w : World rt)
        image_file fs1 decoded mask_pred :
  method req = POST ->
  assoc "image" (files req) = Some image_file ->
  let image_path := os_path_join UPLOAD_FOLDER (filename image_file) in
  file_save rt (fs w) image_path (content image_file) = inr fs1 ->
  cv2_imread rt fs1 image_path = Some decoded ->
  segmentation_model rt (normalize (cv2_resize rt decoded)) = inr mask_pred ->
  ~ same_shape (cv2_resize rt decoded) mask_pred ->
  status (fst (predict rt req w)) = 500%nat /\
  snd (predict rt req w)
  = mkWorld rt fs1
      (calls w ++ [CallSave image_path; CallImread image_path;
                   CallSegmentation]).
Proof.
  intros Hm Hfile image_path Hsave Hread Hseg Hshape.
  rewrite (predict_decoded rt req w image_file fs1 decoded Hm Hfile Hsave Hread).
  fold image_path. unfold pipeline.
  cbv beta iota zeta delta [bind call lift ret log].
  rewrite Hseg. cbv beta iota.
  destruct (masked_image (normalize (cv2_resize rt decoded)) mask_pred)
    as [e|masked_img] eqn:Hmask.
  - cbv beta iota. cbn [fst snd fs calls status jsonify].
    rewrite <- app_assoc. split; reflexivity.
  - exfalso. apply Hshape. eapply masked_image_same_shape; eauto.
Qed.

Lemma mask_shape_mismatch_is_500_witness :
  let seg : Tensor -> Result Mask := fun _ => ok [[F32.one; F32.one]] in
  let rt := Scenario.runtime None seg (fun _ => ok Stub.probs)
                             (fun _ => ok [PyStr "mel"]) in
  let w := Scenario.world None seg (fun _ => ok Stub.probs)
                          (fun _ => ok [PyStr "mel"]) in
  status (fst (predict rt Stub.request w)) = 500%nat /\
  snd (predict rt Stub.request w)
  = mkWorld rt [("uploads/lesion.png", [x10; x80; xff])]
      [CallSave "uploads/lesion.png"; CallImread "uploads/lesion.png";
       CallSegmentation].
Proof.
  apply (mask_shape_mismatch_is_500
           (Scenario.runtime None (fun _ => ok [[F32.one; F32.one]])
              (fun _ => ok Stub.probs) (fun _ => ok [PyStr "mel"]))
           Stub.request (Scenario.world _ _ _ _) Scenario.image_file
           [("uploads/lesion.png", [x10; x80; xff])]
           [[(x10, x80, xff)]]
           [[F32.one; F32.one]]).
  - reflexivity.
  - reflexivity.
  - reflexivity.
  - reflexivity.
  - reflexivity.
  - intros H. inversion H as [|? ? ? ? _ Hrest]. inversion Hrest.
Defined.

Lemma all_class_probs_short cnn_probs :
  (0 < List.length cnn_probs < 7)%nat ->
  all_class_probs cnn_probs
  = inl (mkExc IndexError
           ("index " ++ dec (Z.of_nat (List.length cnn_probs))
              ++ " is out of bounds for axis 0 with size "
              ++ dec (Z.of_nat (List.length cnn_probs)))).
Proof.
  intros Hlen.
  destruct cnn_probs as [|p0 cnn_probs]; [simpl in Hlen; lia|].
  do 6 (destruct cnn_probs as [|? cnn_probs]; [reflexivity|]).
  simpl in Hlen. lia.
Qed.

(** X11 - a classifier output with fewer than seven entries never
    yields a success: an empty vector stops at [np.argmax], a shorter one
    at the probability listing of lines 88-90, each with NumPy's message
    in the 500 reply, and the metadata model is not invoked. *)
Theorem short_probability_vector_is_500 rt req (w : World rt)
        image_file fs1 decoded mask_pred masked_img cnn_probs :
  method req = POST ->
  assoc "image" (files req) = Some image_file ->
  let image_path := os_path_join UPLOAD_FOLDER (filename image_file) in
  file_save rt (fs w) image_path (content image_file) = inr fs1 ->
  cv2_imread rt fs1 image_path = Some decoded ->
  segmentation_model rt (normalize (cv2_resize rt decoded)) = inr mask_pred ->
  masked_image (normalize (cv2_resize rt decoded)) mask_pred
    = inr masked_img ->
  classification_model rt masked_img = inr cnn_probs ->
  (List.length cnn_probs < 7)%nat ->
  let size := dec (Z.of_nat (List.length cnn_probs)) in
  predict rt req w
  = (jsonify
       [("error",
         match cnn_probs with
         | [] => "attempt to get argmax of an empty sequence"
         | _ => "index " ++ size
                  ++ " is out of bounds for axis 0 with size " ++ size
         end)]
       500,
     mkWorld rt fs1
       (calls w ++ [CallSave image_path; CallImread image_path;
                    CallSegmentation; CallClassification])).
Proof.
  intros Hm Hfile image_path Hsave Hread Hseg Hmask Hcls Hlen size.
  subst size.
  rewrite (predict_decoded rt req w image_file fs1 decoded Hm Hfile Hsave Hread).
  fold image_path. unfold pipeline.
  cbv beta iota zeta delta [bind call lift ret log].
  rewrite Hseg. cbv beta iota. rewrite Hmask. cbv beta iota.
  rewrite Hcls. cbv beta iota. clear Hcls.
  destruct cnn_probs as [|p0 rest].
  - cbn [np_argmax raise]. cbv beta iota. cbn [fs calls exc_str].
    repeat rewrite <- app_assoc. reflexivity.
  - cbv iota. remember (p0 :: rest) as cnn_probs eqn:Hprobs.
    assert (Hpos : (0 < List.length cnn_probs < 7)%nat)
      by (subst cnn_probs; simpl in *; lia).
    destruct (np_argmax_total cnn_probs) as [top_idx Hidx];
      [subst cnn_probs; discriminate|].
    pose proof (np_argmax_lt _ _ Hidx) as Hlt.
    destruct (top_class_label_returns top_idx) as [label Hlabel].
    destruct (nth_error cnn_probs top_idx) as [conf|] eqn:Hconf.
    2:{ apply nth_error_None in Hconf. lia. }
    rewrite Hidx. cbv beta iota. rewrite Hlabel. cbv beta iota.
    unfold ndarray_getitem at 1. rewrite Hconf. unfold ok. cbv beta iota.
    rewrite (all_class_probs_short cnn_probs Hpos). cbv beta iota.
    cbn [fs calls exc_str]. repeat rewrite <- app_assoc. reflexivity.
Qed.

Lemma short_probability_vector_is_500_witness :
  let cls : Tensor -> Result (list F32.t) :=
    fun _ => ok [Stub.q 1 2; Stub.q 1 4; Stub.q 1 4] in
  let rt := Scenario.runtime None Scenario.all_ones cls
                             (fun _ => ok [PyStr "mel"]) in
  let w := Scenario.world None Scenario.all_ones cls
                          (fun _ => ok [PyStr "mel"]) in
  predict rt Stub.request w
  = (jsonify [("error", "index 3 is out of bounds for axis 0 with size 3")] 500,
     mkWorld rt [("uploads/lesion.png", [x10; x80; xff])]
       [CallSave "uploads/lesion.png"; CallImread "uploads/lesion.png";
        CallSegmentation; CallClassification]).
Proof.
  apply (short_probability_vector_is_500
           (Scenario.runtime None Scenario.all_ones
              (fun _ => ok [Stub.q 1 2; Stub.q 1 4; Stub.q 1 4])
              (fun _ => ok [PyStr "mel"]))
           Stub.request (Scenario.world _ _ _ _) Scenario.image_file
           [("uploads/lesion.png", [x10; x80; xff])]
           [[(x10, x80, xff)]]
           Stub.mask (normalize Stub.orig)
           [Stub.q 1 2; Stub.q 1 4; Stub.q 1 4]).
  - reflexivity.
  - reflexivity.
  - reflexivity.
  - reflexivity.
  - reflexivity.
  - reflexivity.
  - reflexivity.
  - simpl. lia.
Defined.

Lemma scenario_run_ok cnn_probs pred :
  coercion_caught
    (Scenario.runtime None Scenario.all_ones (fun _ => ok cnn_probs)
                      (fun _ => ok [pred])) pred ->
  run_ok (Scenario.runtime None Scenario.all_ones (fun _ => ok cnn_probs)
                           (fun _ => ok [pred]))
         Stub.request
         (Scenario.world None Scenario.all_ones (fun _ => ok cnn_probs)
                         (fun _ => ok [pred]))
         (Scenario.run cnn_probs pred).
Proof. intros H. split; [repeat split; reflexivity | exact H]. Qed.

(** X12 - line 86 guards the top class only: when the classifier answers
    more than seven entries and the largest is beyond the seventh, a
    request whose metadata prediction is not a number still succeeds,
    [cnn_output] names the class "Unknown" with that entry's confidence,
    and [all_class_probabilities] lists the first seven entries only. *)
Theorem unknown_top_class rt req w (r : Run rt) top_idx e :
  run_ok rt req w r ->
  np_argmax (run_probs r) = inr top_idx ->
  (7 <= top_idx)%nat ->
  py_float (float_of_str rt) (run_pred r) = inl e ->
  exists top_class_conf,
    nth_error (run_probs r) top_idx = Some top_class_conf /\
    status (fst (predict rt req w)) = 200%nat /\
    json_get "cnn_output" (fst (predict rt req w))
      = Some ("Predicted Class: Unknown (Confidence: "
                ++ format_f 2 top_class_conf ++ ")") /\
    json_get "all_class_probabilities" (fst (predict rt req w))
      = Some (String.concat ", "
                (map (fun lp => fst lp ++ ": " ++ format_f 4 (snd lp))
                     (List.combine CLASS_LABELS
                                   (firstn 7 (run_probs r))))) /\
    json_get "final_output" (fst (predict rt req w))
      = Some (final_output_prefix ++ py_str (float_repr rt) (run_pred r)).
Proof.
  intros Hrun Hidx Hge He.
  pose proof (np_argmax_lt _ _ Hidx) as Hlt.
  destruct (nth_error (run_probs r) top_idx) as [conf|] eqn:Hconf.
  2:{ apply nth_error_None in Hconf. lia. }
  exists conf. split; [reflexivity|].
  rewrite predict_post by apply Hrun.
  rewrite (predict_try_run rt req w r Hrun).
  unfold reply. cbv zeta. rewrite Hidx. cbv [rbind].
  unfold top_class_label_of.
  replace (top_idx <? List.length CLASS_LABELS)%nat with false
    by (symmetry; apply Nat.ltb_ge; simpl; lia).
  unfold ok. cbv beta iota.
  unfold ndarray_getitem. rewrite Hconf. cbv beta iota.
  rewrite all_class_probs_long by lia. cbv beta iota.
  rewrite (fallback_returns_str _ _ _ _ _ He (proj2 Hrun e He)).
  repeat split.
  cbn [json_get body jsonify assoc String.eqb Ascii.eqb Bool.eqb].
  do 3 f_equal.
  destruct (run_probs r) as [|p0 [|p1 [|p2 [|p3 [|p4 [|p5 [|p6 l]]]]]]];
    reflexivity.
Qed.

Lemma unknown_top_class_witness :
  let rt := Scenario.runtime None Scenario.all_ones
              (fun _ => ok Scenario.probs8) (fun _ => ok [PyStr "mel"]) in
  let w := Scenario.world None Scenario.all_ones
              (fun _ => ok Scenario.probs8) (fun _ => ok [PyStr "mel"]) in
  exists top_class_conf,
    nth_error Scenario.probs8 7 = Some top_class_conf /\
    status (fst (predict rt Stub.request w)) = 200%nat /\
    json_get "cnn_output" (fst (predict rt Stub.request w))
      = Some ("Predicted Class: Unknown (Confidence: "
                ++ format_f 2 top_class_conf ++ ")") /\
    json_get "all_class_probabilities" (fst (predict rt Stub.request w))
      = Some (String.concat ", "
                (map (fun lp => fst lp ++ ": " ++ format_f 4 (snd lp))
                     (List.combine CLASS_LABELS
                                   (firstn 7 Scenario.probs8)))) /\
    json_get "final_output" (fst (predict rt Stub.request w))
      = Some "This disease is most probably classified as: mel".
Proof.
  apply (unknown_top_class _ Stub.request _
           (Scenario.run Scenario.probs8 (PyStr "mel")) 7
           (mkExc ValueError "could not convert string to float: 'mel'")).
  - apply scenario_run_ok, str_coercion_caught.
  - reflexivity.
  - lia.
  - reflexivity.
Defined.

(** X13 - the fusion step has no such guard: when the metadata
    prediction is a number and the argmax of the averaged vector is
    beyond the seventh entry, [CLASS_LABELS[final_idx]] raises an
    [IndexError], which the inner [except] does not catch, and the reply
    is a 500 with the text "list index out of range". *)
Theorem fusion_index_error_is_500 rt req w (r : Run rt) N final_idx :
  run_ok rt req w r ->
  py_float (float_of_str rt) (run_pred r) = inr N ->
  np_argmax (combine (run_probs r) N) = inr final_idx ->
  (7 <= final_idx)%nat ->
  fusion (float_of_str rt) (float_repr rt) (run_probs r) (run_pred r)
    = inl (mkExc IndexError "list index out of range") /\
  status (fst (predict rt req w)) = 500%nat /\
  body (fst (predict rt req w)) = [("error", "list index out of range")].
Proof.
  intros Hrun HN Hidx Hge.
  assert (Hfus :
    fusion (float_of_str rt) (float_repr rt) (run_probs r) (run_pred r)
    = inl (mkExc IndexError "list index out of range")).
  { unfold fusion, fusion_try. rewrite HN. cbv [rbind]. rewrite Hidx.
    unfold list_getitem.
    replace (nth_error CLASS_LABELS final_idx) with (@None string)
      by (symmetry; apply nth_error_None; simpl; lia).
    reflexivity. }
  split; [exact Hfus|].
  pose proof (np_argmax_lt _ _ Hidx) as Hlt.
  unfold combine in Hlt. rewrite length_map in Hlt.
  destruct (pure_steps_long (run_probs r))
    as (top_idx & label & conf & Htop & Hlabel & _ & Hconf); [lia|].
  rewrite predict_post by apply Hrun.
  rewrite (predict_try_run rt req w r Hrun).
  unfold reply. cbv zeta. rewrite Htop. cbv [rbind].
  rewrite Hlabel, Hconf, all_class_probs_long by lia. rewrite Hfus.
  split; reflexivity.
Qed.

Lemma fusion_index_error_is_500_witness :
  let rt := Scenario.runtime None Scenario.all_ones
              (fun _ => ok Scenario.probs8)
              (fun _ => ok [PyFloat Stub.f64_0_2]) in
  let w := Scenario.world None Scenario.all_ones
              (fun _ => ok Scenario.probs8)
              (fun _ => ok [PyFloat Stub.f64_0_2]) in
  fusion (float_of_str rt) (float_repr rt) Scenario.probs8
         (PyFloat Stub.f64_0_2)
    = inl (mkExc IndexError "list index out of range") /\
  status (fst (predict rt Stub.request w)) = 500%nat /\
  body (fst (predict rt Stub.request w))
    = [("error", "list index out of range")].
Proof.
  apply (fusion_index_error_is_500 _ Stub.request _
           (Scenario.run Scenario.probs8 (PyFloat Stub.f64_0_2))
           Stub.f64_0_2 7).
  - apply scenario_run_ok, float_coercion_caught.
  - reflexivity.
  - reflexivity.
  - lia.
Defined.

(** ** The averaging of the fusion step *)

(** X20 - the averaging of line 104 is monotone in float32: for finite
    float32 values [p <= p'] and a float32 [n] that is not NaN, the
    average [(p + n) / 2] is at most [(p' + n) / 2], and neither is NaN.
    It is not strictly monotone: sums that round to the same float32
    give the same average. *)
Theorem average_is_monotone (p p' n : F32.t) :
  valid_binary F32.prec F32.emax p = true ->
  valid_binary F32.prec F32.emax p' = true ->
  valid_binary F32.prec F32.emax n = true ->
  F32.is_finite p = true -> F32.is_finite p' = true ->
  F32.is_nan n = false ->
  F32.leb p p' = true ->
  F32.leb (F32.div (F32.add p n) F32.two) (F32.div (F32.add p' n) F32.two)
    = true /\
  F32.is_nan (F32.div (F32.add p n) F32.two) = false /\
  F32.is_nan (F32.div (F32.add p' n) F32.two) = false.
Proof.
  intros Hp Hp' Hn Fp Fp' Nn Hle. split; [|split].
  - apply (average_mono p p' n); assumption.
  - apply (average_valid p n); assumption.
  - apply (average_valid p' n); assumption.
Qed.

Lemma average_is_monotone_witness :
  let n := F64.to_f32 Stub.f64_0_2 in
  F32.leb (F32.div (F32.add (Stub.q 1 10) n) F32.two)
          (F32.div (F32.add (Stub.q 6 10) n) F32.two) = true /\
  F32.is_nan (F32.div (F32.add (Stub.q 1 10) n) F32.two) = false /\
  F32.is_nan (F32.div (F32.add (Stub.q 6 10) n) F32.two) = false.
Proof.
  apply (average_is_monotone (Stub.q 1 10) (Stub.q 6 10)
           (F64.to_f32 Stub.f64_0_2)); reflexivity.
Defined.

(** ** Fusion with a prediction that is not finite *)

Lemma argmax_scan_constant c (rest : list F32.t) :
  F32.leb c c = true ->
  forall max_ind i,
    Forall (fun x => x = c) rest ->
    argmax_scan c max_ind i rest = max_ind.
Proof.
  intros Hc. induction rest as [|x rest IH]; intros max_ind i Hall; simpl.
  - reflexivity.
  - inversion Hall as [|? ? Hx Hrest]; subst. rewrite Hc. simpl.
    apply IH. exact Hrest.
Qed.

Lemma combine_not_finite cnn_probs N :
  cnn_probs <> [] ->
  Forall (fun p => F32.is_finite p = true) cnn_probs ->
  not_finite_f64 N = true ->
  np_argmax (combine cnn_probs N) = inr 0%nat.
Proof.
  intros Hne Hfin HN.
  destruct N as [s|s| |s m e]; try discriminate HN.
  - (* an infinity absorbs every finite probability *)
    assert (Hall : Forall (fun x => x = S754_infinity s) (combine cnn_probs (S754_infinity s))).
    { unfold combine. apply Forall_map. eapply Forall_impl; [|exact Hfin].
      intros p Hp. destruct p; try discriminate Hp; destruct s; reflexivity. }
    destruct (combine cnn_probs (S754_infinity s)) as [|c rest] eqn:Hc.
    + unfold combine in Hc. destruct cnn_probs; [congruence | discriminate Hc].
    + inversion Hall as [|? ? Hhead Hrest]; subst. simpl. unfold ok. f_equal.
      apply argmax_scan_constant; [destruct s; reflexivity | exact Hrest].
  - apply combine_nan_argmax; [exact Hne | reflexivity].
Qed.

(** X14 - a numeric metadata prediction that is NaN or infinite
    ([float("nan")] and [float("inf")] parse) makes every averaged entry
    the same value, so the fused label is always the first label, "bkl",
    whatever the (finite) probabilities are. *)
Theorem not_finite_prediction_gives_first_label rt req w (r : Run rt) N :
  run_ok rt req w r ->
  List.length (run_probs r) = 7%nat ->
  Forall (fun p => F32.is_finite p = true) (run_probs r) ->
  py_float (float_of_str rt) (run_pred r) = inr N ->
  not_finite_f64 N = true ->
  status (fst (predict rt req w)) = 200%nat /\
  json_get "final_output" (fst (predict rt req w))
    = Some "This disease is most probably classified as: bkl".
Proof.
  intros Hrun Hlen Hfin HN Hnf.
  destruct (predict_run_success rt req w r Hrun Hlen)
    as (top_idx & top_label & conf & final_label & _ & _ & _ & Hfus & Hresp).
  destruct (numeric_returns_label (float_of_str rt) (float_repr rt)
              _ _ _ Hlen HN) as (k & label & Hk & Hlabel & Hfus').
  rewrite Hfus in Hfus'. injection Hfus' as ->.
  rewrite combine_not_finite in Hk; auto.
  2:{ destruct (run_probs r); [discriminate Hlen | congruence]. }
  injection Hk as <-. simpl in Hlabel. injection Hlabel as <-.
  rewrite Hresp. split; reflexivity.
Qed.

Lemma not_finite_prediction_gives_first_label_witness :
  let rt := Stub.runtime (PyStr "nan") in
  let w := Stub.world (PyStr "nan") in
  status (fst (predict rt Stub.request w)) = 200%nat /\
  json_get "final_output" (fst (predict rt Stub.request w))
    = Some "This disease is most probably classified as: bkl".
Proof.
  apply (not_finite_prediction_gives_first_label
           (Stub.runtime (PyStr "nan")) Stub.request
           (Stub.world (PyStr "nan")) (Stub.run (PyStr "nan")) S754_nan).
  - apply stub_run_ok, str_coercion_caught.
  - reflexivity.
  - repeat constructor.
  - reflexivity.
  - reflexivity.
Defined.

(** ** The classification summary *)

(** X15 - on a success with seven finite probabilities, [cnn_output]
    names the label of the first largest entry and prints that entry,
    which no other entry exceeds, with exactly two decimal places. *)
Theorem cnn_output_reports_the_maximum rt req w (r : Run rt) :
  run_ok rt req w r ->
  List.length (run_probs r) = 7%nat ->
  Forall (fun p => F32.is_finite p = true) (run_probs r) ->
  exists top_idx top_class_label top_class_conf confidence,
    first_max (run_probs r) top_idx /\
    nth_error CLASS_LABELS top_idx = Some top_class_label /\
    nth_error (run_probs r) top_idx = Some top_class_conf /\
    Forall (fun p => F32.leb p top_class_conf = true) (run_probs r) /\
    confidence = format_f 2 top_class_conf /\
    fixed_point 2 confidence /\
    json_get "cnn_output" (fst (predict rt req w))
      = Some ("Predicted Class: " ++ top_class_label ++ " (Confidence: "
                ++ confidence ++ ")").
Proof.
  intros Hrun Hlen Hfin.
  destruct (predict_run_success rt req w r Hrun Hlen)
    as (top_idx & top_label & conf & final_label
        & Hidx & Hlabel & Hconf & _ & Hresp).
  pose proof (np_argmax_first_max _ _ Hidx) as Hmax.
  assert (Hconf_fin : F32.is_finite conf = true).
  { rewrite Forall_forall in Hfin. apply Hfin.
    eapply nth_error_In; eauto. }
  exists top_idx, top_label, conf, (format_f 2 conf).
  repeat split; auto.
  - destruct Hmax as (x & Hx & _ & Hle). rewrite Hconf in Hx.
    injection Hx as <-.
    destruct Hle as [Hle _]; [destruct conf; try discriminate; reflexivity|].
    apply Forall_forall. intros p Hp.
    destruct (In_nth_error _ _ Hp) as [j Hj]. eapply Hle; eauto.
  - apply format_f_fixed_point; [discriminate | exact Hconf_fin].
  - rewrite Hresp. reflexivity.
Qed.

Lemma cnn_output_reports_the_maximum_witness :
  let rt := Stub.runtime (PyStr "mel") in
  let w := Stub.world (PyStr "mel") in
  exists top_idx top_class_label top_class_conf confidence,
    first_max Stub.probs top_idx /\
    nth_error CLASS_LABELS top_idx = Some top_class_label /\
    nth_error Stub.probs top_idx = Some top_class_conf /\
    Forall (fun p => F32.leb p top_class_conf = true) Stub.probs /\
    confidence = format_f 2 top_class_conf /\
    fixed_point 2 confidence /\
    json_get "cnn_output" (fst (predict rt Stub.request w))
      = Some ("Predicted Class: " ++ top_class_label ++ " (Confidence: "
                ++ confidence ++ ")").
Proof.
  apply (cnn_output_reports_the_maximum (Stub.runtime (PyStr "mel"))
           Stub.request (Stub.world (PyStr "mel")) (Stub.run (PyStr "mel"))).
  - apply stub_run_ok, str_coercion_caught.
  - reflexivity.
  - repeat constructor.
Defined.

(** ** The overlay and the value range of the images *)

Lemma zip_exact_nth_out {A B C} (f : A -> B -> option C) la :
  forall lb lc i c,
    zip_exact f la lb = Some lc ->
    nth_error lc i = Some c ->
    exists a b,
      nth_error la i = Some a /\ nth_error lb i = Some b /\ f a b = Some c.
Proof.
  induction la as [|a0 la IH]; intros [|b0 lb] lc i c Hzip Hc;
    simpl in Hzip; try discriminate.
  - injection Hzip as <-. destruct i; discriminate.
  - destruct (f a0 b0) as [c0|] eqn:Hf; [|discriminate].
    destruct (zip_exact f la lb) as [lc'|] eqn:Hrest; [|discriminate].
    injection Hzip as <-.
    destruct i as [|i]; simpl in *.
    + injection Hc as <-. eauto.
    + eapply IH; eauto.
Qed.

Lemma zip_rows_total {A B C} (g : A -> B -> C) (x : list (list A)) :
  forall y : list (list B),
    same_shape x y ->
    exists t, zip_exact (zip_exact (fun a b => Some (g a b))) x y = Some t.
Proof.
  unfold same_shape. induction x as [|rx x IH]; intros y H; inversion H; subst.
  - simpl. eauto.
  - simpl.
    match goal with
    | Hrow : List.length rx = List.length ?ry |- _ =>
        destruct (zip_exact_total g rx ry Hrow) as [row ->]
    end.
    match goal with
    | Hrest : Forall2 _ x ?y' |- _ => destruct (IH y' Hrest) as [t ->]
    end.
    eauto.
Qed.

Lemma threshold_of_binary_mask m :
  F32.gtb (if F32.gtb m F32.half then F32.one else F32.zero) F32.half
  = F32.gtb m F32.half.
Proof. destruct (F32.gtb m F32.half); reflexivity. Qed.

(** X16 - the overlay of lines 120-121: when the mask has the shape of
    the image, every pixel of the overlay is pure red (255, 0, 0) where
    the raw mask value exceeds 0.5 and is the decoded pixel with its
    first and third channels swapped (BGR to RGB) where it does not. *)
Theorem overlay_pixels (orig_img : Image) (mask_pred : Mask) :
  same_shape orig_img mask_pred ->
  exists overlay,
    make_overlay (bgr2rgb orig_img) (binarize mask_pred) = inr overlay /\
    forall i j b g r m,
      pixel_at orig_img i j = Some (b, g, r) ->
      pixel_at mask_pred i j = Some m ->
      pixel_at overlay i j
        = Some (if F32.gtb m F32.half then (xff, x00, x00) else (r, g, b)).
Proof.
  intros Hshape.
  assert (Hshape' : same_shape (bgr2rgb orig_img) (binarize mask_pred)).
  { unfold same_shape, bgr2rgb, binarize in *.
    induction Hshape; simpl; constructor; auto.
    rewrite !length_map. assumption. }
  assert (Hex : exists overlay,
             zip_exact overlay_row (bgr2rgb orig_img) (binarize mask_pred)
             = Some overlay)
    by exact (zip_rows_total
                (fun (p : Pixel byte) (m : F32.t) =>
                   if F32.gtb m F32.half then (xff, x00, x00) else p)
                _ _ Hshape').
  destruct Hex as [overlay Hov].
  exists overlay. split.
  - unfold make_overlay. rewrite Hov. reflexivity.
  - intros i j b g r m Hp Hm. unfold pixel_at in *.
    destruct (nth_error orig_img i) as [row|] eqn:Hrow; [|discriminate].
    destruct (nth_error mask_pred i) as [mrow|] eqn:Hmrow; [|discriminate].
    assert (Hrow' : nth_error (bgr2rgb orig_img) i
                    = Some (map (fun p : Pixel byte =>
                                   let '(b, g, r) := p in (r, g, b)) row))
      by (unfold bgr2rgb; rewrite nth_error_map, Hrow; reflexivity).
    destruct (zip_exact_nth _ _ _ _ _ _ Hov Hrow')
      as (mrow' & out_row & Hmrow' & Hzip_row & Hout_row).
    unfold binarize in Hmrow'. rewrite nth_error_map, Hmrow in Hmrow'.
    simpl in Hmrow'. injection Hmrow' as <-.
    assert (Hp' : nth_error (map (fun p : Pixel byte =>
                                    let '(b, g, r) := p in (r, g, b)) row) j
                  = Some (r, g, b))
      by (rewrite nth_error_map, Hp; reflexivity).
    unfold overlay_row in Hzip_row.
    destruct (zip_exact_nth _ _ _ _ _ _ Hzip_row Hp')
      as (m' & out & Hm' & Hout & Hout_at).
    rewrite nth_error_map, Hm in Hm'. simpl in Hm'. injection Hm' as <-.
    rewrite Hout_row, Hout_at. rewrite threshold_of_binary_mask in Hout.
    congruence.
Qed.

Lemma overlay_pixels_witness :
  let orig_img : Image :=
    [[(x10, x80, xff); (x00, x01, x02)]; [(x7f, x80, x81); (xfe, x03, x40)]] in
  let mask_pred : Mask :=
    [[Stub.q 3 4; Stub.q 1 4]; [S754_nan; Stub.q 1 2]] in
  exists overlay,
    make_overlay (bgr2rgb orig_img) (binarize mask_pred) = inr overlay /\
    forall i j b g r m,
      pixel_at orig_img i j = Some (b, g, r) ->
      pixel_at mask_pred i j = Some m ->
      pixel_at overlay i j
        = Some (if F32.gtb m F32.half then (xff, x00, x00) else (r, g, b)).
Proof.
  apply (overlay_pixels
           [[(x10, x80, xff); (x00, x01, x02)];
            [(x7f, x80, x81); (xfe, x03, x40)]]
           [[Stub.q 3 4; Stub.q 1 4]; [S754_nan; Stub.q 1 2]]).
  repeat constructor.
Defined.

Lemma normalized_byte_in_unit_interval (b : byte) :
  in_unit_interval (F32.div (f32_of_byte b) F32.c255) = true.
Proof. destruct b; reflexivity. Qed.

(** X17 - the normalized image and the masked image handed to the
    classifier hold only float32 values between 0 and 1: each is a byte
    divided by 255, or zero. *)
Theorem image_values_in_unit_interval orig_img mask_pred masked_img :
  masked_image (normalize orig_img) mask_pred = inr masked_img ->
  (forall i j c x,
      tensor_at (normalize orig_img) i j c = Some x ->
      in_unit_interval x = true) /\
  (forall i j c y,
      tensor_at masked_img i j c = Some y ->
      in_unit_interval y = true).
Proof.
  intros Hmasked.
  assert (Hnorm : forall i j c x,
             tensor_at (normalize orig_img) i j c = Some x ->
             exists b, x = F32.div (f32_of_byte b) F32.c255).
  { intros i j c x Hx. unfold tensor_at, normalize in Hx.
    rewrite nth_error_map in Hx.
    destruct (nth_error orig_img i) as [row|]; [|discriminate].
    simpl in Hx. rewrite nth_error_map in Hx.
    destruct (nth_error row j) as [p|]; [|discriminate].
    simpl in Hx. destruct (channel_pixel_map _ _ _ _ Hx) as (b & _ & ->).
    eauto. }
  split.
  - intros i j c x Hx. destruct (Hnorm i j c x Hx) as [b ->].
    apply normalized_byte_in_unit_interval.
  - intros i j c y Hy.
    pose proof (masked_image_product _ _ _ Hmasked) as Hmul.
    unfold mul_tensor in Hmul. unfold tensor_at in Hy.
    destruct (nth_error masked_img i) as [out_row|] eqn:Hout_row;
      [|discriminate].
    destruct (nth_error out_row j) as [out|] eqn:Hout; [|discriminate].
    destruct (zip_exact_nth_out _ _ _ _ _ _ Hmul Hout_row)
      as (row & row3 & Hrow & Hrow3 & Hzip_row).
    destruct (zip_exact_nth_out _ _ _ _ _ _ Hzip_row Hout)
      as (p & q & Hp & Hq & Hpq).
    unfold repeat3, binarize in Hrow3. rewrite !nth_error_map in Hrow3.
    destruct (nth_error mask_pred i) as [mrow|] eqn:Hmrow; [|discriminate].
    simpl in Hrow3. injection Hrow3 as <-.
    rewrite !nth_error_map in Hq.
    destruct (nth_error mrow j) as [m|] eqn:Hm; [|discriminate].
    simpl in Hq. injection Hq as <-.
    assert (Hx : exists x, tensor_at (normalize orig_img) i j c = Some x /\
                           tensor_at masked_img i j c = Some y).
    { unfold tensor_at. rewrite Hrow, Hp, Hout_row, Hout.
      injection Hpq as <-.
      destruct p as [[p0 p1] p2].
      destruct c as [|[|[|c]]]; simpl in Hy |- *; try discriminate; eauto. }
    destruct Hx as (x & Hx & Hy').
    assert (Hmask_at : mask_at mask_pred i j = Some m)
      by (unfold mask_at; rewrite Hmrow; exact Hm).
    rewrite (masked_image_pixels _ _ _ Hmasked i j c x m Hx Hmask_at) in Hy'.
    injection Hy' as <-.
    destruct (F32.gtb m F32.half); [|reflexivity].
    destruct (Hnorm i j c x Hx) as [b ->].
    apply normalized_byte_in_unit_interval.
Qed.

Lemma image_values_in_unit_interval_witness :
  let orig_img : Image :=
    [[(x10, x80, xff); (x00, x01, x02)]; [(x7f, x80, x81); (xfe, x03, x40)]] in
  let mask_pred : Mask :=
    [[Stub.q 3 4; Stub.q 1 4]; [S754_nan; Stub.q 1 2]] in
  exists masked_img,
    masked_image (normalize orig_img) mask_pred = inr masked_img /\
    forall i j c y,
      tensor_at masked_img i j c = Some y -> in_unit_interval y = true.
Proof.
  eexists. split; [reflexivity|].
  apply (image_values_in_unit_interval
           [[(x10, x80, xff); (x00, x01, x02)];
            [(x7f, x80, x81); (xfe, x03, x40)]]
           [[Stub.q 3 4; Stub.q 1 4]; [S754_nan; Stub.q 1 2]]).
  reflexivity.
Defined.

(** ** Where the upload is stored *)

(** X18 - the upload is stored under the name the client sent, without
    any sanitizing: a file name that starts with "/" is stored at that
    absolute path, outside the upload folder, and any other name at
    "uploads/" followed by the name as it is.  What is stored there is
    what [image_file.save] leaves, and it is the first thing the handler
    does. *)
Theorem upload_path_is_client_chosen rt req (w : World rt) image_file :
  method req = POST ->
  assoc "image" (files req) = Some image_file ->
  let name := filename image_file in
  let image_path := if starts_with_sep name then name else "uploads/" ++ name in
  (exists rest,
      calls (snd (predict rt req w))
      = (calls w ++ CallSave image_path :: rest)%list) /\
  (forall fs1,
      file_save rt (fs w) image_path (content image_file) = inr fs1 ->
      fs (snd (predict rt req w)) = fs1).
Proof.
  intros Hm Hfile name image_path.
  assert (Hpath : os_path_join UPLOAD_FOLDER (filename image_file) = image_path).
  { subst image_path name. unfold os_path_join.
    destruct (starts_with_sep (filename image_file)); reflexivity. }
  unfold predict. rewrite Hm.
  rewrite (predict_try_image rt req w image_file Hfile). cbv zeta.
  rewrite Hpath.
  destruct (file_save rt (fs w) image_path (content image_file)) as [e|fs1].
  { split; [exists []; reflexivity | intros fs1 H; discriminate H]. }
  destruct (cv2_imread rt fs1 image_path) as [decoded|].
  2:{ split; [eexists; reflexivity
             | intros fs2 H; injection H as <-; reflexivity]. }
  destruct (pipeline rt (input_row req) decoded _) as [[e|response] w']
    eqn:Hpipe; cbn [fst snd].
  - apply pipeline_raises in Hpipe. destruct Hpipe as (Hfs & n & _ & Hcalls).
    split.
    + eexists. rewrite Hcalls. cbn [calls]. rewrite <- app_assoc.
      reflexivity.
    + intros fs2 H. injection H as <-. rewrite Hfs. reflexivity.
  - apply pipeline_returns in Hpipe.
    destruct Hpipe as (_ & _ & Hfs & Hcalls). split.
    + eexists. rewrite Hcalls. cbn [calls]. rewrite <- app_assoc.
      reflexivity.
    + intros fs2 H. injection H as <-. rewrite Hfs. reflexivity.
Qed.

Lemma upload_path_is_client_chosen_witness :
  let rt := Stub.runtime (PyStr "mel") in
  let req := mkRequest POST [("image", mkFile "/tmp/x.png" [x10; x80; xff])] [] in
  let w := Stub.world (PyStr "mel") in
  (exists rest,
      calls (snd (predict rt req w))
      = (calls w ++ CallSave "/tmp/x.png" :: rest)%list) /\
  (forall fs1,
      file_save rt (fs w) "/tmp/x.png" [x10; x80; xff] = inr fs1 ->
      fs (snd (predict rt req w)) = fs1).
Proof.
  apply (upload_path_is_client_chosen (Stub.runtime (PyStr "mel"))
           (mkRequest POST [("image", mkFile "/tmp/x.png" [x10; x80; xff])] [])
           (Stub.world (PyStr "mel"))
           (mkFile "/tmp/x.png" [x10; x80; xff])).
  - reflexivity.
  - reflexivity.
Defined.

(** ** Printed probabilities *)

(** A float32 mantissa has at most 24 bits. *)
Lemma valid_mantissa_bound s m e :
  valid_binary F32.prec F32.emax (S754_finite s m e) = true ->
  (Z.pos m < 2 ^ 24)%Z.
Proof.
  unfold valid_binary, bounded, canonical_mantissa, fexp, emin,
    F32.prec, F32.emax.
  intros H. apply andb_true_iff in H as [H _]. apply Z.eqb_eq in H.
  pose proof (digits2_pos_upper m) as Hd.
  assert (Hle : (Z.pos (digits2_pos m) <= 24)%Z) by lia.
  eapply Z.lt_le_trans; [exact Hd|].
  apply Z.pow_le_mono_r; lia.
Qed.

Lemma scaled_round_unit m e :
  (Z.pos m < 2 ^ 24)%Z ->
  F32.leb (S754_finite false m e) F32.one = true ->
  (0 <= scaled_round 4 m e <= 10000)%Z.
Proof.
  intros Hm Hle.
  assert (He : (e < -23 \/ (e = -23 /\ Z.pos m <= 8388608))%Z).
  { unfold F32.leb, SFleb, SFcompare in Hle.
    change F32.one with (S754_finite false 8388608 (-23)) in Hle.
    cbv beta iota in Hle.
    destruct (Z.compare_spec e (-23)); try discriminate; [|lia].
    right. split; [assumption|].
    change (Pos.compare_cont Eq m 8388608) with (Pos.compare m 8388608) in Hle.
    destruct (Pos.compare_spec m 8388608); try discriminate; lia. }
  unfold scaled_round.
  destruct e as [|p|p]; try lia.
  change (10 ^ Z.of_nat 4)%Z with 10000%Z.
  set (den := (2 ^ Z.pos p)%Z).
  assert (Hden : (2 ^ 23 <= den)%Z)
    by (apply Z.pow_le_mono_r; lia).
  assert (Hden24 : (Z.neg p < -23 -> 2 ^ 24 <= den)%Z)
    by (intros; apply Z.pow_le_mono_r; lia).
  assert (Hpos : (0 < den)%Z) by lia.
  pose proof (Z.div_mod (Z.pos m * 10000) den ltac:(lia)) as Hdm.
  pose proof (Z.mod_pos_bound (Z.pos m * 10000) den Hpos) as Hr.
  set (q := (Z.pos m * 10000 / den)%Z) in *.
  set (r := ((Z.pos m * 10000) mod den)%Z) in *.
  assert (Hq0 : (0 <= q)%Z) by (apply Z.div_pos; lia).
  assert (Hn : (Z.pos m * 10000 <= 10000 * den)%Z).
  { destruct He as [He|[He Hm']].
    - specialize (Hden24 He). nia.
    - assert (den = 2 ^ 23)%Z by (subst den; injection He as ->; reflexivity).
      nia. }
  assert (Hq : (q <= 10000)%Z) by nia.
  destruct (Z.eq_dec q 10000) as [Heq|Hneq].
  - assert (r = 0)%Z by nia.
    replace (2 * r ?= den)%Z with Lt
      by (symmetry; apply Z.compare_lt_iff; lia).
    lia.
  - destruct (2 * r ?= den)%Z; [destruct (Z.even q)| |]; lia.
Qed.

Lemma format_f_unit x :
  valid_binary F32.prec F32.emax x = true ->
  in_unit_interval x = true ->
  unit_numeral (format_f 4 x).
Proof.
  intros Hvalid Hunit. unfold in_unit_interval in Hunit.
  apply andb_true_iff in Hunit as [H0 H1].
  destruct x as [s|s| |s m e].
  - right. exists "0000". destruct s; simpl; auto.
  - destruct s; [discriminate H0 | discriminate H1].
  - discriminate H0.
  - destruct s; [discriminate H0|].
    pose proof (scaled_round_unit m e (valid_mantissa_bound _ _ _ Hvalid) H1)
      as Hn.
    unfold format_f. set (n := scaled_round 4 m e) in *.
    change (10 ^ Z.of_nat 4)%Z with 10000%Z.
    destruct (Z.eq_dec n 10000) as [-> | Hneq].
    + left. reflexivity.
    + right. exists (frac_digits 4 (n mod 10000)).
      destruct (frac_digits_spec 4 (n mod 10000)) as [Hd Hl].
      repeat split; auto. left.
      replace (n / 10000)%Z with 0%Z
        by (symmetry; apply Z.div_small; lia).
      reflexivity.
Qed.

(** X19 - on a success with seven float32 probabilities between 0 and
    1, every value listed in [all_class_probabilities] is a numeral from
    0.0000 to 1.0000: "0." and four digits, or "1.0000" (a negative zero
    prints as "-0.0000"). *)
Theorem probabilities_print_in_unit_range rt req w (r : Run rt) :
  run_ok rt req w r ->
  List.length (run_probs r) = 7%nat ->
  Forall (fun p => valid_binary F32.prec F32.emax p = true
                   /\ in_unit_interval p = true) (run_probs r) ->
  exists values,
    List.length values = 7%nat /\
    Forall unit_numeral values /\
    json_get "all_class_probabilities" (fst (predict rt req w))
      = Some (String.concat ", "
                (map (fun lv => fst lv ++ ": " ++ snd lv)
                     (List.combine CLASS_LABELS values))).
Proof.
  intros Hrun Hlen Hprobs.
  destruct (predict_run_success rt req w r Hrun Hlen)
    as (top_idx & top_label & conf & final_label & _ & _ & _ & _ & Hresp).
  exists (map (format_f 4) (run_probs r)).
  rewrite Hresp. split; [rewrite length_map; exact Hlen|]. split.
  - apply Forall_map. eapply Forall_impl; [|exact Hprobs].
    intros p [Hv Hu]. apply format_f_unit; assumption.
  - cbn [json_get body jsonify assoc String.eqb Ascii.eqb Bool.eqb].
    f_equal. f_equal. apply entries_of_values.
Qed.

Lemma probabilities_print_in_unit_range_witness :
  let rt := Stub.runtime (PyStr "mel") in
  let w := Stub.world (PyStr "mel") in
  exists values,
    List.length values = 7%nat /\
    Forall unit_numeral values /\
    json_get "all_class_probabilities" (fst (predict rt Stub.request w))
      = Some (String.concat ", "
                (map (fun lv => fst lv ++ ": " ++ snd lv)
                     (List.combine CLASS_LABELS values))).
Proof.
  apply (probabilities_print_in_unit_range (Stub.runtime (PyStr "mel"))
           Stub.request (Stub.world (PyStr "mel")) (Stub.run (PyStr "mel"))).
  - apply stub_run_ok, str_coercion_caught.
  - reflexivity.
  - repeat constructor.
Defined.
